(** * lesentiel: the receipt pipeline, embedded and verified

    A shallow embedding of the receipt-processing core of the repository
    (utils/fileParser.ts, utils/receipts.ts, utils/pdfProcessor.ts,
    utils/llmProcessor.ts, utils/receiptProcessor.ts, db/index.ts,
    db/receipts.ts, db/items.ts).

    - JavaScript numbers are IEEE-754 binary64 values: the kernel's [float].
    - A JavaScript string is a [string]: the bytes of its UTF-8 encoding.
      File contents are byte strings.
    - The filesystem is a finite map from paths to nodes in which a path
      with a NUL byte names nothing; the SQLite database is a pair of
      tables with their AUTOINCREMENT counters.
    - Effectful code (exceptions, filesystem, database, requests to the
      language model) runs in a state-and-exception monad [Eff].
    - Everything the program gets from its runtime (the [path] module, the
      OpenAI client, [JSON.parse], [URL], ...) is a field of [Runtime].
    - Console output is left out; [await] is sequencing. *)

From Stdlib Require Import Floats.FloatClass Floats.PrimFloat.
From Stdlib Require Import NArith String Ascii List Bool Lia.
From stdpp Require Import base option list strings gmap sorting.

Set Default Proof Using "Type".
Local Open Scope string_scope.
Local Open Scope list_scope.

(* ================================================================== *)
(** * JavaScript primitives used by the sources *)
(* ================================================================== *)

Module Js.

(** ** Numbers *)

(** [ToBoolean] on a number: [0], [-0] and [NaN] are falsy. *)
Definition truthy_number (x : float) : bool :=
  negb (PrimFloat.eqb x 0%float || PrimFloat.is_nan x).

(** [ToBoolean] on a string: only the empty string is falsy. *)
Definition truthy_string (s : string) : bool :=
  match s with EmptyString => false | String _ _ => true end.

(** [x || d] where [x : number | undefined | null]. *)
Definition number_or {A} (wrap : float -> A) (x : option float) (d : A) : A :=
  match x with
  | Some v => if truthy_number v then wrap v else d
  | None => d
  end.

(** [x || d] where [x : string | undefined | null]. *)
Definition string_or {A} (wrap : string -> A) (x : option string) (d : A) : A :=
  match x with
  | Some v => if truthy_string v then wrap v else d
  | None => d
  end.

Definition is_negative_zero (x : float) : bool :=
  match PrimFloat.classify x with NZero => true | _ => false end.

(** [Math.max(a, b)]: [NaN] if either argument is [NaN]; [+0] is larger
    than [-0]. *)
Definition Math_max (a b : float) : float :=
  if PrimFloat.is_nan a || PrimFloat.is_nan b then PrimFloat.nan
  else if PrimFloat.ltb a b then b
  else if PrimFloat.ltb b a then a
  else if is_negative_zero a then b else a.

Definition Math_abs (a : float) : float := PrimFloat.abs a.

(** ** Strings *)

(** The code points [String.prototype.trim] removes (WhiteSpace and
    LineTerminator of ECMAScript), by the length of their UTF-8
    encoding. One byte: TAB, LF, VT, FF, CR and SPACE. *)
Definition white_space_1 (a : ascii) : bool :=
  let n := nat_of_ascii a in
  ((9 <=? n)%nat && (n <=? 13)%nat) || (n =? 32)%nat.

(** Two bytes: U+00A0 (C2 A0). *)
Definition white_space_2 (a b : ascii) : bool :=
  Ascii.eqb a "194"%char && Ascii.eqb b "160"%char.

(** Three bytes: U+1680 (E1 9A 80), U+2000 to U+200A (E2 80 80 to
    E2 80 8A), U+2028 and U+2029 (E2 80 A8, E2 80 A9), U+202F (E2 80 AF),
    U+205F (E2 81 9F), U+3000 (E3 80 80) and U+FEFF (EF BB BF). *)
Definition white_space_3 (a b c : ascii) : bool :=
  let n := nat_of_ascii c in
  (Ascii.eqb a "225"%char && Ascii.eqb b "154"%char && Ascii.eqb c "128"%char)
  || (Ascii.eqb a "226"%char && Ascii.eqb b "128"%char
      && (((128 <=? n)%nat && (n <=? 138)%nat)
          || (n =? 168)%nat || (n =? 169)%nat || (n =? 175)%nat))
  || (Ascii.eqb a "226"%char && Ascii.eqb b "129"%char && Ascii.eqb c "159"%char)
  || (Ascii.eqb a "227"%char && Ascii.eqb b "128"%char && Ascii.eqb c "128"%char)
  || (Ascii.eqb a "239"%char && Ascii.eqb b "187"%char && Ascii.eqb c "191"%char).

(** What is left of [s] after one white-space code point at its start,
    when there is one; [w1], [w2] and [w3] recognise its encoding. *)
Definition peel (w1 : ascii -> bool) (w2 : ascii -> ascii -> bool)
  (w3 : ascii -> ascii -> ascii -> bool) (s : string) : option string :=
  match s with
  | EmptyString => None
  | String a r1 =>
      if w1 a then Some r1
      else match r1 with
           | EmptyString => None
           | String b r2 =>
               if w2 a b then Some r2
               else match r2 with
                    | EmptyString => None
                    | String c r3 => if w3 a b c then Some r3 else None
                    end
           end
  end.

(** Removes the white-space code points at the start of [s]. *)
Fixpoint strip (w1 : ascii -> bool) (w2 : ascii -> ascii -> bool)
  (w3 : ascii -> ascii -> ascii -> bool) (s : string) : string :=
  match s with
  | EmptyString => EmptyString
  | String a r1 =>
      if w1 a then strip w1 w2 w3 r1
      else match r1 with
           | EmptyString => s
           | String b r2 =>
               if w2 a b then strip w1 w2 w3 r2
               else match r2 with
                    | EmptyString => s
                    | String c r3 => if w3 a b c then strip w1 w2 w3 r3 else s
                    end
           end
  end.

Definition trimStart (s : string) : string :=
  strip white_space_1 white_space_2 white_space_3 s.

Fixpoint string_rev (s : string) : string :=
  match s with
  | EmptyString => EmptyString
  | String c rest => string_rev rest +:+ String c EmptyString
  end.

(** The encodings read from the end of the text: last byte first. *)
Definition white_space_2_rev (b a : ascii) : bool := white_space_2 a b.
Definition white_space_3_rev (c b a : ascii) : bool := white_space_3 a b c.

Definition trimEnd (s : string) : string :=
  string_rev (strip white_space_1 white_space_2_rev white_space_3_rev
                    (string_rev s)).

Definition trim (s : string) : string := trimEnd (trimStart s).

(** [s.split(sep)] for a one-character separator: always at least one
    piece. *)
Fixpoint split (sep : ascii) (s : string) : list string :=
  match s with
  | EmptyString => [EmptyString]
  | String c rest =>
      if Ascii.eqb c sep then EmptyString :: split sep rest
      else match split sep rest with
           | [] => [String c EmptyString]
           | piece :: pieces => String c piece :: pieces
           end
  end.

Definition startsWith (s p : string) : bool := String.prefix p s.

Definition endsWith (s p : string) : bool :=
  String.prefix (string_rev p) (string_rev s).

(** [s.includes(p)]. *)
Fixpoint includes (s p : string) : bool :=
  String.prefix p s ||
  match s with
  | EmptyString => false
  | String _ rest => includes rest p
  end.

(** [s.slice(1, -1)]: drops the first and the last character; empty when
    the string has fewer than two characters. The sources apply it to a
    line that starts and ends with a quote, a character of one byte. *)
Definition slice_1_m1 (s : string) : string :=
  String.substring 1 (String.length s - 2) s.

(** [s.replace(/\\ /g, ' ')]: every backslash followed by a space
    becomes a space, scanning left to right. *)
Fixpoint unescape_spaces (s : string) : string :=
  match s with
  | EmptyString => EmptyString
  | String c rest =>
      match rest with
      | String c' rest' =>
          if Ascii.eqb c "\" && Ascii.eqb c' " "
          then String " " (unescape_spaces rest')
          else String c (unescape_spaces rest)
      | EmptyString => String c EmptyString
      end
  end.

Definition is_digit (c : ascii) : bool :=
  let n := nat_of_ascii c in (48 <=? n)%nat && (n <=? 57)%nat.

(** [/^\d{4}-\d{2}-\d{2}$/.test(s)]. *)
Definition date_regex_test (s : string) : bool :=
  match list_ascii_of_string s with
  | [y1; y2; y3; y4; h1; m1; m2; h2; d1; d2] =>
      is_digit y1 && is_digit y2 && is_digit y3 && is_digit y4 &&
      Ascii.eqb h1 "-" && is_digit m1 && is_digit m2 &&
      Ascii.eqb h2 "-" && is_digit d1 && is_digit d2
  | _ => false
  end.

End Js.

(* ================================================================== *)
(** * Exceptions and state *)
(* ================================================================== *)

(** What a [throw] carries: an [Error] object with its message, or any
    other value (the handlers test [error instanceof Error]). *)
Inductive Thrown : Type :=
  | JsError (message : string)
  | JsNonError.

(** How a statement completes. *)
Inductive Completion (A : Type) : Type :=
  | Normal (a : A)
  | Throw (e : Thrown).
Arguments Normal {A} a.
Arguments Throw {A} e.

(** A computation over a mutable state [S] that may throw. The state
    reached when an exception escapes is kept: effects performed before
    the [throw] are not undone (only [transaction] undoes them). *)
Definition Eff (S A : Type) : Type := S -> Completion A * S.

#[export] Instance Eff_ret {S} : MRet (Eff S) :=
  fun A (a : A) s => (Normal a, s).

#[export] Instance Eff_bind {S} : MBind (Eff S) :=
  fun A B (k : A -> Eff S B) (m : Eff S A) s =>
    match m s with
    | (Normal a, s') => k a s'
    | (Throw e, s') => (Throw e, s')
    end.

Definition throw {S A} (e : Thrown) : Eff S A := fun s => (Throw e, s).

(** [try { body } catch (error) { handler }]. *)
Definition try_catch {S A} (body : Eff S A) (handler : Thrown -> Eff S A)
  : Eff S A :=
  fun s =>
    match body s with
    | (Normal a, s') => (Normal a, s')
    | (Throw e, s') => handler e s'
    end.

(** Runs a computation on a component of a larger state. *)
Definition zoom {S T A} (proj : T -> S) (upd : S -> T -> T) (m : Eff S A)
  : Eff T A :=
  fun t => match m (proj t) with (c, s') => (c, upd s' t) end.

(** [error instanceof Error ? error.message : fallback]. *)
Definition message_or (fallback : string) (error : Thrown) : string :=
  match error with
  | JsError m => m
  | JsNonError => fallback
  end.

(* ================================================================== *)
(** * Data model *)
(* ================================================================== *)

(** An item of [ExtractedReceiptData.items] (llmProcessor.ts). *)
Record ExtractedItem : Type := mkExtractedItem {
  x_item_name : string;
  x_quantity : float;
  x_unit_price : option float;
  x_total_price : float;
  x_category : option string;
}.

(** [ExtractedReceiptData] (llmProcessor.ts). *)
Record ExtractedReceiptData : Type := mkExtracted {
  merchant_name : string;
  receipt_date : string;
  total_amount : float;
  currency : string;
  items : list ExtractedItem;
  confidence : float;
}.

(** What [JSON.parse(content)] yields before the completeness test: the
    three tested fields may be missing or [null]. *)
Record ParsedReceipt : Type := mkParsed {
  p_merchant_name : option string;
  p_receipt_date : option string;
  p_total_amount : option float;
  p_currency : string;
  p_items : list ExtractedItem;
  p_confidence : float;
}.

(** [Receipt] (db/receipts.ts): the argument of [insertReceipt] and the
    row it returns; an absent field and SQL NULL are both [None]. *)
Record Receipt : Type := mkReceipt {
  r_id : option N;
  r_filename : string;
  r_merchant_name : option string;
  r_receipt_date : option string;
  r_total_amount : option float;
  r_currency : option string;
  r_raw_text : option string;
  r_processed_at : option string;
  r_processing_status : option string;
}.

(** [ReceiptItem] (db/receipts.ts): a row of [receipt_items]. *)
Record ReceiptItem : Type := mkReceiptItem {
  i_id : option N;
  i_receipt_id : option N;
  i_item_name : string;
  i_quantity : option float;
  i_unit_price : option float;
  i_total_price : float;
  i_category : option string;
}.

(** An [ExtractedItem] seen as [Omit<ReceiptItem, "id" | "receipt_id">]. *)
Definition item_of_extracted (x : ExtractedItem) : ReceiptItem :=
  {| i_id := None; i_receipt_id := None;
     i_item_name := x_item_name x;
     i_quantity := Some (x_quantity x);
     i_unit_price := x_unit_price x;
     i_total_price := x_total_price x;
     i_category := x_category x |}.

(** The database of db/index.ts: the two tables in insertion order and
    the AUTOINCREMENT counter of each (the largest id ever given). *)
Record Database : Type := mkDatabase {
  receipts : list Receipt;
  receipt_items : list ReceiptItem;
  seq_receipts : N;
  seq_receipt_items : N;
}.

(** A path of the filesystem names a regular file with its bytes, or a
    directory. *)
Inductive Node : Type :=
  | RegularFile (content : string)
  | Directory.

(** A path that a filesystem can hold: one without a NUL byte. *)
Definition valid_path (path : string) : bool :=
  negb (Js.includes path (String "000"%char EmptyString)).

(** The filesystem: the nodes by path. Nothing is found under a path
    that is not valid, whatever the map holds. *)
Record FileSystem : Type := mkFileSystem { nodes : gmap string Node }.

#[export] Instance FileSystem_lookup : Lookup string Node FileSystem :=
  fun path files => if valid_path path then nodes files !! path else None.

#[export] Instance FileSystem_insert : Insert string Node FileSystem :=
  fun path node files => {| nodes := <[path := node]> (nodes files) |}.

#[export] Instance FileSystem_delete : Delete string FileSystem :=
  fun path files => {| nodes := delete path (nodes files) |}.

#[export] Instance FileSystem_empty : Empty FileSystem := {| nodes := ∅ |}.

#[export] Instance FileSystem_singleton : SingletonM string Node FileSystem :=
  fun path node => {| nodes := {[ path := node ]} |}.

(** A chat-completion request sent to the language model. *)
Inductive LlmRequest : Type :=
  | TextCompletion (userText : string)
  | VisionCompletion (userText : string) (imageUrl : string).

(** Everything the pipeline reads or changes. *)
Record World : Type := mkWorld {
  fs : FileSystem;
  db : Database;
  llm_requests : list LlmRequest;
}.

Definition set_fs (f : FileSystem) (w : World) : World :=
  {| fs := f; db := db w; llm_requests := llm_requests w |}.
Definition set_db (d : Database) (w : World) : World :=
  {| fs := fs w; db := d; llm_requests := llm_requests w |}.
Definition log_request (q : LlmRequest) (w : World) : World :=
  {| fs := fs w; db := db w; llm_requests := llm_requests w ++ [q] |}.

(** A [langchain] document, as built by [loadPDFDocuments]. *)
Record Document : Type := mkDocument {
  pageContent : string;
  source : string;
  totalPages : N;
}.

(** [ProcessingResult] (receiptProcessor.ts). *)
Record ProcessingResult : Type := mkResult {
  success : bool;
  filename : string;
  receiptId : option N;
  message : string;
  usedVision : bool;
  textQuality : option float;
  extractedData : option ExtractedReceiptData;
  validationIssues : option (list string);
}.

(** The value of [validateReceiptData]. *)
Record Validation : Type := mkValidation {
  valid : bool;
  issues : list string;
}.

(* ================================================================== *)
(** * The runtime *)
(* ================================================================== *)

(** What the sources import from Bun, Node, the OpenAI client and the
    process environment. A field that can throw returns a [Completion]
    or an [option]. *)
Record Runtime : Type := mkRuntime {
  (** [homedir()] of "os". *)
  homedir : string;
  (** [join(a, b)], [basename(p)] and [dirname(p)] of "path". *)
  join : string -> string -> string;
  basename : string -> string;
  dirname : string -> string;
  (** [process.env["ENABLE_VISION_FALLBACK"]]. *)
  env_ENABLE_VISION_FALLBACK : option string;
  (** [x.toFixed(2)]. *)
  toFixed2 : float -> string;
  (** [Buffer.from(bytes).toString("base64")]. *)
  toBase64 : string -> string;
  (** [openai.chat.completions.create(...)] followed by
      [response.choices[0]?.message?.content]; the first argument counts
      the requests sent before this one. *)
  chat_completion : nat -> LlmRequest -> Completion (option string);
  (** [JSON.parse(content)]. *)
  JSON_parse : string -> Completion ParsedReceipt;
  (** [new URL(line).pathname]; [None] when the constructor throws. *)
  URL_pathname : string -> option string;
  (** [decodeURIComponent(s)]; [None] when it throws. *)
  decodeURIComponent : string -> option string;
  (** Whether [Bun.write] to a path fails for a reason outside the
      filesystem below (permissions, a full disk), and with what. *)
  write_failure : string -> option Thrown;
  (** What an I/O operation throws on a path that cannot serve it: a
      path with a NUL byte, a missing path or a directory that is read, a
      directory that is written over, a directory that cannot be made. *)
  io_error : string -> Thrown;
  (** The size the operating system reports for a directory. *)
  directory_size : nat;
  (** Whether the [rm] child process removes the path it is given. *)
  rm_succeeds : string -> bool;
  (** SQLite's [CURRENT_TIMESTAMP]. *)
  CURRENT_TIMESTAMP : string;
}.

Definition nl : string := String (ascii_of_nat 10) EmptyString.
Definition double_quote : string := String (ascii_of_nat 34) EmptyString.

(* ================================================================== *)
(** * utils/llmProcessor.ts: the validator *)
(* ================================================================== *)

(** [data.items.reduce((sum, item) => sum + item.total_price, 0)]. *)
Definition itemsSum (its : list ExtractedItem) : float :=
  fold_left (fun sum item => (sum + x_total_price item)%float) its 0%float.

(** The literal [0.05], that is, the binary64 value nearest to it. *)
Definition five_percent : float := 0x1.999999999999ap-5%float.

Definition tolerance_of (total : float) : float :=
  Js.Math_max (five_percent * total)%float 0.5%float.

Definition difference_of (its : list ExtractedItem) (total : float) : float :=
  Js.Math_abs (itemsSum its - total)%float.

Definition sum_issue (rt : Runtime) (sum total : float) : string :=
  "Items sum ($" +:+ toFixed2 rt sum +:+ ") doesn't match total ($"
    +:+ toFixed2 rt total +:+ ")".

Definition items_issue : string := "No items found in receipt".
Definition date_issue : string := "Invalid date format (expected YYYY-MM-DD)".

(** [issues.push(msg)] under [if (cond)]. *)
Definition push_if (cond : bool) (msg : string) (issues : list string)
  : list string :=
  if cond then issues ++ [msg] else issues.

Definition validateReceiptData (rt : Runtime) (data : ExtractedReceiptData)
  : Validation :=
  let issues0 : list string := [] in
  let sum := itemsSum (items data) in
  let tolerance := tolerance_of (total_amount data) in
  let difference := difference_of (items data) (total_amount data) in
  let issues1 :=
    push_if (PrimFloat.ltb tolerance difference)
            (sum_issue rt sum (total_amount data)) issues0 in
  let issues2 :=
    push_if (length (items data) =? 0)%nat items_issue issues1 in
  let issues3 :=
    push_if (negb (Js.date_regex_test (receipt_date data))) date_issue issues2 in
  {| valid := (length issues3 =? 0)%nat; issues := issues3 |}.

(* ================================================================== *)
(** * Bun's file API over the filesystem *)
(* ================================================================== *)

(** What [exists()] of a [BunFile] answers: a regular file is at [path].
    It is false of a directory, as of a path that names nothing. *)
Definition path_exists (w : World) (path : string) : bool :=
  match fs w !! path with
  | Some (RegularFile _) => true
  | Some Directory => false
  | None => false
  end.

(** [await Bun.file(path).exists()]. A path with a NUL byte is refused
    with an exception. *)
Definition Bun_file_exists (rt : Runtime) (path : string) : Eff World bool :=
  fun w =>
    if valid_path path then (Normal (path_exists w path), w)
    else (Throw (io_error rt path), w).

(** [Bun.file(path).size]: a number in every case, 0 for a path that
    names nothing. *)
Definition Bun_file_size (rt : Runtime) (path : string) : Eff World nat :=
  fun w =>
    (Normal (match fs w !! path with
             | Some (RegularFile c) => String.length c
             | Some Directory => directory_size rt
             | None => 0%nat
             end), w).

(** [size === undefined] for [size : number]: it never holds. *)
Definition is_undefined (size : nat) : bool := false.

(** [await Bun.file(path).arrayBuffer()]. *)
Definition Bun_file_bytes (rt : Runtime) (path : string) : Eff World string :=
  fun w =>
    match fs w !! path with
    | Some (RegularFile c) => (Normal c, w)
    | _ => (Throw (io_error rt path), w)
    end.

(** The directories above [path], the nearest first: [dirname] again and
    again until it yields its own argument (the root, or the current
    directory). A directory above [path] is not [path] itself. *)
Fixpoint parents (rt : Runtime) (fuel : nat) (path : string) : list string :=
  match fuel with
  | O => []
  | S n =>
      let dir := dirname rt path in
      if String.eqb dir path then [] else dir :: parents rt n dir
  end.

Definition ancestors (rt : Runtime) (path : string) : list string :=
  List.filter (fun dir => negb (String.eqb dir path))
              (parents rt (String.length path) path).

(** A directory of [dirs] cannot be made or entered: its path is not
    valid, or a regular file is there. *)
Definition blocked (dirs : list string) (files : FileSystem) : bool :=
  existsb (fun dir =>
             negb (valid_path dir)
             || match files !! dir with
                | Some (RegularFile _) => true
                | _ => false
                end) dirs.

(** [mkdir -p]: those of [dirs] that are missing are made. *)
Definition make_directories (dirs : list string) (files : FileSystem)
  : FileSystem :=
  fold_right (fun dir made =>
                match made !! dir with
                | None => <[dir := Directory]> made
                | Some _ => made
                end) files dirs.

(** [await Bun.write(path, content)] with a string: the file is created
    or overwritten, and the directories above it that are missing are
    made first. A write that fails leaves the filesystem as it was. *)
Definition Bun_write (rt : Runtime) (path content : string) : Eff World unit :=
  fun w =>
    if negb (valid_path path) then (Throw (io_error rt path), w)
    else
      match write_failure rt path with
      | Some e => (Throw e, w)
      | None =>
          match fs w !! path with
          | Some Directory => (Throw (io_error rt path), w)
          | _ =>
              if blocked (ancestors rt path) (fs w)
              then (Throw (io_error rt path), w)
              else
                let made := make_directories (ancestors rt path) (fs w) in
                (Normal tt, set_fs (<[path := RegularFile content]> made) w)
          end
      end.

(** [await Bun.write(dest, Bun.file(src))]: the bytes of [src] are read
    when the write runs. *)
Definition Bun_write_file (rt : Runtime) (dest src : string) : Eff World unit :=
  content ← Bun_file_bytes rt src;
  Bun_write rt dest content.

(** [await Bun.spawn(["rm", path]).exited]: the exit code; a failing [rm]
    does not throw. *)
Definition spawn_rm (rt : Runtime) (path : string) : Eff World N :=
  fun w =>
    match fs w !! path with
    | Some (RegularFile _) =>
        if rm_succeeds rt path
        then (Normal 0%N, set_fs (delete path (fs w)) w)
        else (Normal 1%N, w)
    | _ => (Normal 1%N, w)
    end.

(* ================================================================== *)
(** * utils/fileParser.ts *)
(* ================================================================== *)

(** The [try] block of the [file://] case: the decoded path, or [None]
    when [new URL] or [decodeURIComponent] throws. *)
Definition file_url_path (rt : Runtime) (line : string) : option string :=
  match URL_pathname rt line with
  | Some pathname => decodeURIComponent rt pathname
  | None => None
  end.

(** One iteration of the first loop of [parseFilePaths]: the path pushed
    for a line. *)
Definition candidate (rt : Runtime) (line : string) : string :=
  match (if Js.startsWith line "file://" then file_url_path rt line else None) with
  | Some decodedPath => decodedPath
  | None =>
      if (Js.startsWith line double_quote && Js.endsWith line double_quote)
         || (Js.startsWith line "'" && Js.endsWith line "'")
      then Js.slice_1_m1 line
      else if Js.includes line "\ " then Js.unescape_spaces line
      else if Js.includes line " " && negb (Js.startsWith line "/")
      then line
      else line
  end.

(** [trimmed.split('\n').map(line => line.trim()).filter(line => line.length > 0)]. *)
Definition lines_of (trimmed : string) : list string :=
  List.filter (fun line => (0 <? String.length line)%nat)
              (List.map Js.trim (Js.split (ascii_of_nat 10) trimmed)).

(** The second loop: keeps, in order, the paths that exist. *)
Fixpoint keep_existing (rt : Runtime) (paths : list string)
  (existingPaths : list string) : Eff World (list string) :=
  match paths with
  | [] => mret existingPaths
  | path :: rest =>
      e ← Bun_file_exists rt path;
      keep_existing rt rest
        (if e : bool then existingPaths ++ [path] else existingPaths)
  end.

Definition parseFilePaths (rt : Runtime) (pastedText : string)
  : Eff World (list string) :=
  let trimmed := Js.trim pastedText in
  if negb (Js.truthy_string trimmed) then mret []
  else
    let lines := lines_of trimmed in
    let paths := List.map (candidate rt) lines in
    keep_existing rt paths [].

Definition looksLikeFilePath (text : string) : bool :=
  let trimmed := Js.trim text in
  if Js.startsWith trimmed "file://" then true
  else if Js.startsWith trimmed "/" then true
  else if Js.startsWith trimmed "./" || Js.startsWith trimmed "../" then true
  else false.

(* ================================================================== *)
(** * utils/receipts.ts *)
(* ================================================================== *)

Definition RECEIPTS_DIR (rt : Runtime) : string := join rt (homedir rt) "receipts".

Definition getReceiptsDir (rt : Runtime) : string := RECEIPTS_DIR rt.

(** The [catch] of [moveFileToReceipts]. *)
Definition rethrow_move {A} (error : Thrown) : Eff World A :=
  match error with
  | JsError m => throw (JsError ("Failed to move file: " +:+ m))
  | JsNonError => throw error
  end.

Definition moveFileToReceipts (rt : Runtime) (sourcePath : string)
  : Eff World string :=
  sourceExists ← Bun_file_exists rt sourcePath;
  if negb sourceExists
  then throw (JsError ("Source file does not exist: " +:+ sourcePath))
  else
    size ← Bun_file_size rt sourcePath;
    if is_undefined size
    then throw (JsError ("Source is not a file: " +:+ sourcePath))
    else
      let filename := basename rt sourcePath in
      let destPath := join rt (RECEIPTS_DIR rt) filename in
      destExists ← Bun_file_exists rt destPath;
      if destExists : bool
      then throw (JsError ("File already exists in receipts: " +:+ filename))
      else
        try_catch
          (Bun_write_file rt destPath sourcePath;;
           Bun_write rt sourcePath EmptyString;;
           spawn_rm rt sourcePath;;
           mret filename)
          rethrow_move.

(* ================================================================== *)
(** * utils/pdfProcessor.ts *)
(* ================================================================== *)

Definition loadPDFDocuments (rt : Runtime) (pdfPath : string)
  : Eff World (list Document) :=
  e ← Bun_file_exists rt pdfPath;
  if negb e
  then throw (JsError ("PDF file not found: " +:+ pdfPath))
  else
    let doc := {| pageContent := "[PDF content - will be extracted via vision]";
                  source := pdfPath;
                  totalPages := 1%N |} in
    mret [doc].

Definition convertPDFToBase64 (rt : Runtime) (pdfPath : string)
  : Eff World string :=
  buffer ← Bun_file_bytes rt pdfPath;
  mret (toBase64 rt buffer).

(* ================================================================== *)
(** * utils/llmProcessor.ts: the two extraction requests *)
(* ================================================================== *)

(** Sends one request: it is recorded in the world, then the service
    answers with the content of its first choice, or the client throws. *)
Definition chat (rt : Runtime) (q : LlmRequest) : Eff World (option string) :=
  fun w => (chat_completion rt (length (llm_requests w)) q, log_request q w).

(** [JSON.parse(content)]. *)
Definition parse_json (rt : Runtime) (content : string) : Eff World ParsedReceipt :=
  fun w => (JSON_parse rt content, w).

(** The completeness test
    [!data.merchant_name || !data.receipt_date || data.total_amount == null]
    and, when it passes, the parsed object at its declared type. *)
Definition complete (data : ParsedReceipt) : option ExtractedReceiptData :=
  match p_merchant_name data, p_receipt_date data, p_total_amount data with
  | Some m, Some d, Some t =>
      if negb (Js.truthy_string m) || negb (Js.truthy_string d) then None
      else Some {| merchant_name := m; receipt_date := d; total_amount := t;
                   currency := p_currency data; items := p_items data;
                   confidence := p_confidence data |}
  | _, _, _ => None
  end.

(** What both extraction functions do between sending the request and
    returning; [none] and [incomplete] are the two messages they throw. *)
Definition read_response (rt : Runtime) (none incomplete : string)
  (content : option string) : Eff World ExtractedReceiptData :=
  match content with
  | Some c =>
      if Js.truthy_string c then
        data ← parse_json rt c;
        match complete data with
        | Some d => mret d
        | None => throw (JsError incomplete)
        end
      else throw (JsError none)
  | None => throw (JsError none)
  end.

Definition extractReceiptData (rt : Runtime) (text : string)
  : Eff World ExtractedReceiptData :=
  try_catch
    (content ← chat rt (TextCompletion ("Extract receipt data from:" +:+ nl +:+ nl +:+ text));
     read_response rt "No response from OpenAI"
                   "Incomplete receipt data extracted" content)
    (fun error =>
       throw (JsError ("Failed to extract receipt data: "
                         +:+ message_or "Unknown error" error))).

Definition vision_prompt (fallbackText : option string) : string :=
  Js.string_or
    (fun t => "Analyze this receipt image. Here's some extracted text for context (may be incomplete):"
                +:+ nl +:+ nl +:+ t +:+ nl +:+ nl
                +:+ "Please correct any errors and extract complete receipt data from the image.")
    fallbackText
    "Analyze this receipt image and extract all receipt data.".

Definition extractReceiptDataWithVision (rt : Runtime) (pdfBase64 : string)
  (fallbackText : option string) : Eff World ExtractedReceiptData :=
  try_catch
    (content ← chat rt (VisionCompletion (vision_prompt fallbackText)
                          ("data:application/pdf;base64," +:+ pdfBase64));
     read_response rt "No response from OpenAI Vision"
                   "Incomplete receipt data extracted from vision" content)
    (fun error =>
       throw (JsError ("Failed to extract receipt data with vision: "
                         +:+ message_or "Unknown error" error))).

(* ================================================================== *)
(** * db/index.ts, db/receipts.ts, db/items.ts *)
(* ================================================================== *)

(** [db.transaction(body)()]: the changes of a body that throws are
    rolled back and the exception goes on. A transaction inside a
    transaction is a savepoint, with the same outcome. *)
Definition transaction {A} (body : Eff Database A) : Eff Database A :=
  fun d =>
    match body d with
    | (Normal a, d') => (Normal a, d')
    | (Throw e, _) => (Throw e, d)
    end.

Definition same_filename (name : string) (r : Receipt) : bool :=
  String.eqb (r_filename r) name.

Definition largest_id (ids : list (option N)) : N :=
  fold_right N.max 0%N (List.map (default 0%N) ids).

(** The next AUTOINCREMENT id: one more than the largest id ever given. *)
Definition next_id (seq : N) (ids : list (option N)) : N :=
  N.succ (N.max seq (largest_id ids)).

(** The row of [receipts] made of the bound parameters [p]: [id] and
    [processed_at] get their defaults. *)
Definition receipt_row (rt : Runtime) (id : N) (p : Receipt) : Receipt :=
  {| r_id := Some id;
     r_filename := r_filename p;
     r_merchant_name := r_merchant_name p;
     r_receipt_date := r_receipt_date p;
     r_total_amount := r_total_amount p;
     r_currency := r_currency p;
     r_raw_text := r_raw_text p;
     r_processed_at := Some (CURRENT_TIMESTAMP rt);
     r_processing_status := r_processing_status p |}.

(** The row of [receipt_items] made of the bound parameters [p]. The
    numbers are kept as they were bound; SQLite hands a stored [-0] back
    as [0], which no comparison of the program tells apart. *)
Definition item_row (id : N) (p : ReceiptItem) : ReceiptItem :=
  {| i_id := Some id;
     i_receipt_id := i_receipt_id p;
     i_item_name := i_item_name p;
     i_quantity := i_quantity p;
     i_unit_price := i_unit_price p;
     i_total_price := i_total_price p;
     i_category := i_category p |}.

(** [SELECT * FROM receipts WHERE filename = $filename], first row. *)
Definition select_receipt_by_filename (name : string)
  : Eff Database (option Receipt) :=
  fun d => (Normal (List.find (same_filename name) (receipts d)), d).

(** [INSERT INTO receipts (...) VALUES (...) RETURNING *] with the bound
    parameters [p]: [filename] is UNIQUE. *)
Definition sql_insert_receipt (rt : Runtime) (p : Receipt)
  : Eff Database (option Receipt) :=
  fun d =>
    if existsb (same_filename (r_filename p)) (receipts d)
    then (Throw (JsError "UNIQUE constraint failed: receipts.filename"), d)
    else
      let id := next_id (seq_receipts d) (List.map r_id (receipts d)) in
      let row := receipt_row rt id p in
      (Normal (Some row),
       {| receipts := receipts d ++ [row];
          receipt_items := receipt_items d;
          seq_receipts := id;
          seq_receipt_items := seq_receipt_items d |}).

(** [INSERT INTO receipt_items (...) VALUES (...) RETURNING *] with the
    bound parameters [p]: [total_price] is NOT NULL and SQLite stores a
    NaN as NULL; [receipt_id] references [receipts(id)] with foreign keys
    enforced. *)
Definition sql_insert_item (p : ReceiptItem) : Eff Database (option ReceiptItem) :=
  fun d =>
    if PrimFloat.is_nan (i_total_price p)
    then (Throw (JsError "NOT NULL constraint failed: receipt_items.total_price"), d)
    else if negb (existsb (fun r => bool_decide (r_id r = i_receipt_id p)) (receipts d))
    then (Throw (JsError "FOREIGN KEY constraint failed"), d)
    else
      let id := next_id (seq_receipt_items d) (List.map i_id (receipt_items d)) in
      let row := item_row id p in
      (Normal (Some row),
       {| receipts := receipts d;
          receipt_items := receipt_items d ++ [row];
          seq_receipts := seq_receipts d;
          seq_receipt_items := id |}).

(** The parameters [insertReceipt] binds. *)
Definition receipt_params (receipt : Receipt) : Receipt :=
  {| r_id := None;
     r_filename := r_filename receipt;
     r_merchant_name := Js.string_or Some (r_merchant_name receipt) None;
     r_receipt_date := Js.string_or Some (r_receipt_date receipt) None;
     r_total_amount := Js.number_or Some (r_total_amount receipt) None;
     r_currency := Some (Js.string_or id (r_currency receipt) "USD");
     r_raw_text := Js.string_or Some (r_raw_text receipt) None;
     r_processed_at := None;
     r_processing_status :=
       Some (Js.string_or id (r_processing_status receipt) "pending") |}.

Definition insertReceipt (rt : Runtime) (receipt : Receipt) : Eff Database Receipt :=
  result ← sql_insert_receipt rt (receipt_params receipt);
  match result with
  | None => throw (JsError "Failed to insert receipt")
  | Some row => mret row
  end.

Definition getReceiptByFilename (name : string) : Eff Database (option Receipt) :=
  select_receipt_by_filename name.

(** The parameters [insertReceiptItems] binds for one item. *)
Definition item_params (receiptId : N) (item : ReceiptItem) : ReceiptItem :=
  {| i_id := None;
     i_receipt_id := Some receiptId;
     i_item_name := i_item_name item;
     i_quantity := Some (Js.number_or id (i_quantity item) 1%float);
     i_unit_price := Js.number_or Some (i_unit_price item) None;
     i_total_price := i_total_price item;
     i_category := Js.string_or Some (i_category item) None |}.

(** The [for] loop of [insertReceiptItems]. *)
Fixpoint insert_items_loop (receiptId : N) (itemsToInsert : list ReceiptItem)
  (results : list ReceiptItem) : Eff Database (list ReceiptItem) :=
  match itemsToInsert with
  | [] => mret results
  | item :: rest =>
      result ← sql_insert_item (item_params receiptId item);
      insert_items_loop receiptId rest
        (match result with Some row => results ++ [row] | None => results end)
  end.

Definition insertReceiptItems (receiptId : N) (its : list ReceiptItem)
  : Eff Database (list ReceiptItem) :=
  transaction (insert_items_loop receiptId its []).

(* ================================================================== *)
(** * utils/receiptProcessor.ts *)
(* ================================================================== *)

Definition QUALITY_THRESHOLD : float := 80%float.

(** [process.env["ENABLE_VISION_FALLBACK"] !== "false"]. *)
Definition ENABLE_VISION_FALLBACK (rt : Runtime) : bool :=
  match env_ENABLE_VISION_FALLBACK rt with
  | Some v => negb (String.eqb v "false")
  | None => true
  end.

Definition on_db {A} (m : Eff Database A) : Eff World A := zoom db set_db m.

(** [validation.valid ? "complete" : "needs_review"]. *)
Definition status_of (validation : Validation) : string :=
  if valid validation then "complete" else "needs_review".

(** The function given to [db.transaction] in step 4. *)
Definition insert_body (rt : Runtime) (name : string)
  (data : ExtractedReceiptData) (validation : Validation) : Eff Database N :=
  receipt ← insertReceipt rt
    {| r_id := None;
       r_filename := name;
       r_merchant_name := Some (merchant_name data);
       r_receipt_date := Some (receipt_date data);
       r_total_amount := Some (total_amount data);
       r_currency := Some (currency data);
       r_raw_text := Some EmptyString;
       r_processed_at := None;
       r_processing_status := Some (status_of validation) |};
  match r_id receipt with
  | Some rid =>
      if N.eqb rid 0 then throw (JsError "Failed to insert receipt")
      else
        (if (0 <? length (items data))%nat
         then insertReceiptItems rid (List.map item_of_extracted (items data));; mret tt
         else mret tt);;
        mret rid
  | None => throw (JsError "Failed to insert receipt")
  end.

(** The [try] block of [processReceipt]. *)
Definition processReceipt_try (rt : Runtime) (name : string)
  : Eff World ProcessingResult :=
  let receiptsDir := getReceiptsDir rt in
  let pdfPath := join rt receiptsDir name in
  existing ← on_db (getReceiptByFilename name);
  match existing with
  | Some found =>
      mret {| success := false;
              filename := name;
              receiptId := r_id found;
              message := "Receipt already processed";
              usedVision := false;
              textQuality := None; extractedData := None;
              validationIssues := None |}
  | None =>
      docs ← loadPDFDocuments rt pdfPath;
      if (length docs =? 0)%nat
      then throw (JsError "No content found in PDF")
      else
        pdfBase64 ← convertPDFToBase64 rt pdfPath;
        data ← extractReceiptDataWithVision rt pdfBase64 (Some EmptyString);
        let usedVision' := true in
        let validation := validateReceiptData rt data in
        rid ← on_db (transaction (insert_body rt name data validation));
        mret {| success := true;
                filename := name;
                receiptId := Some rid;
                message := if valid validation
                           then "Receipt processed successfully"
                           else "Receipt processed with validation issues";
                usedVision := usedVision';
                textQuality := None;
                extractedData := Some data;
                validationIssues := Some (issues validation) |}
  end.

(** The [catch] block of [processReceipt]. *)
Definition processReceipt_catch (name : string) (error : Thrown)
  : Eff World ProcessingResult :=
  mret {| success := false;
          filename := name;
          receiptId := None;
          message := message_or "Unknown processing error" error;
          usedVision := false;
          textQuality := None; extractedData := None;
          validationIssues := None |}.

Definition processReceipt (rt : Runtime) (name : string)
  : Eff World ProcessingResult :=
  try_catch (processReceipt_try rt name) (processReceipt_catch name).

(** The [for] loop of [processMultipleReceipts]. *)
Fixpoint process_loop (rt : Runtime) (filenames : list string)
  (results : list ProcessingResult) : Eff World (list ProcessingResult) :=
  match filenames with
  | [] => mret results
  | name :: rest =>
      result ← processReceipt rt name;
      process_loop rt rest (results ++ [result])
  end.

Definition processMultipleReceipts (rt : Runtime) (filenames : list string)
  : Eff World (list ProcessingResult) :=
  process_loop rt filenames [].

(** A run of the batch, one document after the other: each outcome is
    the one [processReceipt] returns in the world the previous documents
    left. *)
Inductive batch_run (rt : Runtime)
  : list string -> World -> list ProcessingResult -> World -> Prop :=
  | batch_nil w : batch_run rt [] w [] w
  | batch_cons name rest w result w1 results w2 :
      processReceipt rt name w = (Normal result, w1) ->
      batch_run rt rest w1 results w2 ->
      batch_run rt (name :: rest) w (result :: results) w2.

(* ================================================================== *)
(** * Observations on numbers and rows *)
(* ================================================================== *)

(** [x === 0] on numbers: holds of [0] and of [-0]. *)
Definition is_zero_number (x : float) : bool := PrimFloat.eqb x 0%float.

(** [x] is [undefined], [null], [0], [-0] or [NaN]. *)
Definition falsy_number (x : option float) : bool :=
  match x with Some v => negb (Js.truthy_number v) | None => true end.

(** [row.total_amount === 0]. *)
Definition total_amount_is_zero (row : Receipt) : bool :=
  match r_total_amount row with Some x => is_zero_number x | None => false end.

(** [row.quantity === 0]. *)
Definition quantity_is_zero (row : ReceiptItem) : bool :=
  match i_quantity row with Some q => is_zero_number q | None => false end.

(** There is a receipt with this id. *)
Definition receipt_exists (receiptId : N) (d : Database) : bool :=
  existsb (fun r => bool_decide (r_id r = Some receiptId)) (receipts d).

(** [Number.isNaN(item.total_price)]. *)
Definition price_is_nan (item : ReceiptItem) : bool :=
  PrimFloat.is_nan (i_total_price item).

(** Some extracted item has a NaN [total_price]. *)
Definition has_nan_price (its : list ExtractedItem) : bool :=
  existsb (fun x => PrimFloat.is_nan (x_total_price x)) its.

(** The one request [processReceipt] can send for a document whose
    base64 rendering is [pdfBase64]. *)
Definition vision_request (pdfBase64 : string) : LlmRequest :=
  VisionCompletion (vision_prompt (Some EmptyString))
                   ("data:application/pdf;base64," +:+ pdfBase64).

(** The outcome [processReceipt] returns for a document it stored. *)
Definition processed_result (name : string) (rid : N)
  (data : ExtractedReceiptData) (v : Validation) : ProcessingResult :=
  {| success := true; filename := name; receiptId := Some rid;
     message := if valid v then "Receipt processed successfully"
                else "Receipt processed with validation issues";
     usedVision := true; textQuality := None;
     extractedData := Some data;
     validationIssues := Some (issues v) |}.

(** The outcome [processReceipt] returns for a document that failed. *)
Definition failed_result (name : string) (error : Thrown) : ProcessingResult :=
  {| success := false; filename := name; receiptId := None;
     message := message_or "Unknown processing error" error;
     usedVision := false; textQuality := None; extractedData := None;
     validationIssues := None |}.

(** The outcome [processReceipt] returns for a document that already has
    the receipt [found]. *)
Definition already_processed (name : string) (found : Receipt) : ProcessingResult :=
  {| success := false; filename := name; receiptId := r_id found;
     message := "Receipt already processed"; usedVision := false;
     textQuality := None; extractedData := None; validationIssues := None |}.

(** The receipt [processReceipt] hands to [insertReceipt]. *)
Definition header_of (name : string) (data : ExtractedReceiptData)
  (v : Validation) : Receipt :=
  {| r_id := None;
     r_filename := name;
     r_merchant_name := Some (merchant_name data);
     r_receipt_date := Some (receipt_date data);
     r_total_amount := Some (total_amount data);
     r_currency := Some (currency data);
     r_raw_text := Some EmptyString;
     r_processed_at := None;
     r_processing_status := Some (status_of v) |}.

(** The same runtime with another value of ENABLE_VISION_FALLBACK in the
    environment. *)
Definition with_flag (flag : option string) (rt : Runtime) : Runtime :=
  {| homedir := homedir rt; join := join rt; basename := basename rt;
     dirname := dirname rt;
     env_ENABLE_VISION_FALLBACK := flag;
     toFixed2 := toFixed2 rt; toBase64 := toBase64 rt;
     chat_completion := chat_completion rt; JSON_parse := JSON_parse rt;
     URL_pathname := URL_pathname rt;
     decodeURIComponent := decodeURIComponent rt;
     write_failure := write_failure rt; io_error := io_error rt;
     directory_size := directory_size rt;
     rm_succeeds := rm_succeeds rt;
     CURRENT_TIMESTAMP := CURRENT_TIMESTAMP rt |}.

(** The text is made of white-space code points only. *)
Fixpoint all_white_space (s : string) : bool :=
  match s with
  | EmptyString => true
  | String a r1 =>
      if Js.white_space_1 a then all_white_space r1
      else match r1 with
           | EmptyString => false
           | String b r2 =>
               if Js.white_space_2 a b then all_white_space r2
               else match r2 with
                    | EmptyString => false
                    | String c r3 =>
                        Js.white_space_3 a b c && all_white_space r3
                    end
           end
  end.

(** The first path of the list that no filesystem can hold. *)
Definition first_invalid (paths : list string) : option string :=
  List.find (fun path => negb (valid_path path)) paths.

(** Where [moveFileToReceipts] puts [sourcePath]. *)
Definition destination (rt : Runtime) (sourcePath : string) : string :=
  join rt (RECEIPTS_DIR rt) (basename rt sourcePath).

(** [row] is what [insertReceiptItems] stores for [item] under the
    receipt [receiptId], with some id. *)
Definition stored_as (receiptId : N) (item row : ReceiptItem) : Prop :=
  exists n, row = item_row n (item_params receiptId item).

(* ================================================================== *)
(** * A sample runtime and sample worlds for the worked examples *)
(* ================================================================== *)

Module Sample.

(** The part of a path after its last slash. *)
Fixpoint last_component (p : string) : string :=
  match p with
  | EmptyString => EmptyString
  | String c rest =>
      if Js.includes rest "/" then last_component rest
      else if Ascii.eqb c "/" then rest else p
  end.

(** The part of a path before its last slash. *)
Fixpoint before_last_slash (p : string) : string :=
  match p with
  | EmptyString => EmptyString
  | String c rest =>
      if Js.includes rest "/" then String c (before_last_slash rest)
      else EmptyString
  end.

(** The directory of a path: the root for a name under the root, the
    current directory for a bare name. *)
Definition directory_of (p : string) : string :=
  match before_last_slash p with
  | EmptyString => if Js.startsWith p "/" then "/" else "."
  | dir => dir
  end.

(** A runtime on a POSIX machine whose home is [/home/u]: [flag] is the
    value of ENABLE_VISION_FALLBACK, [reply] what the language model
    answers, [parsed] what [JSON.parse] makes of it, [readonly] the paths
    that cannot be written and [rm_ok] whether [rm] works. Numbers are
    not formatted. *)
Definition runtime (flag : option string) (reply : Completion (option string))
  (parsed : Completion ParsedReceipt) (readonly : string -> bool)
  (rm_ok : bool) : Runtime :=
  {| homedir := "/home/u";
     join := fun a b => a +:+ "/" +:+ b;
     basename := last_component;
     dirname := directory_of;
     env_ENABLE_VISION_FALLBACK := flag;
     toFixed2 := fun _ => "#.##";
     toBase64 := fun bytes => bytes;
     chat_completion := fun _ _ => reply;
     JSON_parse := fun _ => parsed;
     URL_pathname := fun line => Some (String.substring 7 (String.length line - 7) line);
     decodeURIComponent := Some;
     write_failure := fun p =>
       if readonly p then Some (JsError "EACCES: permission denied") else None;
     io_error := fun _ => JsError "EIO: i/o error";
     directory_size := 4096;
     rm_succeeds := fun _ => rm_ok;
     CURRENT_TIMESTAMP := "2024-01-12 09:30:00" |}.

Definition coffee (price : float) : ExtractedItem :=
  {| x_item_name := "Coffee"; x_quantity := 1%float; x_unit_price := None;
     x_total_price := price; x_category := None |}.

(** The reading of a receipt of 10.00 at Cafe X with one line. *)
Definition cafe (price : float) : ParsedReceipt :=
  {| p_merchant_name := Some "Cafe X";
     p_receipt_date := Some "2024-01-12";
     p_total_amount := Some 10%float;
     p_currency := "USD";
     p_items := [coffee price];
     p_confidence := 90%float |}.

Definition cafe_data (price : float) : ExtractedReceiptData :=
  {| merchant_name := "Cafe X"; receipt_date := "2024-01-12";
     total_amount := 10%float; currency := "USD";
     items := [coffee price]; confidence := 90%float |}.

(** A runtime in which extraction succeeds and reads [cafe price]. *)
Definition reading (flag : option string) (price : float) : Runtime :=
  runtime flag (Normal (Some "{...}")) (Normal (cafe price)) (fun _ => false) true.

(** A runtime whose language model is unreachable. *)
Definition offline : Runtime :=
  runtime None (Throw (JsError "Connection error.")) (Throw JsNonError)
          (fun _ => false) true.

Definition empty_db : Database :=
  {| receipts := []; receipt_items := [];
     seq_receipts := 0; seq_receipt_items := 0 |}.

(** The directories of the machine: the store is there, and empty. *)
Definition machine : FileSystem :=
  {[ "/" := Directory; "/home" := Directory; "/home/u" := Directory;
     "/home/u/receipts" := Directory; "/tmp" := Directory ]}.

(** The store holds [a.pdf]; nothing is processed yet. *)
Definition fresh : World :=
  {| fs := <[ "/home/u/receipts/a.pdf" := RegularFile "%PDF-1.4" ]> machine;
     db := empty_db;
     llm_requests := [] |}.

Definition row_a : Receipt :=
  {| r_id := Some 1%N; r_filename := "a.pdf";
     r_merchant_name := Some "Cafe X"; r_receipt_date := Some "2024-01-12";
     r_total_amount := Some 10%float; r_currency := Some "USD";
     r_raw_text := None; r_processed_at := Some "2024-01-12 09:30:00";
     r_processing_status := Some "complete" |}.

(** The store holds [a.pdf], already processed. *)
Definition processed : World :=
  {| fs := <[ "/home/u/receipts/a.pdf" := RegularFile "%PDF-1.4" ]> machine;
     db := {| receipts := [row_a]; receipt_items := [];
              seq_receipts := 1; seq_receipt_items := 0 |};
     llm_requests := [] |}.

(** A download folder next to an empty store and to a store that
    already holds [a.pdf]. *)
Definition downloads : World :=
  {| fs := <[ "/tmp/a.pdf" := RegularFile "%PDF-1.4" ]>
             (<[ "/tmp/dir" := Directory ]> machine);
     db := empty_db; llm_requests := [] |}.

Definition downloads_taken : World :=
  {| fs := <[ "/tmp/a.pdf" := RegularFile "%PDF-1.4" ]>
             (<[ "/home/u/receipts/a.pdf" := RegularFile "older" ]> machine);
     db := empty_db; llm_requests := [] |}.

Definition is_source (p : string) : bool := String.eqb p "/tmp/a.pdf".

(** A runtime in which [/tmp/a.pdf] can be read but not written. *)
Definition readonly_source : Runtime :=
  runtime None (Throw JsNonError) (Throw JsNonError) is_source true.

(** A runtime in which [rm] fails. *)
Definition broken_rm : Runtime :=
  runtime None (Throw JsNonError) (Throw JsNonError) (fun _ => false) false.

(** A receipt of nothing, and two items without a usable quantity. *)
Definition free_receipt : Receipt :=
  {| r_id := None; r_filename := "free.pdf"; r_merchant_name := None;
     r_receipt_date := None; r_total_amount := Some 0%float;
     r_currency := Some EmptyString; r_raw_text := None;
     r_processed_at := None; r_processing_status := None |}.

Definition gift : ReceiptItem :=
  {| i_id := None; i_receipt_id := None; i_item_name := "Gift";
     i_quantity := Some 0%float; i_unit_price := Some 0%float;
     i_total_price := 0%float; i_category := None |}.

(** U+00A0, U+3000, U+FEFF and U+00E9 in UTF-8. *)
Definition no_break_space : string :=
  String "194"%char (String "160"%char EmptyString).
Definition ideographic_space : string :=
  String "227"%char (String "128"%char (String "128"%char EmptyString)).
Definition byte_order_mark : string :=
  String "239"%char (String "187"%char (String "191"%char EmptyString)).
Definition e_acute : string :=
  String "195"%char (String "169"%char EmptyString).

(** A path with a NUL byte in it. *)
Definition nul_path : string :=
  "/tmp/a" +:+ String "000"%char ".pdf".

(** Four lines pasted into the terminal: a padded path, a quoted path,
    a path that does not exist and a file URL. *)
Definition pasted : string :=
  "  /tmp/a.pdf" +:+ nl +:+ "'/tmp/a.pdf'" +:+ nl +:+ "/nope" +:+ nl
    +:+ "file:///tmp/a.pdf" +:+ nl.

End Sample.

(* ================================================================== *)
(** * db/receipts.ts and db/items.ts: reading, updating, deleting *)
(* ================================================================== *)

(** [ReceiptWithItems]: a receipt spread together with its items. *)
Record ReceiptWithItems : Type := mkReceiptWithItems {
  rw_receipt : Receipt;
  rw_items : list ReceiptItem;
}.

(** The value of [stmt.run(...)]: the number of rows the statement
    changed itself (rows removed by a cascade are not counted). *)
Record RunResult : Type := mkRunResult { changes : nat }.

Definition receipt_has_id (id : N) (r : Receipt) : bool :=
  bool_decide (r_id r = Some id).

Definition item_of_receipt (receiptId : N) (i : ReceiptItem) : bool :=
  bool_decide (i_receipt_id i = Some receiptId).

Definition item_key (i : ReceiptItem) : N := default 0%N (i_id i).

Definition receipt_key (r : Receipt) : N := default 0%N (r_id r).

(** [ORDER BY id] on items: insertion of one row into rows in id order. *)
Fixpoint insert_by_id (x : ReceiptItem) (sorted : list ReceiptItem)
  : list ReceiptItem :=
  match sorted with
  | [] => [x]
  | y :: rest =>
      if (item_key x <? item_key y)%N then x :: y :: rest
      else y :: insert_by_id x rest
  end.

Definition order_by_id (rows : list ReceiptItem) : list ReceiptItem :=
  fold_right insert_by_id [] rows.

(** [SELECT * FROM receipt_items WHERE receipt_id = $receipt_id], in the
    order of the table. *)
Definition select_items (receiptId : N) (d : Database) : list ReceiptItem :=
  List.filter (item_of_receipt receiptId) (receipt_items d).

Definition getReceiptWithItems (id : N) : Eff Database (option ReceiptWithItems) :=
  fun d =>
    match List.find (receipt_has_id id) (receipts d) with
    | None => (Normal None, d)
    | Some receipt =>
        let its := select_items id d in
        (Normal (Some {| rw_receipt := receipt; rw_items := its |}), d)
    end.

(** [... WHERE receipt_id = $receipt_id ORDER BY id]. *)
Definition getReceiptItems (receiptId : N) : Eff Database (list ReceiptItem) :=
  fun d => (Normal (order_by_id (select_items receiptId d)), d).

Definition set_status (status : string) (r : Receipt) : Receipt :=
  {| r_id := r_id r; r_filename := r_filename r;
     r_merchant_name := r_merchant_name r;
     r_receipt_date := r_receipt_date r;
     r_total_amount := r_total_amount r;
     r_currency := r_currency r; r_raw_text := r_raw_text r;
     r_processed_at := r_processed_at r;
     r_processing_status := Some status |}.

(** [UPDATE receipts SET processing_status = $status WHERE id = $id]. *)
Definition updateReceiptStatus (id : N) (status : string) : Eff Database RunResult :=
  fun d =>
    (Normal {| changes := length (List.filter (receipt_has_id id) (receipts d)) |},
     {| receipts := List.map (fun r => if receipt_has_id id r
                                       then set_status status r else r)
                             (receipts d);
        receipt_items := receipt_items d;
        seq_receipts := seq_receipts d;
        seq_receipt_items := seq_receipt_items d |}).

(** [DELETE FROM receipts WHERE id = $id]; the items of a deleted receipt
    go with it (ON DELETE CASCADE, foreign keys being enforced). The
    AUTOINCREMENT counters stay. *)
Definition deleteReceipt (id : N) : Eff Database RunResult :=
  fun d =>
    let gone := List.filter (receipt_has_id id) (receipts d) in
    (Normal {| changes := length gone |},
     {| receipts := List.filter (fun r => negb (receipt_has_id id r)) (receipts d);
        receipt_items :=
          match gone with
          | [] => receipt_items d
          | _ :: _ =>
              List.filter (fun i => negb (item_of_receipt id i)) (receipt_items d)
          end;
        seq_receipts := seq_receipts d;
        seq_receipt_items := seq_receipt_items d |}).

(** [DELETE FROM receipt_items WHERE receipt_id = $receipt_id]. *)
Definition deleteReceiptItems (receiptId : N) : Eff Database RunResult :=
  fun d =>
    (Normal {| changes := length (select_items receiptId d) |},
     {| receipts := receipts d;
        receipt_items :=
          List.filter (fun i => negb (item_of_receipt receiptId i)) (receipt_items d);
        seq_receipts := seq_receipts d;
        seq_receipt_items := seq_receipt_items d |}).

(** What the schema of db/index.ts guarantees of a database, and the
    order the tables are kept in: filenames are unique; the rows of each
    table stand in increasing id order, with ids from 1 up to the
    AUTOINCREMENT counter; every item belongs to a receipt. *)
Record db_wf (d : Database) : Prop := mk_db_wf {
  wf_filenames : NoDup (List.map r_filename (receipts d));
  wf_receipt_order : StronglySorted N.lt (List.map receipt_key (receipts d));
  wf_receipt_ids :
    Forall (fun r => exists n, r_id r = Some n /\ (0 < n <= seq_receipts d)%N)
           (receipts d);
  wf_item_order : StronglySorted N.lt (List.map item_key (receipt_items d));
  wf_item_ids :
    Forall (fun i => exists n, i_id i = Some n /\ (0 < n <= seq_receipt_items d)%N)
           (receipt_items d);
  wf_foreign_keys :
    Forall (fun i => exists n, i_receipt_id i = Some n /\ receipt_exists n d = true)
           (receipt_items d);
}.

(** Any of the five writes of the persistence layer. *)
Inductive DbWrite : Type :=
  | WInsertReceipt (receipt : Receipt)
  | WInsertItems (receiptId : N) (its : list ReceiptItem)
  | WUpdateStatus (id : N) (status : string)
  | WDeleteReceipt (id : N)
  | WDeleteItems (receiptId : N).

(** The database a write leaves, whether it returns or throws. *)
Definition run_write (rt : Runtime) (op : DbWrite) (d : Database) : Database :=
  match op with
  | WInsertReceipt receipt => snd (insertReceipt rt receipt d)
  | WInsertItems receiptId its => snd (insertReceiptItems receiptId its d)
  | WUpdateStatus id status => snd (updateReceiptStatus id status d)
  | WDeleteReceipt id => snd (deleteReceipt id d)
  | WDeleteItems receiptId => snd (deleteReceiptItems receiptId d)
  end.

(* ================================================================== *)
(** * utils/receiptProcessor.ts: getUnprocessedReceipts *)
(* ================================================================== *)

(** The callback of the filter: [!existing || existing.processing_status
    === "error"]. *)
Definition is_unprocessed (name : string) : Eff Database bool :=
  existing ← getReceiptByFilename name;
  mret (match existing with
        | None => true
        | Some found => bool_decide (r_processing_status found = Some "error")
        end).

(** [allPdfs.filter(callback)]. *)
Fixpoint filter_unprocessed (allPdfs : list string) : Eff Database (list string) :=
  match allPdfs with
  | [] => mret []
  | name :: rest =>
      keep ← is_unprocessed name;
      kept ← filter_unprocessed rest;
      mret (if keep : bool then name :: kept else kept)
  end.

(** [getUnprocessedReceipts]; [scan] is
    [Array.fromAsync(new Bun.Glob("*.pdf").scan(dir))], which reads the
    filesystem only and throws when it cannot read the directory (when
    there is none, for one). No [try] is around it. *)
Definition getUnprocessedReceipts
  (scan : FileSystem -> string -> Completion (list string))
  (rt : Runtime) : Eff World (list string) :=
  let receiptsDir := getReceiptsDir rt in
  allPdfs ← (fun w => (scan (fs w) receiptsDir, w));
  on_db (filter_unprocessed allPdfs).

(** The outcomes of a batch that stored a receipt. *)
Definition successes (results : list ProcessingResult) : list ProcessingResult :=
  List.filter success results.

(** [name] has no receipt in [d], or one whose status is "error": what
    the callback of [getUnprocessedReceipts] answers. *)
Definition listed_unprocessed (d : Database) (name : string) : bool :=
  match List.find (same_filename name) (receipts d) with
  | None => true
  | Some found => bool_decide (r_processing_status found = Some "error")
  end.

(** The status of the row is "complete" or "needs_review". *)
Definition settled (row : Receipt) : Prop :=
  r_processing_status row = Some "complete"
  \/ r_processing_status row = Some "needs_review".

(* ================================================================== *)
(** * Pasted lines, as the tests of fileParser build them *)
(* ================================================================== *)

(** [path.replace(/ /g, "\\ ")]: a backslash before every space. *)
Fixpoint escape_spaces (s : string) : string :=
  match s with
  | EmptyString => EmptyString
  | String c rest =>
      if Ascii.eqb c " " then String "\" (String " " (escape_spaces rest))
      else String c (escape_spaces rest)
  end.


(** An ASCII character that is not white space. *)
Definition visible_ascii (c : ascii) : bool :=
  (nat_of_ascii c <? 128)%nat && negb (Js.white_space_1 c).

(** [paths.join("\n")]. *)
Definition join_lines (paths : list string) : string := String.concat nl paths.

(** The text fits on one line and has no white space at either end. *)
Definition one_line (s : string) : bool :=
  negb (Js.includes s nl) && String.eqb (Js.trim s) s.

(** An absolute path on one line, written as it is: no escaped space. *)
Definition plain_path (p : string) : bool :=
  Js.startsWith p "/" && one_line p && negb (Js.includes p "\ ").

(** The single or the double quote. *)
Definition is_quote (q : ascii) : bool :=
  Ascii.eqb q "'" || Ascii.eqb q (ascii_of_nat 34).

(** [p] between two quotes [q]. *)
Definition quoted (q : ascii) (p : string) : string :=
  String q (p +:+ String q EmptyString).

(* ================================================================== *)
(** * utils/receipts.ts: ensureReceiptsDir *)
(* ================================================================== *)

(** The marker file of the store. *)
Definition keep_file (rt : Runtime) : string := join rt (RECEIPTS_DIR rt) ".keep".

(** The [catch] of [ensureReceiptsDir]. *)
Definition rethrow_ensure {A} (rt : Runtime) (error : Thrown) : Eff World A :=
  match error with
  | JsError m =>
      throw (JsError ("Failed to create " +:+ RECEIPTS_DIR rt +:+ ": " +:+ m))
  | JsNonError => throw error
  end.

Definition ensureReceiptsDir (rt : Runtime) : Eff World unit :=
  try_catch
    (present ← Bun_file_exists rt (RECEIPTS_DIR rt);
     if negb present
     then Bun_write rt (keep_file rt) EmptyString
     else mret tt)
    (rethrow_ensure rt).


(* ================================================================== *)
(** * A ledger to run the persistence layer on *)
(* ================================================================== *)

Module Ledger.

(** [b.pdf], whose processing was marked as failed. *)
Definition row_b : Receipt :=
  {| r_id := Some 2%N; r_filename := "b.pdf";
     r_merchant_name := None; r_receipt_date := None;
     r_total_amount := None; r_currency := Some "USD";
     r_raw_text := None; r_processed_at := Some "2024-01-13 10:00:00";
     r_processing_status := Some "error" |}.

Definition coffee_a : ReceiptItem :=
  {| i_id := Some 1%N; i_receipt_id := Some 1%N; i_item_name := "Coffee";
     i_quantity := Some 1%float; i_unit_price := None;
     i_total_price := 10%float; i_category := None |}.

Definition tea_b : ReceiptItem :=
  {| i_id := Some 2%N; i_receipt_id := Some 2%N; i_item_name := "Tea";
     i_quantity := Some 1%float; i_unit_price := None;
     i_total_price := 3%float; i_category := None |}.

(** Two receipts with one item each. *)
Definition books : Database :=
  {| receipts := [Sample.row_a; row_b];
     receipt_items := [coffee_a; tea_b];
     seq_receipts := 2; seq_receipt_items := 2 |}.

(** The store holds [a.pdf] and [b.pdf]; the ledger is [books]. *)
Definition shelf : World :=
  {| fs := <[ "/home/u/receipts/a.pdf" := RegularFile "%PDF-1.4" ]>
             (<[ "/home/u/receipts/b.pdf" := RegularFile "%PDF-1.4" ]>
                Sample.machine);
     db := books;
     llm_requests := [] |}.

(** A scan that looks for [a.pdf] and [b.pdf] in a directory, and fails
    where there is no directory. *)
Definition scan (files : FileSystem) (dir : string) : Completion (list string) :=
  match files !! dir with
  | Some Directory =>
      Normal (List.filter
                (fun name =>
                   match files !! (dir +:+ "/" +:+ name) with
                   | Some (RegularFile _) => true
                   | _ => false
                   end) ["a.pdf"; "b.pdf"])
  | _ => Throw (JsError ("ENOENT: no such file or directory, scandir " +:+ dir))
  end.

(** The reading of the same receipt by a different hand: another
    merchant, currency and item name. *)
Definition other_hand : ExtractedReceiptData :=
  {| merchant_name := "CAFE X LTD"; receipt_date := "2024-01-12";
     total_amount := 10%float; currency := "CAD";
     items := [{| x_item_name := "Espresso"; x_quantity := 2%float;
                  x_unit_price := Some 7%float; x_total_price := 2%float;
                  x_category := Some "drinks" |}];
     confidence := 10%float |}.

(** The store holds [a.pdf] and [b.pdf]; only the failure of [b.pdf] is
    on the books. *)
Definition pending : World :=
  {| fs := fs shelf;
     db := {| receipts := [row_b]; receipt_items := [];
              seq_receipts := 2; seq_receipt_items := 0 |};
     llm_requests := [] |}.

(** A machine on which the store has not been made yet, and the store
    with a marker file that holds something. *)
Definition bare : World :=
  {| fs := {[ "/" := Directory; "/home" := Directory; "/home/u" := Directory;
              "/tmp" := Directory ]};
     db := Sample.empty_db; llm_requests := [] |}.

Definition kept : World :=
  {| fs := <[ "/home/u/receipts/.keep" := RegularFile "data" ]> Sample.machine;
     db := Sample.empty_db; llm_requests := [] |}.


(** A download whose name has a space in it. *)
Definition desk : World :=
  {| fs := <[ "/tmp/my file.pdf" := RegularFile "%PDF-1.4" ]>
             (<[ "/tmp/a.pdf" := RegularFile "%PDF-1.4" ]> Sample.machine);
     db := Sample.empty_db; llm_requests := [] |}.

End Ledger.

(* ================================================================== *)
(** * Reasoning about [Eff] *)
(* ================================================================== *)

Lemma bind_normal {S A B} (m : Eff S A) (k : A -> Eff S B) s a s' :
  m s = (Normal a, s') -> (m ≫= k) s = k a s'.
Proof. intros H. unfold mbind, Eff_bind. now rewrite H. Qed.

Lemma try_catch_normal {S A} (body : Eff S A) h s a s' :
  body s = (Normal a, s') -> try_catch body h s = (Normal a, s').
Proof. intros H. unfold try_catch. now rewrite H. Qed.

Lemma transaction_rollback {A} (body : Eff Database A) d e d' :
  transaction body d = (Throw e, d') -> d' = d.
Proof.
  unfold transaction. destruct (body d) as [[a|e0] d0]; intros H; congruence.
Qed.

Lemma set_db_same w : set_db (db w) w = w.
Proof. now destruct w. Qed.

(* ================================================================== *)
(** * Reasoning about the filesystem *)
(* ================================================================== *)

Lemma fs_lookup_valid (files : FileSystem) path node :
  files !! path = Some node -> valid_path path = true.
Proof.
  unfold lookup, FileSystem_lookup. now destruct (valid_path path).
Qed.

Lemma fs_lookup_invalid (files : FileSystem) path :
  valid_path path = false -> files !! path = None.
Proof. unfold lookup, FileSystem_lookup. now intros ->. Qed.

Lemma fs_lookup_insert (files : FileSystem) path node :
  valid_path path = true -> <[path := node]> files !! path = Some node.
Proof.
  intros Hv. unfold lookup, FileSystem_lookup. rewrite Hv.
  apply lookup_insert_eq.
Qed.

Lemma fs_lookup_insert_ne (files : FileSystem) path other node :
  path <> other -> <[path := node]> files !! other = files !! other.
Proof.
  intros Hne. unfold lookup, FileSystem_lookup.
  destruct (valid_path other); [|reflexivity].
  now apply lookup_insert_ne.
Qed.

Lemma fs_lookup_delete (files : FileSystem) path :
  delete path files !! path = None.
Proof.
  unfold lookup, FileSystem_lookup.
  destruct (valid_path path); [|reflexivity]. apply lookup_delete_eq.
Qed.

Lemma fs_lookup_delete_ne (files : FileSystem) path other :
  path <> other -> delete path files !! other = files !! other.
Proof.
  intros Hne. unfold lookup, FileSystem_lookup.
  destruct (valid_path other); [|reflexivity].
  now apply lookup_delete_ne.
Qed.

Lemma fs_insert_insert (files : FileSystem) path a b :
  <[path := a]> (<[path := b]> files) = <[path := a]> files.
Proof.
  unfold insert, FileSystem_insert. simpl. f_equal. apply insert_insert_eq.
Qed.

Lemma fs_insert_id (files : FileSystem) path node :
  files !! path = Some node -> <[path := node]> files = files.
Proof.
  intros H. pose proof (fs_lookup_valid _ _ _ H) as Hv.
  unfold lookup, FileSystem_lookup in H. rewrite Hv in H.
  destruct files as [m]. unfold insert, FileSystem_insert. simpl in *.
  f_equal. now apply insert_id.
Qed.

(** [mkdir -p] changes no path that names something, and what it adds
    is a directory of the list. *)
Lemma make_directories_keeps dirs (files : FileSystem) path node :
  files !! path = Some node -> make_directories dirs files !! path = Some node.
Proof.
  intros H. induction dirs as [|dir dirs IH]; [exact H|]. simpl.
  destruct (make_directories dirs files !! dir) eqn:E; [exact IH|].
  rewrite fs_lookup_insert_ne; [exact IH|]. intros ->. congruence.
Qed.

Lemma make_directories_adds dirs (files : FileSystem) path :
  files !! path = None ->
  make_directories dirs files !! path = None
  \/ (make_directories dirs files !! path = Some Directory /\ path ∈ dirs).
Proof.
  intros H. induction dirs as [|dir dirs IH]; [now left|]. simpl.
  destruct (make_directories dirs files !! dir) eqn:E.
  - destruct IH as [IH|[IH Hin]]; [now left | right; split; [exact IH | now right]].
  - destruct (string_dec dir path) as [->|Hne].
    + destruct (valid_path path) eqn:Hv.
      * right. split; [now apply fs_lookup_insert | left].
      * left. now apply fs_lookup_invalid.
    + rewrite fs_lookup_insert_ne by exact Hne.
      destruct IH as [IH|[IH Hin]]; [now left | right; split; [exact IH | now right]].
Qed.

Lemma make_directories_outside dirs (files : FileSystem) path :
  path ∉ dirs -> make_directories dirs files !! path = files !! path.
Proof.
  intros Hout. destruct (files !! path) as [node|] eqn:E.
  - now apply make_directories_keeps.
  - destruct (make_directories_adds dirs files path E) as [H|[_ Hin]];
      [exact H | contradiction].
Qed.

(** Where every directory is there already, [mkdir -p] does nothing. *)
Lemma make_directories_present dirs (files : FileSystem) :
  Forall (fun dir => is_Some (files !! dir)) dirs ->
  make_directories dirs files = files.
Proof.
  induction 1 as [|dir dirs [node Hd] _ IH]; [reflexivity|]. simpl.
  now rewrite IH, Hd.
Qed.

Lemma blocked_false dirs (files : FileSystem) dir :
  blocked dirs files = false -> dir ∈ dirs ->
  valid_path dir = true
  /\ (files !! dir = None \/ files !! dir = Some Directory).
Proof.
  unfold blocked. intros Hb Hin. apply list_elem_of_In in Hin.
  destruct (negb (valid_path dir)
            || match files !! dir with
               | Some (RegularFile _) => true
               | _ => false
               end) eqn:E.
  - assert (Ht : existsb (fun d => negb (valid_path d)
                                  || match files !! d with
                                     | Some (RegularFile _) => true
                                     | _ => false
                                     end) dirs = true)
      by (apply existsb_exists; exists dir; now split).
    congruence.
  - apply orb_false_iff in E as [Hv Hf]. apply negb_false_iff in Hv.
    split; [exact Hv|]. destruct (files !! dir) as [[c|]|]; auto; discriminate.
Qed.

(** After [mkdir -p] that nothing blocked, every directory of the list
    is a directory. *)
Lemma make_directories_made dirs (files : FileSystem) dir :
  blocked dirs files = false -> dir ∈ dirs ->
  make_directories dirs files !! dir = Some Directory.
Proof.
  intros Hb Hin. destruct (blocked_false _ _ _ Hb Hin) as [Hv Hnode]. clear Hb.
  induction dirs as [|d dirs IH]; [inversion Hin|]. simpl.
  destruct (string_dec d dir) as [->|Hne].
  - destruct (make_directories dirs files !! dir) as [node|] eqn:E.
    + rewrite E. destruct Hnode as [Hn|Hn].
      * destruct (make_directories_adds dirs files dir Hn) as [H|[H _]]; congruence.
      * rewrite (make_directories_keeps dirs _ _ _ Hn) in E. congruence.
    + now apply fs_lookup_insert.
  - apply elem_of_cons in Hin as [Heq|Hin]; [congruence|].
    destruct (make_directories dirs files !! d) eqn:E; [now apply IH|].
    rewrite fs_lookup_insert_ne by exact Hne. now apply IH.
Qed.

(* ================================================================== *)
(** * The validator *)
(* ================================================================== *)







(* ================================================================== *)
(** * The persistence layer *)
(* ================================================================== *)

Lemma truthy_not_zero v : Js.truthy_number v = true -> is_zero_number v = false.
Proof.
  unfold Js.truthy_number, is_zero_number.
  destruct (PrimFloat.eqb v 0); simpl; congruence.
Qed.

Lemma zero_not_truthy v : is_zero_number v = true -> Js.truthy_number v = false.
Proof. unfold Js.truthy_number, is_zero_number. now intros ->. Qed.

(** What [insertReceipt] does, in one equation. *)
Lemma insertReceipt_run rt receipt d :
  insertReceipt rt receipt d =
    if existsb (same_filename (r_filename receipt)) (receipts d)
    then (Throw (JsError "UNIQUE constraint failed: receipts.filename"), d)
    else
      let id := next_id (seq_receipts d) (List.map r_id (receipts d)) in
      let row := receipt_row rt id (receipt_params receipt) in
      (Normal row,
       {| receipts := receipts d ++ [row];
          receipt_items := receipt_items d;
          seq_receipts := id;
          seq_receipt_items := seq_receipt_items d |}).
Proof.
  unfold insertReceipt, mbind, Eff_bind, sql_insert_receipt. simpl.
  destruct (existsb _ _); reflexivity.
Qed.

(** C9. [insertReceipt] coerces falsy fields before binding. When the
    filename is new the receipt is stored as one more row, and in that
    row: a total_amount of exactly 0 has become NULL, the stored
    total_amount is never the number 0 (a stored number is the one given),
    an absent or empty currency has become USD, an absent
    processing_status has become pending. When the filename is taken the
    insert throws and the database is untouched. *)
Theorem insertReceipt_coercions (rt : Runtime) (receipt : Receipt) (d : Database) :
  (existsb (same_filename (r_filename receipt)) (receipts d) = true
   /\ exists e, insertReceipt rt receipt d = (Throw e, d))
  \/
  (existsb (same_filename (r_filename receipt)) (receipts d) = false
   /\ exists row d',
        insertReceipt rt receipt d = (Normal row, d')
        /\ receipts d' = receipts d ++ [row]
        /\ receipt_items d' = receipt_items d
        /\ r_filename row = r_filename receipt
        /\ (forall x, r_total_amount receipt = Some x ->
                      is_zero_number x = true -> r_total_amount row = None)
        /\ total_amount_is_zero row = false
        /\ (forall x, r_total_amount row = Some x -> r_total_amount receipt = Some x)
        /\ (r_currency receipt = None \/ r_currency receipt = Some EmptyString ->
            r_currency row = Some "USD")
        /\ (r_processing_status receipt = None ->
            r_processing_status row = Some "pending")).
Proof.
  rewrite insertReceipt_run.
  destruct (existsb _ _); [left | right]; split; try reflexivity.
  - eexists; reflexivity.
  - eexists _, _. split; [reflexivity|]. simpl.
    repeat split.
    + intros x -> Hz. simpl. now rewrite (zero_not_truthy _ Hz).
    + unfold total_amount_is_zero. simpl.
      destruct (r_total_amount receipt) as [x|]; simpl; [|reflexivity].
      destruct (Js.truthy_number x) eqn:E; [|reflexivity].
      now apply truthy_not_zero.
    + intros x. destruct (r_total_amount receipt) as [y|]; simpl; [|discriminate].
      destruct (Js.truthy_number y); [congruence | discriminate].
    + intros [-> | ->]; reflexivity.
    + intros ->; reflexivity.
Qed.

Lemma sql_insert_item_run rid item d :
  sql_insert_item (item_params rid item) d =
    if price_is_nan item
    then (Throw (JsError "NOT NULL constraint failed: receipt_items.total_price"), d)
    else if negb (receipt_exists rid d)
    then (Throw (JsError "FOREIGN KEY constraint failed"), d)
    else
      let row := item_row (next_id (seq_receipt_items d)
                                   (List.map i_id (receipt_items d)))
                          (item_params rid item) in
      (Normal (Some row),
       {| receipts := receipts d;
          receipt_items := receipt_items d ++ [row];
          seq_receipts := seq_receipts d;
          seq_receipt_items := next_id (seq_receipt_items d)
                                       (List.map i_id (receipt_items d)) |}).
Proof. reflexivity. Qed.

Local Ltac step_item :=
  simpl insert_items_loop; unfold mbind, Eff_bind;
  rewrite sql_insert_item_run.

(** Whatever the loop returns normally is one stored row per item, in
    order, appended to the table; the receipts are not touched. *)
Lemma insert_items_loop_normal rid its :
  forall results d out d',
    insert_items_loop rid its results d = (Normal out, d') ->
    exists rows,
      out = results ++ rows
      /\ receipts d' = receipts d
      /\ seq_receipts d' = seq_receipts d
      /\ receipt_items d' = receipt_items d ++ rows
      /\ Forall2 (stored_as rid) its rows.
Proof.
  induction its as [|item rest IH]; intros results d out d'.
  - simpl. unfold mret, Eff_ret. intros [= <- <-].
    exists []. rewrite !app_nil_r. repeat split; constructor.
  - step_item.
    destruct (price_is_nan item); [discriminate|].
    destruct (negb (receipt_exists rid d)); [discriminate|].
    cbv zeta. intros H. apply IH in H as (rows & -> & Hr & Hs & Hi & Hall).
    simpl in Hr, Hs, Hi.
    eexists (_ :: rows). rewrite <- !app_assoc in *. simpl in *.
    repeat split; try assumption.
    constructor; [eexists; reflexivity | assumption].
Qed.

(** The loop succeeds when the receipt exists and no price is NaN. *)
Lemma insert_items_loop_total rid its :
  forall results d,
    receipt_exists rid d = true ->
    forallb (fun item => negb (price_is_nan item)) its = true ->
    exists out d', insert_items_loop rid its results d = (Normal out, d').
Proof.
  induction its as [|item rest IH]; intros results d He Hn.
  - eexists _, _. reflexivity.
  - simpl in Hn. apply andb_prop in Hn as [Hi Hn].
    step_item. apply negb_true_iff in Hi. rewrite Hi, He. simpl.
    apply IH; [|assumption]. exact He.
Qed.

(** The loop throws when some price is NaN. *)
Lemma insert_items_loop_nan rid its :
  forall results d,
    forallb (fun item => negb (price_is_nan item)) its = false ->
    exists e d', insert_items_loop rid its results d = (Throw e, d').
Proof.
  induction its as [|item rest IH]; intros results d Hn; [discriminate|].
  simpl in Hn. step_item.
  destruct (price_is_nan item); [eexists _, _; reflexivity|].
  destruct (negb (receipt_exists rid d)); [eexists _, _; reflexivity|].
  simpl in Hn. cbv zeta. now apply IH.
Qed.

Lemma number_or_quantity_not_zero q :
  is_zero_number (Js.number_or id q 1%float) = false.
Proof.
  destruct q as [v|]; simpl; [|reflexivity].
  destruct (Js.truthy_number v) eqn:E; [now apply truthy_not_zero | reflexivity].
Qed.

Lemma stored_as_quantity rid item row :
  stored_as rid item row -> quantity_is_zero row = false.
Proof.
  intros [n ->]. unfold quantity_is_zero. simpl.
  apply number_or_quantity_not_zero.
Qed.

(** C10. [insertReceiptItems] coerces falsy numeric fields. The rows it
    returns are the rows added to the table, one per item and in order,
    bound to the receipt id; in each, a quantity of 0 (or a missing one)
    has become 1 and a unit_price of 0 (or a missing one) has become NULL,
    other values are kept; so no row it stores has quantity 0, and a table
    without such a row stays so. It stores every item when the receipt
    exists and no price is NaN; when it throws, the database is
    untouched. *)
Theorem insertReceiptItems_coercions (rid : N) (its : list ReceiptItem)
  (d : Database) :
  (forall rows d',
      insertReceiptItems rid its d = (Normal rows, d') ->
      receipts d' = receipts d
      /\ receipt_items d' = receipt_items d ++ rows
      /\ Forall2 (fun item row =>
           i_receipt_id row = Some rid
           /\ i_item_name row = i_item_name item
           /\ i_total_price row = i_total_price item
           /\ (falsy_number (i_quantity item) = true ->
               i_quantity row = Some 1%float)
           /\ (falsy_number (i_quantity item) = false ->
               i_quantity row = i_quantity item)
           /\ (falsy_number (i_unit_price item) = true ->
               i_unit_price row = None)
           /\ (falsy_number (i_unit_price item) = false ->
               i_unit_price row = i_unit_price item)
           /\ quantity_is_zero row = false) its rows)
  /\ (forall e d', insertReceiptItems rid its d = (Throw e, d') -> d' = d)
  /\ (receipt_exists rid d = true ->
      forallb (fun item => negb (price_is_nan item)) its = true ->
      exists rows d', insertReceiptItems rid its d = (Normal rows, d')
                      /\ length rows = length its)
  /\ (Forall (fun row => quantity_is_zero row = false) (receipt_items d) ->
      Forall (fun row => quantity_is_zero row = false)
             (receipt_items (snd (insertReceiptItems rid its d)))).
Proof.
  unfold insertReceiptItems, transaction.
  repeat split.
  - destruct (insert_items_loop rid its [] d) as [[out|e] d0] eqn:E;
      [|discriminate].
    injection H as <- <-.
    now apply insert_items_loop_normal in E as (rows0 & -> & ? & ? & ? & ?).
  - destruct (insert_items_loop rid its [] d) as [[out|e] d0] eqn:E;
      [|discriminate].
    injection H as <- <-.
    now apply insert_items_loop_normal in E as (rows0 & -> & ? & ? & ? & ?).
  - destruct (insert_items_loop rid its [] d) as [[out|e] d0] eqn:E;
      [|discriminate].
    injection H as <- <-.
    apply insert_items_loop_normal in E as (rows0 & -> & _ & _ & _ & Hall).
    simpl. eapply Forall2_impl; [exact Hall|].
    intros item row Hst. pose proof (stored_as_quantity _ _ _ Hst) as Hq.
    destruct Hst as [n ->]. simpl.
    repeat split; try assumption.
    + destruct (i_quantity item) as [v|]; simpl; [|reflexivity].
      intros Hf. apply negb_true_iff in Hf. now rewrite Hf.
    + destruct (i_quantity item) as [v|]; simpl; [|discriminate].
      intros Hf. apply negb_false_iff in Hf. now rewrite Hf.
    + destruct (i_unit_price item) as [v|]; simpl; [|reflexivity].
      intros Hf. apply negb_true_iff in Hf. now rewrite Hf.
    + destruct (i_unit_price item) as [v|]; simpl; [|discriminate].
      intros Hf. apply negb_false_iff in Hf. now rewrite Hf.
  - intros e d'.
    destruct (insert_items_loop rid its [] d) as [[out|e0] d0]; congruence.
  - intros He Hn.
    destruct (insert_items_loop_total rid its [] d He Hn) as (out & d' & E).
    rewrite E. eexists _, _. split; [reflexivity|].
    apply insert_items_loop_normal in E as (rows0 & -> & _ & _ & _ & Hall).
    simpl. symmetry. now apply Forall2_length in Hall.
  - intros Hinv.
    destruct (insert_items_loop rid its [] d) as [[out|e] d0] eqn:E;
      simpl; [|assumption].
    apply insert_items_loop_normal in E as (rows0 & _ & _ & _ & -> & Hall).
    apply Forall_app. split; [assumption|].
    clear -Hall. induction Hall; constructor; eauto using stored_as_quantity.
Qed.

(* ================================================================== *)
(** * Extraction *)
(* ================================================================== *)

Lemma complete_truthy p data :
  complete p = Some data ->
  Js.truthy_string (merchant_name data) = true
  /\ Js.truthy_string (receipt_date data) = true.
Proof.
  unfold complete.
  destruct (p_merchant_name p) as [m|], (p_receipt_date p) as [d|],
    (p_total_amount p) as [t|]; try discriminate.
  destruct (Js.truthy_string m) eqn:Em, (Js.truthy_string d) eqn:Ed;
    simpl; try discriminate.
  intros [= <-]. now split.
Qed.

(** A vision extraction sends exactly one request, a vision request, and
    changes nothing else; what it returns is complete, what it throws is
    an [Error] naming the vision path. *)
Lemma extractReceiptDataWithVision_run rt b ft w :
  exists c,
    extractReceiptDataWithVision rt b ft w =
      (c, log_request (VisionCompletion (vision_prompt ft)
                         ("data:application/pdf;base64," +:+ b)) w)
    /\ match c with
       | Normal data =>
           Js.truthy_string (merchant_name data) = true
           /\ Js.truthy_string (receipt_date data) = true
       | Throw e =>
           exists m, e = JsError ("Failed to extract receipt data with vision: " +:+ m)
       end.
Proof.
  unfold extractReceiptDataWithVision, try_catch, mbind, Eff_bind, chat.
  destruct (chat_completion rt _ _) as [content|e].
  - unfold read_response.
    destruct content as [c|]; [|eexists; split; [reflexivity|eexists; reflexivity]].
    destruct (Js.truthy_string c);
      [|eexists; split; [reflexivity|eexists; reflexivity]].
    unfold mbind, Eff_bind, parse_json.
    destruct (JSON_parse rt c) as [parsed|e];
      [|eexists; split; [reflexivity|eexists; reflexivity]].
    destruct (complete parsed) as [data|] eqn:E;
      [|eexists; split; [reflexivity|eexists; reflexivity]].
    eexists; split; [reflexivity|]. now apply complete_truthy in E.
  - eexists; split; [reflexivity|eexists; reflexivity].
Qed.

(* ================================================================== *)
(** * The orchestrator *)
(* ================================================================== *)

Lemma lookup_run name w :
  on_db (getReceiptByFilename name) w =
    (Normal (List.find (same_filename name) (receipts (db w))), w).
Proof.
  unfold on_db, zoom, getReceiptByFilename, select_receipt_by_filename.
  now rewrite set_db_same.
Qed.

(** [processReceipt_try] on a filename that has a receipt. *)
Lemma processReceipt_try_existing rt name w found :
  List.find (same_filename name) (receipts (db w)) = Some found ->
  processReceipt_try rt name w =
    (Normal (already_processed name found), w).
Proof.
  intros H. unfold processReceipt_try.
  rewrite (bind_normal _ _ _ _ _ (lookup_run name w)). now rewrite H.
Qed.

(** [processReceipt_try] on a filename that has no receipt, stage by
    stage. *)
Lemma processReceipt_try_fresh rt name w :
  List.find (same_filename name) (receipts (db w)) = None ->
  processReceipt_try rt name w =
    let pdfPath := join rt (RECEIPTS_DIR rt) name in
    match fs w !! pdfPath with
    | Some (RegularFile c) =>
        match extractReceiptDataWithVision rt (toBase64 rt c) (Some EmptyString) w with
        | (Throw e, w1) => (Throw e, w1)
        | (Normal data, w1) =>
            let v := validateReceiptData rt data in
            match transaction (insert_body rt name data v) (db w1) with
            | (Throw e, d') => (Throw e, set_db d' w1)
            | (Normal rid, d') => (Normal (processed_result name rid data v), set_db d' w1)
            end
        end
    | _ =>
        (Throw (if valid_path pdfPath
                then JsError ("PDF file not found: " +:+ pdfPath)
                else io_error rt pdfPath), w)
    end.
Proof.
  intros H. unfold processReceipt_try.
  rewrite (bind_normal _ _ _ _ _ (lookup_run name w)). rewrite H.
  cbv zeta. unfold getReceiptsDir.
  set (pdfPath := join rt (RECEIPTS_DIR rt) name).
  unfold mbind at 1, Eff_bind at 1, loadPDFDocuments at 1.
  unfold mbind at 1, Eff_bind at 1, Bun_file_exists at 1, path_exists.
  destruct (fs w !! pdfPath) as [[c|]|] eqn:Efs.
  - rewrite (fs_lookup_valid _ _ _ Efs). simpl.
    unfold mbind at 1, Eff_bind at 1, convertPDFToBase64 at 1.
    unfold mbind at 1, Eff_bind at 1, Bun_file_bytes at 1. rewrite Efs. simpl.
    unfold mbind at 1, Eff_bind at 1.
    destruct (extractReceiptDataWithVision _ _ _ w) as [[data|e] w1];
      [|reflexivity].
    unfold mbind at 1, Eff_bind at 1, on_db at 1, zoom at 1.
    destruct (transaction _ (db w1)) as [[rid|e] d']; reflexivity.
  - now rewrite (fs_lookup_valid _ _ _ Efs).
  - now destruct (valid_path pdfPath).
Qed.

Lemma find_none_existsb {A} (f : A -> bool) l :
  List.find f l = None -> existsb f l = false.
Proof.
  induction l as [|x l IH]; simpl; [reflexivity|].
  destruct (f x); [discriminate | exact IH].
Qed.

Lemma has_nan_price_forallb its :
  forallb (fun item => negb (price_is_nan item)) (List.map item_of_extracted its)
  = negb (has_nan_price its).
Proof.
  unfold has_nan_price, price_is_nan.
  induction its as [|x its IH]; simpl; [reflexivity|].
  rewrite IH. now destruct (PrimFloat.is_nan (x_total_price x)).
Qed.

Lemma next_id_not_zero seq ids : N.eqb (next_id seq ids) 0 = false.
Proof. unfold next_id. apply N.eqb_neq. lia. Qed.

(** The body of the transaction of step 4, in a database without a
    receipt for the filename. *)
Lemma insert_body_run rt name data v d :
  existsb (same_filename name) (receipts d) = false ->
  insert_body rt name data v d =
    let rid := next_id (seq_receipts d) (List.map r_id (receipts d)) in
    let header := receipt_row rt rid (receipt_params (header_of name data v)) in
    let d1 := {| receipts := receipts d ++ [header];
                 receipt_items := receipt_items d;
                 seq_receipts := rid;
                 seq_receipt_items := seq_receipt_items d |} in
    if (0 <? length (items data))%nat
    then match insertReceiptItems rid (List.map item_of_extracted (items data)) d1 with
         | (Normal _, d2) => (Normal rid, d2)
         | (Throw e, d2) => (Throw e, d2)
         end
    else (Normal rid, d1).
Proof.
  intros Hnew. unfold insert_body. fold (header_of name data v).
  unfold mbind at 1, Eff_bind at 1.
  rewrite insertReceipt_run. simpl r_filename. rewrite Hnew. cbv zeta.
  cbv beta iota. cbn [r_id receipt_row]. rewrite next_id_not_zero.
  destruct (0 <? length (items data))%nat; [|reflexivity].
  unfold mbind, Eff_bind.
  now destruct (insertReceiptItems _ _ _) as [[out|e] d2].
Qed.

(** Step 4 as a whole. Without a NaN price the transaction commits the
    header and one row per item; with one it throws and leaves the
    database as it was. *)
Lemma insert_transaction_run rt name data v d :
  existsb (same_filename name) (receipts d) = false ->
  let rid := next_id (seq_receipts d) (List.map r_id (receipts d)) in
  let header := receipt_row rt rid (receipt_params (header_of name data v)) in
  if has_nan_price (items data)
  then exists e, transaction (insert_body rt name data v) d = (Throw e, d)
  else exists rows d',
         transaction (insert_body rt name data v) d = (Normal rid, d')
         /\ receipts d' = receipts d ++ [header]
         /\ receipt_items d' = receipt_items d ++ rows
         /\ Forall2 (stored_as rid) (List.map item_of_extracted (items data)) rows.
Proof.
  intros Hnew rid header.
  unfold transaction at 1 2. rewrite (insert_body_run _ _ _ _ _ Hnew).
  cbv zeta. fold rid. fold header.
  set (d1 := {| receipts := receipts d ++ [header];
                receipt_items := receipt_items d;
                seq_receipts := rid;
                seq_receipt_items := seq_receipt_items d |}).
  assert (Hex : receipt_exists rid d1 = true).
  { unfold receipt_exists, d1. simpl. rewrite existsb_app. simpl.
    rewrite bool_decide_eq_true_2 by reflexivity.
    now rewrite orb_true_r. }
  pose proof (has_nan_price_forallb (items data)) as Hf.
  destruct (items data) as [|x its] eqn:Eits.
  - simpl. exists [], d1. rewrite app_nil_r. repeat split. constructor.
  - rewrite <- Eits in *. replace (0 <? length (items data))%nat with true
      by (rewrite Eits; reflexivity).
    unfold insertReceiptItems, transaction.
    destruct (has_nan_price (items data)); simpl in Hf.
    + destruct (insert_items_loop_nan rid _ [] d1 Hf) as (e & d2 & ->).
      now exists e.
    + destruct (insert_items_loop_total rid _ [] d1 Hex Hf) as (out & d2 & E).
      rewrite E.
      apply insert_items_loop_normal in E as (rows & -> & Hr & _ & Hi & Hall).
      exists rows, d2. now repeat split.
Qed.

Lemma find_present {A} (f : A -> bool) l x :
  x ∈ l -> f x = true ->
  exists y, List.find f l = Some y /\ y ∈ l /\ f y = true.
Proof.
  induction l as [|z l IH]; intros Hin Hf; [inversion Hin|].
  simpl. destruct (f z) eqn:E.
  - exists z. repeat split; [left | assumption].
  - apply elem_of_cons in Hin as [->|Hin]; [congruence|].
    destruct (IH Hin Hf) as (y & ? & ? & ?).
    exists y. repeat split; [assumption | now right | assumption].
Qed.

(** C2. Idempotent processing: when a receipt row exists for the
    filename, [processReceipt] returns success=false with the id of the
    existing receipt and the message of prior processing, and the world is
    the one it started from: no request to the language model, no
    database write, no file touched. *)
Theorem processReceipt_idempotent (rt : Runtime) (name : string) (w : World)
  (row : Receipt) :
  row ∈ receipts (db w) ->
  r_filename row = name ->
  exists found,
    found ∈ receipts (db w)
    /\ r_filename found = name
    /\ processReceipt rt name w =
         (Normal {| success := false; filename := name;
                    receiptId := r_id found;
                    message := "Receipt already processed";
                    usedVision := false; textQuality := None;
                    extractedData := None; validationIssues := None |}, w).
Proof.
  intros Hin Hname.
  destruct (find_present (same_filename name) _ row Hin) as (found & Hf & Hin' & Hs).
  { unfold same_filename. now apply String.eqb_eq. }
  exists found. repeat split; [assumption | now apply String.eqb_eq in Hs |].
  unfold processReceipt.
  apply try_catch_normal. now apply processReceipt_try_existing.
Qed.

(** [processReceipt] turns what its [try] block throws into an outcome. *)
Lemma processReceipt_unfold rt name w :
  processReceipt rt name w =
    match processReceipt_try rt name w with
    | (Normal r, w') => (Normal r, w')
    | (Throw e, w') => (Normal (failed_result name e), w')
    end.
Proof.
  unfold processReceipt, try_catch.
  now destruct (processReceipt_try _ _ _) as [[r|e] w'].
Qed.

Lemma stored_as_extracted rid x row :
  stored_as rid (item_of_extracted x) row ->
  i_receipt_id row = Some rid
  /\ i_item_name row = x_item_name x
  /\ i_total_price row = x_total_price x.
Proof. intros [n ->]. now repeat split. Qed.

(** C3. The persistence step. For a document without a receipt whose
    extraction succeeded, [processReceipt] inserts the header with
    processing_status complete when the validator reported valid and
    needs_review otherwise, and one receipt_items row per extracted item,
    in order, each bound to the id of the new receipt; validation issues
    do not abort persistence (the outcome is success=true and carries the
    issues). Both inserts run in one transaction: the only way it aborts
    for such a document is a price that SQLite cannot store (NaN), and
    then neither the header nor any item is visible. *)
Theorem persistence_step (rt : Runtime) (name : string) (w : World)
  (c : string) (data : ExtractedReceiptData) (w1 : World) :
  List.find (same_filename name) (receipts (db w)) = None ->
  fs w !! join rt (RECEIPTS_DIR rt) name = Some (RegularFile c) ->
  extractReceiptDataWithVision rt (toBase64 rt c) (Some EmptyString) w
    = (Normal data, w1) ->
  let v := validateReceiptData rt data in
  let rid := next_id (seq_receipts (db w)) (List.map r_id (receipts (db w))) in
  (has_nan_price (items data) = false ->
   exists header rows w',
     processReceipt rt name w =
       (Normal {| success := true; filename := name; receiptId := Some rid;
                  message := if valid v then "Receipt processed successfully"
                             else "Receipt processed with validation issues";
                  usedVision := true; textQuality := None;
                  extractedData := Some data;
                  validationIssues := Some (issues v) |}, w')
     /\ fs w' = fs w
     /\ llm_requests w' = llm_requests w1
     /\ receipts (db w') = receipts (db w) ++ [header]
     /\ receipt_items (db w') = receipt_items (db w) ++ rows
     /\ r_id header = Some rid
     /\ r_filename header = name
     /\ r_processing_status header =
          Some (if valid v then "complete" else "needs_review")
     /\ r_merchant_name header = Some (merchant_name data)
     /\ r_receipt_date header = Some (receipt_date data)
     /\ r_total_amount header =
          (if Js.truthy_number (total_amount data)
           then Some (total_amount data) else None)
     /\ Forall2 (fun x row =>
                   i_receipt_id row = Some rid
                   /\ i_item_name row = x_item_name x
                   /\ i_total_price row = x_total_price x)
                (items data) rows)
  /\ (has_nan_price (items data) = true ->
      exists e, processReceipt rt name w = (Normal (failed_result name e), w1)
                /\ db w1 = db w /\ fs w1 = fs w).
Proof.
  intros Hnew Hfile Hext v rid.
  destruct (extractReceiptDataWithVision_run rt (toBase64 rt c) (Some EmptyString) w)
    as (c0 & Hrun & Hpost).
  rewrite Hext in Hrun. injection Hrun as <- Hw1.
  destruct Hpost as [Hm Hd].
  assert (Hdb : db w1 = db w) by now rewrite Hw1.
  assert (Hfs : fs w1 = fs w) by now rewrite Hw1.
  rewrite processReceipt_unfold, (processReceipt_try_fresh _ _ _ Hnew).
  cbv zeta. rewrite Hfile, Hext. fold v.
  pose proof (insert_transaction_run rt name data v (db w1)) as Htx.
  rewrite Hdb in Htx. specialize (Htx (find_none_existsb _ _ Hnew)).
  cbv zeta in Htx. fold rid in Htx. rewrite Hdb.
  split; intros Hnan; rewrite Hnan in Htx.
  - destruct Htx as (rows & d' & -> & Hr & Hi & Hall).
    exists (receipt_row rt rid (receipt_params (header_of name data v))), rows,
           (set_db d' w1).
    split; [reflexivity|].
    cbn [fs db llm_requests set_db r_id r_filename r_processing_status
         r_merchant_name r_receipt_date r_total_amount receipt_row
         receipt_params header_of Js.string_or Js.number_or].
    rewrite Hm, Hd.
    repeat split; try assumption.
    + unfold status_of. now destruct (valid v).
    + clear -Hall. revert rows Hall.
      induction (items data) as [|x its IH]; intros rows Hall;
        inversion Hall; subst; constructor.
      * now apply stored_as_extracted.
      * now apply IH.
  - destruct Htx as (e & ->). exists e.
    replace (set_db (db w) w1) with w1
      by (rewrite <- Hdb; symmetry; apply set_db_same).
    now repeat split.
Qed.

(** [processReceipt] always returns an outcome. A failed outcome leaves
    the database as it was, the files are never touched, and at most one
    request, a vision request, is sent. *)
Lemma processReceipt_total rt name w :
  exists r w',
    processReceipt rt name w = (Normal r, w')
    /\ filename r = name
    /\ fs w' = fs w
    /\ (success r = false -> db w' = db w)
    /\ (llm_requests w' = llm_requests w
        \/ exists b, llm_requests w' = llm_requests w ++ [vision_request b])
    /\ (forall e w2, processReceipt_try rt name w = (Throw e, w2) ->
                     r = failed_result name e /\ w' = w2).
Proof.
  destruct (List.find (same_filename name) (receipts (db w))) as [found|] eqn:Hfind.
  - pose proof (processReceipt_try_existing rt name w found Hfind) as Htry.
    exists (already_processed name found), w.
    split; [unfold processReceipt; now apply try_catch_normal|].
    repeat split; try tauto. all: intros; congruence.
  - rewrite processReceipt_unfold, (processReceipt_try_fresh _ _ _ Hfind).
    cbv zeta.
    destruct (fs w !! join rt (RECEIPTS_DIR rt) name) as [[c|]|].
    + destruct (extractReceiptDataWithVision_run rt (toBase64 rt c) (Some EmptyString) w)
        as (c0 & -> & _).
      fold (vision_request (toBase64 rt c)).
      destruct c0 as [data|e].
      * destruct (transaction _ _) as [[rid|e] d'] eqn:Etx.
        -- eexists _, _. split; [reflexivity|]. simpl.
           repeat split; try discriminate. right. now eexists.
        -- apply transaction_rollback in Etx. subst d'.
           eexists _, _. split; [reflexivity|]. simpl.
           repeat split; try congruence. right. now eexists.
      * eexists _, _. split; [reflexivity|]. simpl.
        repeat split; try congruence. right. now eexists.
    + eexists _, _. split; [reflexivity|].
      repeat split; try congruence. now left.
    + eexists _, _. split; [reflexivity|].
      repeat split; try congruence. now left.
Qed.

(** The loop of the batch: one outcome per filename, in order, after the
    outcomes accumulated so far. *)
Lemma process_loop_run rt filenames :
  forall acc w,
    exists results w',
      process_loop rt filenames acc w = (Normal (acc ++ results), w')
      /\ batch_run rt filenames w results w'
      /\ List.map filename results = filenames.
Proof.
  induction filenames as [|name rest IH]; intros acc w.
  - exists [], w. rewrite app_nil_r. repeat split. constructor.
  - destruct (processReceipt_total rt name w) as (r & w1 & Hr & Hname & _).
    destruct (IH (acc ++ [r]) w1) as (results & w' & Hloop & Hrun & Hmap).
    exists (r :: results), w'. repeat split.
    + simpl. rewrite (bind_normal _ _ _ _ _ Hr), Hloop.
      now rewrite <- app_assoc.
    + econstructor; eassumption.
    + simpl. now rewrite Hname, Hmap.
Qed.


(** C1, as the code has it. The flag ENABLE_VISION_FALLBACK is read from
    the environment (enabled unless the variable is the text false) but
    [processReceipt] does not consult it: its result is the same under
    every value of the flag. The extraction path is fixed: a document
    without a receipt whose file can be read gets exactly one request, a
    vision request carrying its base64 rendering; any other document gets
    none; a text request is never sent. *)
Theorem extraction_path_fixed (rt : Runtime) (name : string) (w : World) :
  (ENABLE_VISION_FALLBACK rt = false <->
   env_ENABLE_VISION_FALLBACK rt = Some "false")
  /\ (forall flag,
        processReceipt (with_flag flag rt) name w = processReceipt rt name w)
  /\ llm_requests (snd (processReceipt rt name w)) =
       match List.find (same_filename name) (receipts (db w)),
             fs w !! join rt (RECEIPTS_DIR rt) name with
       | None, Some (RegularFile c) =>
           llm_requests w
             ++ [VisionCompletion
                   "Analyze this receipt image and extract all receipt data."
                   ("data:application/pdf;base64," +:+ toBase64 rt c)]
       | _, _ => llm_requests w
       end.
Proof.
  split; [split | split].
  - unfold ENABLE_VISION_FALLBACK.
    destruct (env_ENABLE_VISION_FALLBACK rt) as [v|]; [|discriminate].
    intros H. apply negb_false_iff, String.eqb_eq in H. now subst.
  - unfold ENABLE_VISION_FALLBACK. now intros ->.
  - intros flag. now destruct rt.
  - destruct (List.find (same_filename name) (receipts (db w))) as [found|] eqn:Hfind.
    + unfold processReceipt.
      now rewrite (try_catch_normal _ _ _ _ _
                     (processReceipt_try_existing rt name w found Hfind)).
    + rewrite processReceipt_unfold, (processReceipt_try_fresh _ _ _ Hfind).
      cbv zeta.
      destruct (fs w !! join rt (RECEIPTS_DIR rt) name) as [[c|]|]; try reflexivity.
      destruct (extractReceiptDataWithVision_run rt (toBase64 rt c) (Some EmptyString) w)
        as (c0 & -> & _).
      destruct c0 as [data|e]; [|reflexivity].
      now destruct (transaction _ _) as [[rid|e] d'].
Qed.

(* ================================================================== *)
(** * The receipt store *)
(* ================================================================== *)

(** A write that throws has changed nothing. *)
Lemma Bun_write_throws rt path content w e w' :
  Bun_write rt path content w = (Throw e, w') -> w' = w.
Proof.
  unfold Bun_write. destruct (valid_path path); simpl; [|congruence].
  destruct (write_failure rt path); [congruence|].
  destruct (fs w !! path) as [[c|]|]; try congruence;
    destruct (blocked (ancestors rt path) (fs w)); congruence.
Qed.

Lemma ancestors_not_self rt path dir : dir ∈ ancestors rt path -> dir <> path.
Proof.
  unfold ancestors. intros Hin. apply list_elem_of_In, filter_In in Hin as [_ H].
  apply negb_true_iff, String.eqb_neq in H. exact H.
Qed.

Lemma set_fs_same w : set_fs (fs w) w = w.
Proof. now destruct w. Qed.

(** A write that returns was given a valid path that is no directory,
    found its way to it, and left the file and the missing directories
    above it. *)
Lemma Bun_write_returns rt path content w w' :
  Bun_write rt path content w = (Normal tt, w') ->
  valid_path path = true
  /\ write_failure rt path = None
  /\ blocked (ancestors rt path) (fs w) = false
  /\ fs w !! path <> Some Directory
  /\ w' = set_fs (<[path := RegularFile content]>
                    (make_directories (ancestors rt path) (fs w))) w.
Proof.
  unfold Bun_write. destruct (valid_path path); simpl; [|congruence].
  destruct (write_failure rt path); [congruence|].
  destruct (fs w !! path) as [[c|]|] eqn:E; try congruence;
    destruct (blocked (ancestors rt path) (fs w)); try congruence;
    intros [= <-]; repeat split; congruence.
Qed.

(** What a write that returned has left. *)
Lemma Bun_write_written rt path content w w' :
  Bun_write rt path content w = (Normal tt, w') ->
  fs w' !! path = Some (RegularFile content)
  /\ db w' = db w
  /\ llm_requests w' = llm_requests w
  /\ (forall other node,
        other <> path -> fs w !! other = Some node -> fs w' !! other = Some node)
  /\ (forall other,
        other <> path -> fs w !! other = None ->
        fs w' !! other = None
        \/ (fs w' !! other = Some Directory /\ other ∈ ancestors rt path))
  /\ (forall dir, dir ∈ ancestors rt path -> fs w' !! dir = Some Directory).
Proof.
  intros H. apply Bun_write_returns in H as (Hv & _ & Hb & _ & ->).
  cbn [fs db llm_requests set_fs].
  split; [now apply fs_lookup_insert|]. split; [reflexivity|].
  split; [reflexivity|]. split; [|split].
  - intros other node Hne Ho. rewrite fs_lookup_insert_ne by congruence.
    now apply make_directories_keeps.
  - intros other Hne Ho. rewrite fs_lookup_insert_ne by congruence.
    now apply make_directories_adds.
  - intros dir Hin. pose proof (ancestors_not_self _ _ _ Hin) as Hne.
    rewrite fs_lookup_insert_ne by congruence.
    now apply make_directories_made.
Qed.

(** Writing again what a write has left changes nothing. *)
Lemma Bun_write_again rt path content w w' :
  Bun_write rt path content w = (Normal tt, w') ->
  Bun_write rt path content w' = (Normal tt, w').
Proof.
  intros H. pose proof (Bun_write_written _ _ _ _ _ H) as (Hp & _ & _ & _ & _ & Hdirs).
  apply Bun_write_returns in H as (Hv & Hw & Hb & _ & _).
  unfold Bun_write. rewrite Hv, Hw, Hp. cbn [negb].
  assert (Hopen : blocked (ancestors rt path) (fs w') = false).
  { unfold blocked. apply not_true_is_false. intros Ht.
    apply existsb_exists in Ht as (dir & Hin & Hdir).
    apply list_elem_of_In in Hin.
    destruct (blocked_false _ _ _ Hb Hin) as [Hvd _].
    rewrite Hvd, (Hdirs _ Hin) in Hdir. discriminate. }
  rewrite Hopen, make_directories_present.
  - now rewrite (fs_insert_id _ _ _ Hp), set_fs_same.
  - apply Forall_forall. intros dir Hin. rewrite (Hdirs dir Hin). now eexists.
Qed.

(** [moveFileToReceipts], stage by stage. *)
Lemma moveFileToReceipts_run rt src w :
  moveFileToReceipts rt src w =
    if negb (valid_path src) then (Throw (io_error rt src), w)
    else
      match fs w !! src with
      | Some (RegularFile c) =>
          let dest := destination rt src in
          if negb (valid_path dest) then (Throw (io_error rt dest), w)
          else
            match fs w !! dest with
            | Some (RegularFile _) =>
                (Throw (JsError ("File already exists in receipts: "
                                   +:+ basename rt src)), w)
            | _ =>
                match Bun_write rt dest c w with
                | (Throw e, w1) => rethrow_move e w1
                | (Normal _, w1) =>
                    match Bun_write rt src EmptyString w1 with
                    | (Throw e, w2) => rethrow_move e w2
                    | (Normal _, w2) =>
                        (Normal (basename rt src),
                         if rm_succeeds rt src
                         then set_fs (delete src (fs w2)) w2 else w2)
                    end
                end
            end
      | _ => (Throw (JsError ("Source file does not exist: " +:+ src)), w)
      end.
Proof.
  unfold moveFileToReceipts, destination.
  unfold mbind at 1, Eff_bind at 1, Bun_file_exists at 1, path_exists.
  destruct (valid_path src) eqn:Hv; [|reflexivity]. cbn [negb].
  destruct (fs w !! src) as [[c|]|] eqn:Esrc; try reflexivity.
  cbn [negb]. unfold mbind at 1, Eff_bind at 1, Bun_file_size at 1, is_undefined.
  cbv iota beta.
  set (dest := join rt (RECEIPTS_DIR rt) (basename rt src)).
  unfold mbind at 1, Eff_bind at 1, Bun_file_exists at 1, path_exists.
  destruct (valid_path dest) eqn:Hvd; [|reflexivity]. cbn [negb].
  assert (Hbody :
    try_catch
      (Bun_write_file rt dest src;; Bun_write rt src EmptyString;;
       spawn_rm rt src;; mret (basename rt src)) rethrow_move w =
    match Bun_write rt dest c w with
    | (Throw e, w1) => rethrow_move e w1
    | (Normal _, w1) =>
        match Bun_write rt src EmptyString w1 with
        | (Throw e, w2) => rethrow_move e w2
        | (Normal _, w2) =>
            (Normal (basename rt src),
             if rm_succeeds rt src then set_fs (delete src (fs w2)) w2 else w2)
        end
    end).
  { unfold try_catch, mbind, Eff_bind, Bun_write_file, mbind, Eff_bind,
      Bun_file_bytes. rewrite Esrc.
    destruct (Bun_write rt dest c w) as [[[]|e] w1]; [|reflexivity].
    destruct (Bun_write rt src EmptyString w1) as [[[]|e] w2] eqn:Eclear;
      [|reflexivity].
    apply Bun_write_written in Eclear as (Hsrc & _).
    unfold spawn_rm. rewrite Hsrc.
    now destruct (rm_succeeds rt src). }
  destruct (fs w !! dest) as [[older|]|]; cbv iota; [reflexivity | |];
    exact Hbody.
Qed.

(** C6, as the code has it. The precondition errors of
    [moveFileToReceipts] and what they leave. A source that names no
    regular file raises the not-found error naming the source path, and
    that is also what a directory gets: [exists()] is false of it, and the
    test for a source that is not a file, [size === undefined], is never
    reached with such a source and holds of no size. A regular source
    whose base filename names a regular file of the store raises the
    conflict error naming that filename. In each case the world after
    the call is the world before it. With a regular source and no such
    file in the store, an [Error] thrown is a failed move. A source path
    with a NUL byte raises what Bun throws at it. *)
Theorem moveFileToReceipts_preconditions (rt : Runtime) (src : string)
  (w : World) :
  (valid_path src = true -> fs w !! src = None ->
   moveFileToReceipts rt src w =
     (Throw (JsError ("Source file does not exist: " +:+ src)), w))
  /\ (fs w !! src = Some Directory ->
      moveFileToReceipts rt src w =
        (Throw (JsError ("Source file does not exist: " +:+ src)), w)
      /\ moveFileToReceipts rt src w <>
           (Throw (JsError ("Source is not a file: " +:+ src)), w))
  /\ (forall c older,
        fs w !! src = Some (RegularFile c) ->
        fs w !! destination rt src = Some (RegularFile older) ->
        moveFileToReceipts rt src w =
          (Throw (JsError ("File already exists in receipts: " +:+ basename rt src)), w))
  /\ (forall c m w',
        fs w !! src = Some (RegularFile c) ->
        valid_path (destination rt src) = true ->
        path_exists w (destination rt src) = false ->
        moveFileToReceipts rt src w = (Throw (JsError m), w') ->
        exists cause, m = "Failed to move file: " +:+ cause)
  /\ (valid_path src = false ->
      moveFileToReceipts rt src w = (Throw (io_error rt src), w)).
Proof.
  rewrite moveFileToReceipts_run.
  split; [|split; [|split; [|split; [|now intros ->]]]].
  - now intros -> ->.
  - intros H. rewrite (fs_lookup_valid _ _ _ H), H. cbn [negb].
    split; [reflexivity|]. intros [= Heq].
  - intros c older Hs Hd.
    rewrite (fs_lookup_valid _ _ _ Hs), Hs. cbv zeta.
    now rewrite (fs_lookup_valid _ _ _ Hd), Hd.
  - intros c m w' Hs Hvd Hd.
    rewrite (fs_lookup_valid _ _ _ Hs), Hs. cbv zeta. rewrite Hvd. cbn [negb].
    assert (Hrun : forall out : Completion string * World,
      out = match Bun_write rt (destination rt src) c w with
            | (Throw e, w1) => rethrow_move e w1
            | (Normal _, w1) =>
                match Bun_write rt src EmptyString w1 with
                | (Throw e, w2) => rethrow_move e w2
                | (Normal _, w2) =>
                    (Normal (basename rt src),
                     if rm_succeeds rt src
                     then set_fs (delete src (fs w2)) w2 else w2)
                end
            end ->
      out = (Throw (JsError m), w') ->
      exists cause, m = "Failed to move file: " +:+ cause).
    { intros out ->.
      destruct (Bun_write rt _ c w) as [[[]|[m0|]] w1].
      - destruct (Bun_write rt src _ w1) as [[[]|[m0|]] w2].
        + discriminate.
        + intros [= <- _]. now eexists.
        + discriminate.
      - intros [= <- _]. now eexists.
      - discriminate. }
    unfold path_exists in Hd.
    destruct (fs w !! destination rt src) as [[older|]|];
      [discriminate | |]; now apply Hrun.
Qed.

(** C7. The move is not atomic: the copy to the destination, the write
    that clears the source and [rm] are three steps. Once the copy has
    succeeded the destination holds the content and the source still
    holds it too. If the write that clears the source then fails, the
    call throws a failed move and that is how things stay: a duplicate is
    left at the source. If clearing succeeds and [rm] fails, the call
    returns the filename, the destination holds the content and the
    source is left behind as an empty file. Only when both succeed is the
    source gone. *)
Theorem moveFileToReceipts_not_atomic (rt : Runtime) (src : string) (w : World)
  (c : string) (w1 : World) :
  fs w !! src = Some (RegularFile c) ->
  fs w !! destination rt src = None ->
  Bun_write_file rt (destination rt src) src w = (Normal tt, w1) ->
  fs w1 !! destination rt src = Some (RegularFile c)
  /\ fs w1 !! src = Some (RegularFile c)
  /\ (forall e w2,
        Bun_write rt src EmptyString w1 = (Throw e, w2) ->
        moveFileToReceipts rt src w =
          (Throw match e with
                 | JsError m => JsError ("Failed to move file: " +:+ m)
                 | JsNonError => JsNonError
                 end, w1))
  /\ (forall e,
        write_failure rt src = Some e ->
        Bun_write rt src EmptyString w1 = (Throw e, w1))
  /\ (forall w2,
        Bun_write rt src EmptyString w1 = (Normal tt, w2) ->
        fs w2 !! destination rt src = Some (RegularFile c)
        /\ fs w2 !! src = Some (RegularFile EmptyString)
        /\ (rm_succeeds rt src = false ->
            moveFileToReceipts rt src w = (Normal (basename rt src), w2))
        /\ (rm_succeeds rt src = true ->
            exists w3,
              moveFileToReceipts rt src w = (Normal (basename rt src), w3)
              /\ fs w3 !! destination rt src = Some (RegularFile c)
              /\ fs w3 !! src = None)).
Proof.
  intros Hsrc Hdest Hcopy.
  assert (Hne : destination rt src <> src) by congruence.
  assert (Hwrite : Bun_write rt (destination rt src) c w = (Normal tt, w1)).
  { unfold Bun_write_file, mbind, Eff_bind, Bun_file_bytes in Hcopy.
    now rewrite Hsrc in Hcopy. }
  pose proof (Bun_write_returns _ _ _ _ _ Hwrite) as (Hvd & _).
  pose proof (Bun_write_written _ _ _ _ _ Hwrite) as (Hd1 & _ & _ & Hkeep & _).
  pose proof (fs_lookup_valid _ _ _ Hsrc) as Hvs.
  assert (Hs1 : fs w1 !! src = Some (RegularFile c))
    by (apply Hkeep; [congruence | exact Hsrc]).
  assert (Hrun := moveFileToReceipts_run rt src w).
  rewrite Hvs, Hsrc in Hrun. cbv zeta in Hrun.
  rewrite Hvd, Hdest, Hwrite in Hrun. cbn [negb] in Hrun.
  split; [exact Hd1|]. split; [exact Hs1|]. split; [|split].
  - intros e w2 Hclear. rewrite Hrun, Hclear.
    apply Bun_write_throws in Hclear. subst w2. now destruct e.
  - intros e He. unfold Bun_write. now rewrite Hvs, He.
  - intros w2 Hclear. rewrite Hrun, Hclear.
    pose proof (Bun_write_written _ _ _ _ _ Hclear) as (Hs2 & _ & _ & Hkeep2 & _).
    assert (Hd2 : fs w2 !! destination rt src = Some (RegularFile c))
      by (apply Hkeep2; [exact Hne | exact Hd1]).
    split; [exact Hd2|]. split; [exact Hs2|]. split.
    + now intros ->.
    + intros ->. eexists. split; [reflexivity|]. cbn [fs set_fs].
      rewrite fs_lookup_delete, fs_lookup_delete_ne by congruence.
      now split.
Qed.

(* ================================================================== *)
(** * The path resolver *)
(* ================================================================== *)

(** The second loop of [parseFilePaths] is a filter; it reads the
    filesystem and changes nothing, and it stops with an exception at the
    first path that Bun refuses. *)
Lemma keep_existing_run rt paths :
  forall acc w,
    keep_existing rt paths acc w =
      (match first_invalid paths with
       | Some path => Throw (io_error rt path)
       | None => Normal (acc ++ List.filter (path_exists w) paths)
       end, w).
Proof.
  unfold first_invalid.
  induction paths as [|path rest IH]; intros acc w; simpl.
  - unfold mret, Eff_ret. now rewrite app_nil_r.
  - unfold mbind, Eff_bind, Bun_file_exists.
    destruct (valid_path path); [|reflexivity]. cbn [negb]. rewrite IH.
    destruct (List.find _ rest); [reflexivity|].
    destruct (path_exists w path); [|reflexivity].
    now rewrite <- app_assoc.
Qed.

Lemma first_invalid_none paths :
  first_invalid paths = None <-> forallb valid_path paths = true.
Proof.
  unfold first_invalid. induction paths as [|p l IH]; simpl; [tauto|].
  destruct (valid_path p); simpl; [exact IH|]. split; discriminate.
Qed.

Lemma strip_peel w1 w2 w3 s :
  Js.strip w1 w2 w3 s =
    match Js.peel w1 w2 w3 s with
    | Some rest => Js.strip w1 w2 w3 rest
    | None => s
    end.
Proof.
  destruct s as [|a [|b [|c r]]]; cbn [Js.strip Js.peel];
    try reflexivity; destruct (w1 a); try reflexivity;
    destruct (w2 a b); try reflexivity; destruct (w3 a b c); reflexivity.
Qed.

Lemma peel_length w1 w2 w3 s rest :
  Js.peel w1 w2 w3 s = Some rest -> (String.length rest < String.length s)%nat.
Proof.
  destruct s as [|a [|b [|c r]]]; cbn [Js.peel]; try discriminate;
    destruct (w1 a); try discriminate; try (intros [= <-]; simpl; lia);
    destruct (w2 a b); try discriminate; try (intros [= <-]; simpl; lia);
    destruct (w3 a b c); try discriminate; intros [= <-]; simpl; lia.
Qed.

Lemma all_white_space_peel s :
  all_white_space s =
    match Js.peel Js.white_space_1 Js.white_space_2 Js.white_space_3 s with
    | Some rest => all_white_space rest
    | None => match s with EmptyString => true | _ => false end
    end.
Proof.
  destruct s as [|a [|b [|c r]]]; cbn [all_white_space Js.peel];
    try reflexivity; destruct (Js.white_space_1 a); try reflexivity;
    destruct (Js.white_space_2 a b); try reflexivity;
    destruct (Js.white_space_3 a b c); reflexivity.
Qed.

Lemma trimStart_white s : all_white_space s = true -> Js.trimStart s = EmptyString.
Proof.
  unfold Js.trimStart.
  assert (H : forall n s, (String.length s <= n)%nat ->
                all_white_space s = true ->
                Js.strip Js.white_space_1 Js.white_space_2 Js.white_space_3 s
                = EmptyString).
  { clear s. induction n as [|n IH]; intros s Hlen Hs;
      rewrite strip_peel; rewrite all_white_space_peel in Hs;
      destruct (Js.peel _ _ _ s) as [rest|] eqn:E.
    - apply peel_length in E. lia.
    - now destruct s.
    - apply IH; [apply peel_length in E; lia | exact Hs].
    - now destruct s. }
  now apply (H (String.length s)).
Qed.

Lemma trim_white s : all_white_space s = true -> Js.trim s = EmptyString.
Proof.
  intros H. unfold Js.trim. now rewrite (trimStart_white _ H).
Qed.

Lemma filter_sublist {A} (f : A -> bool) l : sublist (List.filter f l) l.
Proof.
  induction l as [|x l IH]; simpl; [constructor|].
  destruct (f x); now constructor.
Qed.

(** [parseFilePaths] as a whole. *)
Lemma parseFilePaths_run rt pastedText w :
  parseFilePaths rt pastedText w =
    let candidates := List.map (candidate rt) (lines_of (Js.trim pastedText)) in
    (match first_invalid candidates with
     | Some path => Throw (io_error rt path)
     | None => Normal (List.filter (path_exists w) candidates)
     end, w).
Proof.
  unfold parseFilePaths.
  destruct (Js.trim pastedText) as [|ch rest] eqn:E; [reflexivity|].
  cbn [negb Js.truthy_string]. now rewrite keep_existing_run.
Qed.

(** C8, as the code has it. The path resolver changes nothing. Its
    candidates are one path per non-empty trimmed line. When none of them
    holds a NUL byte it returns those at which a regular file exists at
    call time: only such paths, all of them, in input order, a path as
    many times as it was given; a candidate that names nothing, or names
    a directory, is dropped without an error. A candidate with a NUL byte
    is not dropped: the call throws what Bun throws at the first such
    path. Empty or white-space-only input yields the empty list. *)
Theorem parseFilePaths_spec (rt : Runtime) (pastedText : string) (w : World) :
  let candidates := List.map (candidate rt) (lines_of (Js.trim pastedText)) in
  (forallb valid_path candidates = true ->
   exists paths,
     parseFilePaths rt pastedText w = (Normal paths, w)
     /\ paths = List.filter (path_exists w) candidates
     /\ (forall p, p ∈ paths ->
                   p ∈ candidates
                   /\ exists content, fs w !! p = Some (RegularFile content))
     /\ (forall p content,
           p ∈ candidates -> fs w !! p = Some (RegularFile content) -> p ∈ paths)
     /\ (forall p, fs w !! p = None \/ fs w !! p = Some Directory -> p ∉ paths)
     /\ sublist paths candidates)
  /\ (forall p,
        first_invalid candidates = Some p ->
        parseFilePaths rt pastedText w = (Throw (io_error rt p), w))
  /\ (all_white_space pastedText = true ->
      parseFilePaths rt pastedText w = (Normal [], w)).
Proof.
  intros candidates. rewrite parseFilePaths_run. fold candidates. cbv zeta.
  split; [|split].
  - intros Hvalid. apply first_invalid_none in Hvalid. rewrite Hvalid.
    exists (List.filter (path_exists w) candidates).
    split; [reflexivity|]. split; [reflexivity|].
    assert (Hex : forall p, path_exists w p = true <->
                            exists content, fs w !! p = Some (RegularFile content)).
    { intros p. unfold path_exists. destruct (fs w !! p) as [[c|]|]; split;
        intros H; try reflexivity; try discriminate;
        [now eexists | now destruct H | now destruct H]. }
    split; [|split; [|split]].
    + intros p Hin. apply list_elem_of_In, filter_In in Hin as [Hin Hp].
      split; [now apply list_elem_of_In | now apply Hex].
    + intros p content Hin Hfile. apply list_elem_of_In, filter_In.
      split; [now apply list_elem_of_In | apply Hex; now exists content].
    + intros p Hp Hin. apply list_elem_of_In, filter_In in Hin as [_ Hin].
      apply Hex in Hin as [content Hin]. destruct Hp; congruence.
    + apply filter_sublist.
  - now intros p ->.
  - intros Hws. subst candidates. now rewrite (trim_white _ Hws).
Qed.

(* ================================================================== *)
(** * Worked examples *)
(* ================================================================== *)

(** C1 as stated does not hold: with ENABLE_VISION_FALLBACK set to the
    text false the flag is disabled, and processing a fresh document
    still sends a vision request and reports usedVision. *)
Lemma vision_flag_counterexample :
  ENABLE_VISION_FALLBACK (Sample.reading (Some "false") 10%float) = false
  /\ exists r w',
       processReceipt (Sample.reading (Some "false") 10%float) "a.pdf" Sample.fresh
         = (Normal r, w')
       /\ success r = true
       /\ usedVision r = true
       /\ llm_requests w' =
            [VisionCompletion
               "Analyze this receipt image and extract all receipt data."
               "data:application/pdf;base64,%PDF-1.4"].
Proof.
  split; [reflexivity|].
  eexists _, _. split; [vm_compute; reflexivity|]. now repeat split.
Qed.

(** C8 as stated does not hold. A pasted path with a NUL byte names
    nothing, and it is not dropped: the call throws. And a pasted path
    that exists on the filesystem as a directory is not returned. *)
Lemma nul_path_counterexample :
  fs Sample.downloads !! Sample.nul_path = None
  /\ parseFilePaths Sample.offline Sample.nul_path Sample.downloads
     = (Throw (JsError "EIO: i/o error"), Sample.downloads)
  /\ (forall paths w',
        parseFilePaths Sample.offline Sample.nul_path Sample.downloads
        <> (Normal paths, w'))
  /\ fs Sample.downloads !! "/tmp/dir" = Some Directory
  /\ parseFilePaths Sample.offline "/tmp/dir" Sample.downloads
     = (Normal [], Sample.downloads).
Proof.
  split; [reflexivity|]. split; [vm_compute; reflexivity|].
  split; [intros paths w'; vm_compute; discriminate|].
  split; [reflexivity|]. vm_compute. reflexivity.
Qed.

(** Processing [a.pdf] a second time. *)
Lemma processReceipt_idempotent_witness :
  Sample.row_a ∈ receipts (db Sample.processed)
  /\ r_filename Sample.row_a = "a.pdf"
  /\ exists found,
       found ∈ receipts (db Sample.processed)
       /\ r_filename found = "a.pdf"
       /\ processReceipt (Sample.reading None 10%float) "a.pdf" Sample.processed =
            (Normal {| success := false; filename := "a.pdf";
                       receiptId := r_id found;
                       message := "Receipt already processed";
                       usedVision := false; textQuality := None;
                       extractedData := None; validationIssues := None |},
             Sample.processed).
Proof.
  split; [left|]. split; [reflexivity|].
  apply (processReceipt_idempotent (Sample.reading None 10%float) "a.pdf"
           Sample.processed Sample.row_a); [left | reflexivity].
Defined.

(** Processing a fresh [a.pdf] whose single line is 2.00 against a stated
    total of 10.00: stored, for review, with its line. *)
Lemma persistence_step_witness :
  List.find (same_filename "a.pdf") (receipts (db Sample.fresh)) = None
  /\ has_nan_price (items (Sample.cafe_data 2%float)) = false
  /\ exists header rows w',
       processReceipt (Sample.reading None 2%float) "a.pdf" Sample.fresh =
         (Normal (processed_result "a.pdf" 1 (Sample.cafe_data 2%float)
                    (validateReceiptData (Sample.reading None 2%float)
                                         (Sample.cafe_data 2%float))), w')
       /\ receipts (db w') = [header]
       /\ receipt_items (db w') = rows
       /\ r_processing_status header = Some "needs_review"
       /\ length rows = 1%nat.
Proof.
  split; [reflexivity|]. split; [reflexivity|].
  destruct (persistence_step (Sample.reading None 2%float) "a.pdf" Sample.fresh
              "%PDF-1.4" (Sample.cafe_data 2%float)
              (log_request (vision_request "%PDF-1.4") Sample.fresh)
              eq_refl eq_refl eq_refl) as [Hok _].
  destruct (Hok eq_refl)
    as (header & rows & w' & Hrun & _ & _ & Hr & Hi & _ & _ & Hst & _ & _ & _ & Hall).
  exists header, rows, w'.
  split; [exact Hrun|]. split; [exact Hr|]. split; [exact Hi|].
  split; [exact Hst|].
  symmetry. exact (Forall2_length _ _ _ Hall).
Defined.

(** The precondition errors on a download folder: a path that names
    nothing, a directory, and a name that is taken. The directory gets
    the not-found error. *)
Lemma moveFileToReceipts_preconditions_witness :
  moveFileToReceipts Sample.offline "/tmp/nope.pdf" Sample.downloads =
    (Throw (JsError "Source file does not exist: /tmp/nope.pdf"), Sample.downloads)
  /\ fs Sample.downloads !! "/tmp/dir" = Some Directory
  /\ moveFileToReceipts Sample.offline "/tmp/dir" Sample.downloads =
       (Throw (JsError "Source file does not exist: /tmp/dir"), Sample.downloads)
  /\ moveFileToReceipts Sample.offline "/tmp/dir" Sample.downloads <>
       (Throw (JsError "Source is not a file: /tmp/dir"), Sample.downloads)
  /\ moveFileToReceipts Sample.offline "/tmp/a.pdf" Sample.downloads_taken =
       (Throw (JsError "File already exists in receipts: a.pdf"),
        Sample.downloads_taken).
Proof.
  split; [|split; [reflexivity|split; [|split]]].
  - exact (proj1 (moveFileToReceipts_preconditions
                    Sample.offline "/tmp/nope.pdf" Sample.downloads)
             eq_refl eq_refl).
  - exact (proj1 (proj1 (proj2 (moveFileToReceipts_preconditions
                                  Sample.offline "/tmp/dir" Sample.downloads))
                    eq_refl)).
  - exact (proj2 (proj1 (proj2 (moveFileToReceipts_preconditions
                                  Sample.offline "/tmp/dir" Sample.downloads))
                    eq_refl)).
  - exact (proj1 (proj2 (proj2 (moveFileToReceipts_preconditions
                                  Sample.offline "/tmp/a.pdf" Sample.downloads_taken)))
             "%PDF-1.4" "older" eq_refl eq_refl).
Defined.

(** Moving [/tmp/a.pdf] into an empty store. The copy succeeds. When the
    source is read-only the call then fails and the content is at both
    places; when only [rm] fails the call succeeds and leaves an empty
    file behind. *)
Lemma moveFileToReceipts_not_atomic_witness :
  fs Sample.downloads !! "/tmp/a.pdf" = Some (RegularFile "%PDF-1.4")
  /\ fs Sample.downloads !! destination Sample.readonly_source "/tmp/a.pdf" = None
  /\ (exists w',
        Bun_write_file Sample.readonly_source "/home/u/receipts/a.pdf" "/tmp/a.pdf"
          Sample.downloads = (Normal tt, w')
        /\ moveFileToReceipts Sample.readonly_source "/tmp/a.pdf" Sample.downloads =
             (Throw (JsError "Failed to move file: EACCES: permission denied"), w')
        /\ fs w' !! "/home/u/receipts/a.pdf" = Some (RegularFile "%PDF-1.4")
        /\ fs w' !! "/tmp/a.pdf" = Some (RegularFile "%PDF-1.4"))
  /\ (exists w',
        moveFileToReceipts Sample.broken_rm "/tmp/a.pdf" Sample.downloads =
          (Normal "a.pdf", w')
        /\ fs w' !! "/home/u/receipts/a.pdf" = Some (RegularFile "%PDF-1.4")
        /\ fs w' !! "/tmp/a.pdf" = Some (RegularFile EmptyString)).
Proof.
  split; [reflexivity|]. split; [reflexivity|]. split.
  - exists (snd (Bun_write_file Sample.readonly_source "/home/u/receipts/a.pdf"
                   "/tmp/a.pdf" Sample.downloads)).
    split; [vm_compute; reflexivity|].
    destruct (moveFileToReceipts_not_atomic Sample.readonly_source "/tmp/a.pdf"
                Sample.downloads "%PDF-1.4"
                (snd (Bun_write_file Sample.readonly_source
                        "/home/u/receipts/a.pdf" "/tmp/a.pdf" Sample.downloads))
                eq_refl eq_refl ltac:(vm_compute; reflexivity))
      as (Hd & Hs & Hthrow & Hfail & _).
    split; [|split; [exact Hd | exact Hs]].
    exact (Hthrow _ _ (Hfail (JsError "EACCES: permission denied") eq_refl)).
  - exists (snd (Bun_write Sample.broken_rm "/tmp/a.pdf" EmptyString
                   (snd (Bun_write_file Sample.broken_rm "/home/u/receipts/a.pdf"
                           "/tmp/a.pdf" Sample.downloads)))).
    destruct (moveFileToReceipts_not_atomic Sample.broken_rm "/tmp/a.pdf"
                Sample.downloads "%PDF-1.4"
                (snd (Bun_write_file Sample.broken_rm "/home/u/receipts/a.pdf"
                        "/tmp/a.pdf" Sample.downloads))
                eq_refl eq_refl ltac:(vm_compute; reflexivity))
      as (_ & _ & _ & _ & Hclear).
    destruct (Hclear (snd (Bun_write Sample.broken_rm "/tmp/a.pdf" EmptyString
                             (snd (Bun_write_file Sample.broken_rm
                                     "/home/u/receipts/a.pdf" "/tmp/a.pdf"
                                     Sample.downloads))))
                ltac:(vm_compute; reflexivity)) as (Hd & Hs & Hrm & _).
    split; [exact (Hrm eq_refl)|]. split; [exact Hd | exact Hs].
Defined.

(** The validator on the two receipts of Cafe X. *)
Example validate_cafe :
  validateReceiptData Sample.offline (Sample.cafe_data 10%float)
    = {| valid := true; issues := [] |}
  /\ validateReceiptData Sample.offline (Sample.cafe_data 2%float)
     = {| valid := false;
          issues := ["Items sum ($#.##) doesn't match total ($#.##)"] |}.
Proof. split; reflexivity. Qed.

(** A batch whose first document is missing and whose last is a repeat. *)
Example batch_of_three :
  exists ok w',
    processMultipleReceipts (Sample.reading None 10%float)
      ["b.pdf"; "a.pdf"; "a.pdf"] Sample.fresh
    = (Normal [failed_result "b.pdf"
                 (JsError "PDF file not found: /home/u/receipts/b.pdf");
               ok;
               already_processed "a.pdf" Sample.row_a], w')
    /\ success ok = true
    /\ length (receipts (db w')) = 1%nat
    /\ length (llm_requests w') = 1%nat.
Proof. eexists _, _. split; [vm_compute; reflexivity|]. now repeat split. Qed.

(** A reading whose price SQLite cannot store: the header insert is
    rolled back with the failed item insert, and the outcome says why. *)
Example nan_price_rolls_back :
  exists w',
    processReceipt (Sample.reading None PrimFloat.nan) "a.pdf" Sample.fresh =
      (Normal (failed_result "a.pdf"
                 (JsError "NOT NULL constraint failed: receipt_items.total_price")),
       w')
    /\ db w' = Sample.empty_db
    /\ length (llm_requests w') = 1%nat.
Proof. eexists. split; [vm_compute; reflexivity|]. now split. Qed.

(** The resolver on four pasted lines. *)
Example parse_pasted :
  parseFilePaths Sample.offline Sample.pasted Sample.downloads =
    (Normal ["/tmp/a.pdf"; "/tmp/a.pdf"; "/tmp/a.pdf"], Sample.downloads).
Proof. vm_compute. reflexivity. Qed.

(** A receipt of 0 with an empty currency, and an item of quantity 0. *)
Example insert_free :
  exists row d rows d',
    insertReceipt Sample.offline Sample.free_receipt Sample.empty_db = (Normal row, d)
    /\ r_total_amount row = None
    /\ r_currency row = Some "USD"
    /\ r_processing_status row = Some "pending"
    /\ insertReceiptItems 1 [Sample.gift] d = (Normal rows, d')
    /\ List.map i_quantity rows = [Some 1%float]
    /\ List.map i_unit_price rows = [None].
Proof. eexists _, _, _, _. repeat split. Qed.

(** [trim] on white space of one, two and three bytes: a space, a
    no-break space (U+00A0), an ideographic space (U+3000) and a byte
    order mark (U+FEFF) around a name that ends in a two-byte letter. *)
Example trim_white_space :
  Js.trim (" " +:+ Sample.no_break_space +:+ "/tmp/caf" +:+ Sample.e_acute
             +:+ Sample.ideographic_space +:+ nl +:+ Sample.byte_order_mark)
  = "/tmp/caf" +:+ Sample.e_acute
  /\ all_white_space (Sample.no_break_space +:+ " " +:+ Sample.byte_order_mark)
     = true
  /\ parseFilePaths Sample.offline ("/tmp/a.pdf" +:+ Sample.no_break_space)
       Sample.downloads = (Normal ["/tmp/a.pdf"], Sample.downloads).
Proof. split; [|split]; vm_compute; reflexivity. Qed.

(** The syntactic test on a few strings. *)
Example looksLikeFilePath_examples :
  looksLikeFilePath EmptyString = false
  /\ looksLikeFilePath "   " = false
  /\ looksLikeFilePath "just text" = false
  /\ looksLikeFilePath "/a/b" = true
  /\ looksLikeFilePath "./a" = true
  /\ looksLikeFilePath "  file:///a " = true.
Proof. repeat split. Qed.

(* ================================================================== *)
(** * More of the persistence layer *)
(* ================================================================== *)

Section ListFacts.
Context {A K : Type}.

Lemma find_app_last (f : A -> bool) l x :
  existsb f l = false -> f x = true -> List.find f (l ++ [x]) = Some x.
Proof.
  induction l as [|y l IH]; simpl; intros Hl Hx.
  - now rewrite Hx.
  - apply orb_false_iff in Hl as [Hy Hl]. rewrite Hy. now apply IH.
Qed.

Lemma find_app_miss (f : A -> bool) l x :
  f x = false -> List.find f (l ++ [x]) = List.find f l.
Proof.
  intros Hx. induction l as [|y l IH]; simpl.
  - now rewrite Hx.
  - now destruct (f y).
Qed.

Lemma find_filter_keep (q p : A -> bool) l :
  (forall x, q x = true -> p x = true) ->
  List.find q (List.filter p l) = List.find q l.
Proof.
  intros Hqp. induction l as [|x l IH]; simpl; [reflexivity|].
  destruct (p x) eqn:Ep; simpl.
  - now destruct (q x).
  - destruct (q x) eqn:Eq; [|exact IH].
    apply Hqp in Eq. congruence.
Qed.

Lemma filter_filter_keep (q p : A -> bool) l :
  (forall x, q x = true -> p x = true) ->
  List.filter q (List.filter p l) = List.filter q l.
Proof.
  intros Hqp. induction l as [|x l IH]; simpl; [reflexivity|].
  destruct (p x) eqn:Ep; simpl.
  - now rewrite IH.
  - destruct (q x) eqn:Eq; [|exact IH].
    apply Hqp in Eq. congruence.
Qed.

Lemma filter_none (p : A -> bool) l :
  List.filter p l = [] -> List.filter (fun x => negb (p x)) l = l.
Proof.
  induction l as [|x l IH]; simpl; [reflexivity|].
  destruct (p x); simpl; [discriminate|]. intros H. now rewrite IH.
Qed.

Lemma filter_all (p : A -> bool) l :
  Forall (fun x => p x = true) l -> List.filter p l = l.
Proof.
  induction 1 as [|x l Hx _ IH]; simpl; [reflexivity|]. now rewrite Hx, IH.
Qed.

Lemma filter_nothing (p : A -> bool) l :
  Forall (fun x => p x = false) l -> List.filter p l = [].
Proof.
  induction 1 as [|x l Hx _ IH]; simpl; [reflexivity|]. now rewrite Hx.
Qed.

Lemma Forall_filter_keep (P : A -> Prop) (p : A -> bool) l :
  Forall P l -> Forall P (List.filter p l).
Proof.
  induction 1 as [|x l Hx _ IH]; simpl; [constructor|].
  destruct (p x); [now constructor | exact IH].
Qed.

Lemma Forall_filter_test (p : A -> bool) l :
  Forall (fun x => p x = true) (List.filter p l).
Proof.
  induction l as [|x l IH]; simpl; [constructor|].
  destruct (p x) eqn:E; [now constructor | exact IH].
Qed.

Lemma map_filter_Forall (k : A -> K) (P : K -> Prop) (p : A -> bool) l :
  Forall P (List.map k l) -> Forall P (List.map k (List.filter p l)).
Proof.
  induction l as [|x l IH]; simpl; [constructor|].
  intros H. inversion H; subst.
  destruct (p x); simpl; [constructor|]; auto.
Qed.

Lemma NoDup_map_filter (k : A -> K) (p : A -> bool) l :
  NoDup (List.map k l) -> NoDup (List.map k (List.filter p l)).
Proof.
  induction l as [|x l IH]; simpl; [constructor|].
  intros H. apply NoDup_cons in H as [Hx Hl].
  destruct (p x); simpl; [|now apply IH].
  apply NoDup_cons. split; [|now apply IH].
  intros Hin. apply Hx.
  apply list_elem_of_In in Hin. apply list_elem_of_In.
  apply in_map_iff in Hin as (y & <- & Hy).
  apply filter_In in Hy as [Hy _]. now apply in_map.
Qed.

Lemma sorted_map_filter (R : K -> K -> Prop) (k : A -> K) (p : A -> bool) l :
  StronglySorted R (List.map k l) ->
  StronglySorted R (List.map k (List.filter p l)).
Proof.
  induction l as [|x l IH]; simpl; [constructor|].
  intros H. apply StronglySorted_inv in H as [Hl Hx].
  destruct (p x); simpl; [|now apply IH].
  constructor; [now apply IH | now apply map_filter_Forall].
Qed.

Lemma sorted_snoc (R : K -> K -> Prop) l x :
  StronglySorted R l -> Forall (fun y => R y x) l -> StronglySorted R (l ++ [x]).
Proof.
  induction 1 as [|y l Hl IH Hy]; simpl; intros Hx.
  - repeat constructor.
  - inversion Hx; subst. constructor; [now apply IH|].
    apply Forall_app. split; [assumption | now repeat constructor].
Qed.

Lemma NoDup_map_inj (k : A -> K) l x y :
  NoDup (List.map k l) -> x ∈ l -> y ∈ l -> k x = k y -> x = y.
Proof.
  induction l as [|z l IH]; intros Hnd Hx Hy Hk; [inversion Hx|].
  simpl in Hnd. apply NoDup_cons in Hnd as [Hz Hl].
  assert (Hmem : forall u, u ∈ l -> k u ∈ List.map k l).
  { intros u Hu. apply list_elem_of_In, in_map. now apply list_elem_of_In. }
  apply elem_of_cons in Hx as [->|Hx], Hy as [->|Hy].
  - reflexivity.
  - exfalso. apply Hz. rewrite Hk. now apply Hmem.
  - exfalso. apply Hz. rewrite <- Hk. now apply Hmem.
  - now apply IH.
Qed.

End ListFacts.

Lemma largest_id_bound ids n :
  Some n ∈ ids -> (n <= largest_id ids)%N.
Proof.
  unfold largest_id. induction ids as [|i ids IH]; intros Hin; [inversion Hin|].
  simpl. apply elem_of_cons in Hin as [<-|Hin]; simpl; [lia|].
  specialize (IH Hin). lia.
Qed.

Lemma largest_id_key {A} (id_of : A -> option N) (l : list A) :
  Forall (fun x => (default 0%N (id_of x) <= largest_id (List.map id_of l))%N) l.
Proof.
  unfold largest_id. induction l as [|x l IH]; simpl; constructor; [lia|].
  eapply Forall_impl; [exact IH|]. simpl. intros; lia.
Qed.

(** The next id is above every id of the table and above the counter. *)
Lemma next_id_fresh {A} (id_of : A -> option N) seq (l : list A) :
  (seq < next_id seq (List.map id_of l))%N
  /\ Forall (fun x => (default 0%N (id_of x) < next_id seq (List.map id_of l))%N) l.
Proof.
  unfold next_id. split; [lia|].
  eapply Forall_impl; [apply (largest_id_key id_of l)|]. cbv beta. intros x Hx. lia.
Qed.

Lemma receipt_exists_app n d rows its s1 s2 :
  receipt_exists n d = true ->
  receipt_exists n {| receipts := receipts d ++ rows; receipt_items := its;
                      seq_receipts := s1; seq_receipt_items := s2 |} = true.
Proof.
  unfold receipt_exists. simpl. rewrite existsb_app. now intros ->.
Qed.

Lemma wf_insert_receipt rt receipt d :
  db_wf d -> db_wf (snd (insertReceipt rt receipt d)).
Proof.
  intros [Hf Ho Hi Hio Hii Hfk]. rewrite insertReceipt_run.
  destruct (existsb _ _) eqn:Hnew; [now constructor|].
  cbv zeta. simpl snd.
  destruct (next_id_fresh r_id (seq_receipts d) (receipts d)) as [Hseq Hall].
  set (id := next_id (seq_receipts d) (List.map r_id (receipts d))) in *.
  constructor; simpl.
  - rewrite map_app. simpl. apply NoDup_app. split; [assumption|].
    split; [|apply NoDup_singleton].
    intros name Hin Hin'. apply list_elem_of_singleton in Hin'. subst name.
    apply list_elem_of_In, in_map_iff in Hin as (r & Hr & Hin).
    assert (existsb (same_filename (r_filename receipt)) (receipts d) = true).
    { apply existsb_exists. exists r. split; [assumption|].
      unfold same_filename. now apply String.eqb_eq. }
    congruence.
  - rewrite map_app. simpl. apply sorted_snoc; [assumption|].
    apply Forall_map. exact Hall.
  - apply Forall_app. split.
    + eapply Forall_impl; [exact Hi|]. simpl. intros r (n & Hn & Hb).
      exists n. split; [assumption|lia].
    + repeat constructor. exists id. split; [reflexivity|lia].
  - assumption.
  - assumption.
  - eapply Forall_impl; [exact Hfk|]. simpl. intros i (n & Hn & He).
    exists n. split; [assumption|]. now apply receipt_exists_app.
Qed.

Lemma wf_insert_item rid item d c d' :
  db_wf d ->
  sql_insert_item (item_params rid item) d = (c, d') -> db_wf d'.
Proof.
  intros [Hf Ho Hi Hio Hii Hfk]. rewrite sql_insert_item_run.
  destruct (price_is_nan item); [intros [= _ <-]; now constructor|].
  destruct (receipt_exists rid d) eqn:Hex; simpl;
    [|intros [= _ <-]; now constructor].
  intros [= _ <-].
  destruct (next_id_fresh i_id (seq_receipt_items d) (receipt_items d))
    as [Hseq Hall].
  set (id := next_id (seq_receipt_items d) (List.map i_id (receipt_items d))) in *.
  constructor; simpl; try assumption.
  - rewrite map_app. simpl. apply sorted_snoc; [assumption|].
    apply Forall_map. exact Hall.
  - apply Forall_app. split.
    + eapply Forall_impl; [exact Hii|]. simpl. intros r (n & Hn & Hb).
      exists n. split; [assumption|lia].
    + repeat constructor. exists id. split; [reflexivity|lia].
  - apply Forall_app. split.
    + eapply Forall_impl; [exact Hfk|]. simpl. intros i (n & Hn & He).
      exists n. split; assumption.
    + repeat constructor. exists rid. split; [reflexivity | exact Hex].
Qed.

Lemma wf_insert_items_loop rid its :
  forall acc d c d',
    db_wf d -> insert_items_loop rid its acc d = (c, d') -> db_wf d'.
Proof.
  induction its as [|item rest IH]; intros acc d c d' Hwf.
  - simpl. now intros [= _ <-].
  - simpl insert_items_loop. unfold mbind, Eff_bind.
    destruct (sql_insert_item (item_params rid item) d) as [[row|e] d1] eqn:E.
    + apply (IH _ _ _ _ (wf_insert_item _ _ _ _ _ Hwf E)).
    + intros [= _ <-]. exact (wf_insert_item _ _ _ _ _ Hwf E).
Qed.

Lemma has_id_exclusive n id r :
  n <> id -> receipt_has_id n r = true -> negb (receipt_has_id id r) = true.
Proof.
  unfold receipt_has_id. intros Hne Hn.
  apply bool_decide_eq_true in Hn. apply negb_true_iff, bool_decide_eq_false.
  congruence.
Qed.

Lemma existsb_filter_keep {A} (q p : A -> bool) l :
  (forall x, q x = true -> p x = true) ->
  existsb q (List.filter p l) = existsb q l.
Proof.
  intros Hqp. induction l as [|x l IH]; simpl; [reflexivity|].
  destruct (p x) eqn:Ep; simpl; [now rewrite IH|].
  destruct (q x) eqn:Eq; [|exact IH]. apply Hqp in Eq. congruence.
Qed.

Lemma existsb_filtered {A} (p : A -> bool) l :
  existsb p l = match List.filter p l with [] => false | _ :: _ => true end.
Proof.
  induction l as [|x l IH]; simpl; [reflexivity|]. now destruct (p x).
Qed.

Lemma existsb_map_same {A} (p : A -> bool) (f : A -> A) l :
  (forall x, p (f x) = p x) -> existsb p (List.map f l) = existsb p l.
Proof.
  intros H. induction l as [|x l IH]; simpl; [reflexivity|]. now rewrite H, IH.
Qed.

Lemma wf_update_status id status d :
  db_wf d -> db_wf (snd (updateReceiptStatus id status d)).
Proof.
  intros [Hf Ho Hi Hio Hii Hfk]. simpl.
  set (f := fun r => if receipt_has_id id r then set_status status r else r).
  assert (Hname : forall r, r_filename (f r) = r_filename r)
    by (intros r; unfold f; now destruct (receipt_has_id id r)).
  assert (Hid : forall r, r_id (f r) = r_id r)
    by (intros r; unfold f; now destruct (receipt_has_id id r)).
  constructor; simpl; try assumption.
  - rewrite map_map. now rewrite (map_ext _ _ Hname).
  - rewrite map_map. unfold receipt_key.
    now rewrite (map_ext (fun r => default 0%N (r_id (f r))) (fun r => default 0%N (r_id r)))
      by (intros r; now rewrite Hid).
  - apply Forall_map. eapply Forall_impl; [exact Hi|]. simpl.
    intros r Hr. now rewrite Hid.
  - eapply Forall_impl; [exact Hfk|]. simpl. intros i (n & Hn & He).
    exists n. split; [assumption|].
    unfold receipt_exists in *. simpl. rewrite existsb_map_same; [exact He|].
    intros r. now rewrite Hid.
Qed.

Lemma wf_delete_receipt id d :
  db_wf d -> db_wf (snd (deleteReceipt id d)).
Proof.
  intros [Hf Ho Hi Hio Hii Hfk].
  assert (Hkeep : Forall (fun i => exists n, i_receipt_id i = Some n
                              /\ n <> id
                              /\ receipt_exists n d = true)
            match List.filter (receipt_has_id id) (receipts d) with
            | [] => receipt_items d
            | _ :: _ => List.filter (fun i => negb (item_of_receipt id i)) (receipt_items d)
            end).
  { destruct (List.filter (receipt_has_id id) (receipts d)) as [|g gone] eqn:Eg.
    - eapply Forall_impl; [exact Hfk|]. simpl. intros i (n & Hn & He).
      exists n. repeat split; try assumption. intros ->.
      unfold receipt_exists in He.
      rewrite (existsb_filtered (receipt_has_id id)), Eg in He. discriminate.
    - apply Forall_forall. intros i Hin.
      apply list_elem_of_In, filter_In in Hin as [Hin Hnot].
      apply list_elem_of_In in Hin.
      rewrite Forall_forall in Hfk. destruct (Hfk i Hin) as (n & Hn & He).
      exists n. repeat split; try assumption. intros ->.
      unfold item_of_receipt in Hnot.
      apply negb_true_iff, bool_decide_eq_false in Hnot. congruence. }
  constructor; simpl.
  - now apply NoDup_map_filter.
  - now apply sorted_map_filter.
  - now apply Forall_filter_keep.
  - destruct (List.filter (receipt_has_id id) (receipts d));
      [assumption | now apply sorted_map_filter].
  - destruct (List.filter (receipt_has_id id) (receipts d));
      [assumption | now apply Forall_filter_keep].
  - eapply Forall_impl; [exact Hkeep|]. simpl. intros i (n & Hn & Hne & He).
    exists n. split; [assumption|].
    unfold receipt_exists in *. simpl.
    rewrite existsb_filter_keep; [exact He|].
    intros r. apply (has_id_exclusive n id r Hne).
Qed.

Lemma wf_delete_items rid d :
  db_wf d -> db_wf (snd (deleteReceiptItems rid d)).
Proof.
  intros [Hf Ho Hi Hio Hii Hfk].
  constructor; simpl; try assumption.
  - now apply sorted_map_filter.
  - now apply Forall_filter_keep.
  - now apply Forall_filter_keep.
Qed.

(** X1. The schema's guarantees are an invariant of the persistence
    layer: whichever of its five writes runs (insertReceipt,
    insertReceiptItems, updateReceiptStatus, deleteReceipt,
    deleteReceiptItems), with whatever arguments and whether it returns
    or throws, a database with unique filenames, ids in increasing order
    up to the AUTOINCREMENT counters and every item owned by a receipt is
    left with these properties (a cascading delete leaves no orphan
    item, a rolled-back insert leaves nothing). *)
Theorem persistence_keeps_wf (rt : Runtime) (op : DbWrite) (d : Database) :
  db_wf d -> db_wf (run_write rt op d).
Proof.
  intros Hwf. destruct op as [receipt|rid its|id status|id|rid]; simpl.
  - now apply wf_insert_receipt.
  - unfold insertReceiptItems, transaction.
    destruct (insert_items_loop rid its [] d) as [[rows|e] d'] eqn:E; simpl.
    + exact (wf_insert_items_loop _ _ _ _ _ _ Hwf E).
    + exact Hwf.
  - now apply wf_update_status.
  - now apply wf_delete_receipt.
  - now apply wf_delete_items.
Qed.

Lemma order_by_id_sorted l :
  StronglySorted N.lt (List.map item_key l) -> order_by_id l = l.
Proof.
  induction l as [|x l IH]; simpl; [reflexivity|].
  intros H. apply StronglySorted_inv in H as [Hl Hx]. rewrite (IH Hl).
  destruct l as [|y l]; simpl; [reflexivity|].
  inversion Hx; subst. now rewrite (proj2 (N.ltb_lt _ _)).
Qed.

Lemma insert_by_id_length x l : length (insert_by_id x l) = S (length l).
Proof.
  induction l as [|y l IH]; simpl; [reflexivity|].
  destruct (item_key x <? item_key y)%N; simpl; [reflexivity | now rewrite IH].
Qed.

Lemma order_by_id_length l : length (order_by_id l) = length l.
Proof.
  induction l as [|x l IH]; simpl; [reflexivity|].
  now rewrite insert_by_id_length, IH.
Qed.

Lemma select_items_sorted rid d :
  db_wf d -> order_by_id (select_items rid d) = select_items rid d.
Proof.
  intros Hwf. apply order_by_id_sorted, sorted_map_filter, (wf_item_order d Hwf).
Qed.

Lemma item_exclusive n id i :
  n <> id -> item_of_receipt n i = true -> negb (item_of_receipt id i) = true.
Proof.
  unfold item_of_receipt. intros Hne Hn.
  apply bool_decide_eq_true in Hn. apply negb_true_iff, bool_decide_eq_false.
  congruence.
Qed.

Lemma stored_as_owner rid item row :
  stored_as rid item row -> item_of_receipt rid row = true.
Proof. intros [n ->]. unfold item_of_receipt. now apply bool_decide_eq_true. Qed.

Lemma stored_as_other rid rid2 item row :
  rid2 <> rid -> stored_as rid item row -> item_of_receipt rid2 row = false.
Proof.
  intros Hne [n ->]. unfold item_of_receipt. apply bool_decide_eq_false.
  simpl. congruence.
Qed.

(** X2. Inserting a receipt and looking it up by filename is a round
    trip: after a successful [insertReceipt], [getReceiptByFilename] on
    that filename returns exactly the row that was returned, lookups of
    every other filename answer as before, the row's id is not the id of
    any earlier row, and a further insert under the same filename throws
    and leaves the database alone. *)
Theorem insert_then_lookup (rt : Runtime) (receipt : Receipt) (d : Database)
  (row : Receipt) (d' : Database) :
  insertReceipt rt receipt d = (Normal row, d') ->
  getReceiptByFilename (r_filename receipt) d' = (Normal (Some row), d')
  /\ (forall other,
        other <> r_filename receipt ->
        fst (getReceiptByFilename other d') = fst (getReceiptByFilename other d))
  /\ (forall r, r ∈ receipts d -> r_id r <> r_id row)
  /\ (forall again,
        r_filename again = r_filename receipt ->
        exists e, insertReceipt rt again d' = (Throw e, d')).
Proof.
  rewrite insertReceipt_run.
  destruct (existsb _ _) eqn:Hnew; [discriminate|]. cbv zeta.
  intros [= <- <-].
  assert (Hsame : same_filename (r_filename receipt)
            (receipt_row rt (next_id (seq_receipts d) (List.map r_id (receipts d)))
                         (receipt_params receipt)) = true).
  { unfold same_filename. simpl. apply String.eqb_refl. }
  split; [|split; [|split]].
  - unfold getReceiptByFilename, select_receipt_by_filename. simpl.
    now rewrite (find_app_last _ _ _ Hnew Hsame).
  - intros other Hne.
    unfold getReceiptByFilename, select_receipt_by_filename. simpl.
    rewrite find_app_miss; [reflexivity|].
    unfold same_filename. simpl. apply String.eqb_neq. congruence.
  - intros r Hin Heq. simpl in Heq.
    destruct (next_id_fresh r_id (seq_receipts d) (receipts d)) as [_ Hall].
    rewrite Forall_forall in Hall. specialize (Hall r Hin).
    rewrite Heq in Hall. simpl in Hall. lia.
  - intros again Hname. rewrite insertReceipt_run. simpl receipts.
    rewrite existsb_app, Hname. simpl existsb. rewrite Hsame. simpl.
    rewrite orb_true_r. now eexists.
Qed.

(** X3. [getReceiptItems] after [insertReceiptItems], in a well-formed
    database: the items of the receipt are the ones it had, followed by
    the rows just returned, in the order they were given (the new ids are
    the largest, so ORDER BY id keeps them last); the items of any other
    receipt are as before. *)
Theorem items_after_insert (rid : N) (its : list ReceiptItem) (d : Database)
  (rows : list ReceiptItem) (d' : Database) :
  db_wf d ->
  insertReceiptItems rid its d = (Normal rows, d') ->
  (exists before,
      getReceiptItems rid d = (Normal before, d)
      /\ getReceiptItems rid d' = (Normal (before ++ rows), d'))
  /\ length rows = length its
  /\ (forall other,
        other <> rid ->
        fst (getReceiptItems other d') = fst (getReceiptItems other d)).
Proof.
  intros Hwf. unfold insertReceiptItems, transaction.
  destruct (insert_items_loop rid its [] d) as [[out|e] d0] eqn:E; [|discriminate].
  intros [= <- <-].
  pose proof (wf_insert_items_loop _ _ _ _ _ _ Hwf E) as Hwf'.
  apply insert_items_loop_normal in E as (rows & -> & _ & _ & Hi & Hall).
  simpl app.
  assert (Hsel : forall n, select_items n d0 =
                           select_items n d ++ List.filter (item_of_receipt n) rows).
  { intros n. unfold select_items. now rewrite Hi, List.filter_app. }
  split; [|split].
  - exists (select_items rid d). unfold getReceiptItems.
    rewrite (select_items_sorted _ _ Hwf), (select_items_sorted _ _ Hwf'), Hsel.
    split; [reflexivity|]. repeat f_equal. apply filter_all.
    clear -Hall. induction Hall; constructor; eauto using stored_as_owner.
  - symmetry. now apply Forall2_length in Hall.
  - intros other Hne. unfold getReceiptItems. simpl.
    rewrite Hsel. rewrite (filter_nothing (item_of_receipt other) rows).
    + now rewrite app_nil_r.
    + clear -Hall Hne. induction Hall; constructor; eauto using stored_as_other.
Qed.

Lemma at_most_one_id id l :
  StronglySorted N.lt (List.map receipt_key l) ->
  length (List.filter (receipt_has_id id) l) = if existsb (receipt_has_id id) l then 1%nat else 0%nat.
Proof.
  induction l as [|r l IH]; simpl; [reflexivity|].
  intros H. apply StronglySorted_inv in H as [Hl Hr].
  destruct (receipt_has_id id r) eqn:E; simpl; [|now apply IH].
  rewrite filter_nothing; [reflexivity|].
  apply (proj1 (Forall_map _ _ _)) in Hr. eapply Forall_impl; [exact Hr|]. simpl.
  intros r' Hlt. unfold receipt_has_id in *.
  apply bool_decide_eq_true in E. apply bool_decide_eq_false. intros E'.
  unfold receipt_key in Hlt. rewrite E, E' in Hlt. simpl in Hlt. lia.
Qed.

Lemma find_filter_out {A} (p : A -> bool) l :
  List.find p (List.filter (fun x => negb (p x)) l) = None.
Proof.
  induction l as [|x l IH]; simpl; [reflexivity|].
  destruct (p x) eqn:E; simpl; [exact IH | now rewrite E].
Qed.

Lemma filter_filter_out {A} (p : A -> bool) l :
  List.filter p (List.filter (fun x => negb (p x)) l) = [].
Proof.
  induction l as [|x l IH]; simpl; [reflexivity|].
  destruct (p x) eqn:E; simpl; [exact IH | now rewrite E].
Qed.

(** X4. [deleteReceipt] in a well-formed database: afterwards the id is
    gone ([getReceiptWithItems] answers null) together with all its items
    (cascade), its filename is free again, every other receipt is read
    back with the same items as before, and [changes] is 1 if the receipt
    existed and 0 otherwise. *)
Theorem delete_receipt_cascades (id : N) (d : Database) :
  db_wf d ->
  let d' := snd (deleteReceipt id d) in
  fst (getReceiptWithItems id d') = Normal None
  /\ fst (getReceiptItems id d') = Normal []
  /\ fst (deleteReceipt id d) =
       Normal {| changes := if receipt_exists id d then 1%nat else 0%nat |}
  /\ (forall r, r ∈ receipts d -> r_id r = Some id ->
                fst (getReceiptByFilename (r_filename r) d') = Normal None)
  /\ (forall other,
        other <> id ->
        fst (getReceiptWithItems other d') = fst (getReceiptWithItems other d)
        /\ fst (getReceiptItems other d') = fst (getReceiptItems other d)).
Proof.
  intros Hwf d'.
  assert (Hitems : select_items id d' = []).
  { unfold select_items, d'. simpl.
    destruct (List.filter (receipt_has_id id) (receipts d)) as [|g gone] eqn:Eg.
    - apply filter_nothing. eapply Forall_impl; [exact (wf_foreign_keys d Hwf)|].
      simpl. intros i (n & Hn & He). unfold item_of_receipt.
      apply bool_decide_eq_false. intros Hi.
      assert (n = id) by congruence. subst n.
      unfold receipt_exists in He.
      rewrite (existsb_filtered (receipt_has_id id)), Eg in He. discriminate.
    - apply filter_filter_out. }
  assert (Hother : forall other, other <> id ->
                     select_items other d' = select_items other d).
  { intros other Hne. unfold select_items, d'. simpl.
    destruct (List.filter (receipt_has_id id) (receipts d)); [reflexivity|].
    apply filter_filter_keep. intros i. now apply item_exclusive. }
  split; [|split; [|split; [|split]]].
  - unfold getReceiptWithItems, d'. simpl. now rewrite find_filter_out.
  - unfold getReceiptItems. simpl. now rewrite Hitems.
  - simpl. now rewrite (at_most_one_id id _ (wf_receipt_order d Hwf)).
  - intros r Hin Hid.
    unfold getReceiptByFilename, select_receipt_by_filename, d'. simpl.
    destruct (List.find _ _) as [r'|] eqn:Ef; [|reflexivity]. exfalso.
    apply find_some in Ef as [Hin' Hname].
    apply filter_In in Hin' as [Hin' Hnot].
    unfold same_filename in Hname. apply String.eqb_eq in Hname.
    apply list_elem_of_In in Hin'.
    assert (r' = r)
      by exact (NoDup_map_inj r_filename _ _ _ (wf_filenames d Hwf) Hin' Hin Hname).
    subst r'. unfold receipt_has_id in Hnot.
    apply negb_true_iff, bool_decide_eq_false in Hnot. contradiction.
  - intros other Hne. split.
    + unfold getReceiptWithItems. rewrite (Hother _ Hne). unfold d' at 1. simpl.
      rewrite find_filter_keep; [|intros r; now apply has_id_exclusive].
      now destruct (List.find _ _).
    + unfold getReceiptItems. simpl. now rewrite (Hother _ Hne).
Qed.

Lemma find_map_same {A} (p : A -> bool) (f : A -> A) l :
  (forall x, p (f x) = p x) ->
  List.find p (List.map f l) = option_map f (List.find p l).
Proof.
  intros H. induction l as [|x l IH]; simpl; [reflexivity|].
  rewrite H. now destruct (p x).
Qed.

Lemma map_unchanged {A} (p : A -> bool) (f : A -> A) l :
  List.find p l = None -> List.map (fun x => if p x then f x else x) l = l.
Proof.
  induction l as [|x l IH]; simpl; [reflexivity|].
  destruct (p x); [discriminate|]. intros H. now rewrite IH.
Qed.

Lemma find_none_filter {A} (p : A -> bool) l :
  List.find p l = None -> List.filter p l = [].
Proof.
  induction l as [|x l IH]; simpl; [reflexivity|].
  destruct (p x); [discriminate | exact IH].
Qed.

(** X5. [updateReceiptStatus] touches one field of one row: reading the
    receipt back by id gives the row it was with the new status and the
    same items; every other receipt, every item and every lookup by
    filename (status apart) is as before; an id that names no receipt
    changes nothing and reports 0 changes. *)
Theorem update_status_read_back (id : N) (status : string) (d : Database) :
  let d' := snd (updateReceiptStatus id status d) in
  receipt_items d' = receipt_items d
  /\ (forall r,
        List.find (receipt_has_id id) (receipts d) = Some r ->
        fst (getReceiptWithItems id d') =
          Normal (Some {| rw_receipt := set_status status r;
                          rw_items := select_items id d |})
        /\ r_processing_status (set_status status r) = Some status
        /\ r_filename (set_status status r) = r_filename r)
  /\ (List.find (receipt_has_id id) (receipts d) = None ->
      updateReceiptStatus id status d = (Normal {| changes := 0 |}, d))
  /\ (forall other,
        other <> id ->
        fst (getReceiptWithItems other d') = fst (getReceiptWithItems other d))
  /\ (forall name,
        fst (getReceiptByFilename name d') =
          Normal (option_map
                    (fun r => if receipt_has_id id r then set_status status r else r)
                    (List.find (same_filename name) (receipts d)))).
Proof.
  intros d'.
  set (f := fun r => if receipt_has_id id r then set_status status r else r).
  assert (Hid : forall n r, receipt_has_id n (f r) = receipt_has_id n r)
    by (intros n r; unfold f; now destruct (receipt_has_id id r)).
  assert (Hname : forall name r, same_filename name (f r) = same_filename name r)
    by (intros n r; unfold f; now destruct (receipt_has_id id r)).
  split; [reflexivity|]. split; [|split; [|split]].
  - intros r Hfind. split; [|now split].
    unfold getReceiptWithItems, d'. simpl. fold f.
    rewrite (find_map_same _ f _ (Hid id)), Hfind. simpl.
    apply find_some in Hfind as [_ Hr]. unfold f. now rewrite Hr.
  - intros Hnone. unfold updateReceiptStatus.
    rewrite (find_none_filter _ _ Hnone), (map_unchanged _ _ _ Hnone). simpl.
    now destruct d.
  - intros other Hne. unfold getReceiptWithItems, d'. simpl. fold f.
    rewrite (find_map_same _ f _ (Hid other)).
    destruct (List.find (receipt_has_id other) (receipts d)) as [r|] eqn:E;
      [|reflexivity].
    simpl. apply find_some in E as [_ Hr]. unfold f.
    destruct (receipt_has_id id r) eqn:E'; [|reflexivity]. exfalso.
    unfold receipt_has_id in *.
    apply bool_decide_eq_true in Hr, E'. congruence.
  - intros name. unfold getReceiptByFilename, select_receipt_by_filename, d'.
    simpl. fold f. now rewrite (find_map_same _ f _ (Hname name)).
Qed.

(** X6. [deleteReceiptItems] removes exactly the items of one receipt:
    afterwards [getReceiptItems] finds none for it, [changes] is the
    number of items it had, the receipts are untouched and the items of
    every other receipt are read back as before. *)
Theorem delete_items_read_back (rid : N) (d : Database) :
  let d' := snd (deleteReceiptItems rid d) in
  receipts d' = receipts d
  /\ fst (getReceiptItems rid d') = Normal []
  /\ (forall before,
        fst (getReceiptItems rid d) = Normal before ->
        fst (deleteReceiptItems rid d) = Normal {| changes := length before |})
  /\ (forall other,
        other <> rid ->
        fst (getReceiptItems other d') = fst (getReceiptItems other d)).
Proof.
  intros d'. split; [reflexivity|]. split; [|split].
  - unfold getReceiptItems, select_items, d'. simpl.
    now rewrite filter_filter_out.
  - unfold getReceiptItems. simpl. intros before [= <-].
    now rewrite order_by_id_length.
  - intros other Hne. unfold getReceiptItems, select_items, d'. simpl.
    rewrite filter_filter_keep; [reflexivity|].
    intros i. now apply item_exclusive.
Qed.

(* ================================================================== *)
(** * More of the orchestrator *)
(* ================================================================== *)

(** What a successful [processReceipt] did: the filename had no receipt,
    and the database has one more header and one more row per item. *)
Lemma processReceipt_stored rt name w r w' :
  processReceipt rt name w = (Normal r, w') ->
  success r = true ->
  List.find (same_filename name) (receipts (db w)) = None
  /\ exists data rows,
       let v := validateReceiptData rt data in
       let rid := next_id (seq_receipts (db w)) (List.map r_id (receipts (db w))) in
       let header := receipt_row rt rid (receipt_params (header_of name data v)) in
       r = processed_result name rid data v
       /\ receipts (db w') = receipts (db w) ++ [header]
       /\ receipt_items (db w') = receipt_items (db w) ++ rows
       /\ Forall2 (stored_as rid) (List.map item_of_extracted (items data)) rows
       /\ fs w' = fs w.
Proof.
  destruct (List.find (same_filename name) (receipts (db w))) as [found|] eqn:Hfind.
  - unfold processReceipt.
    rewrite (try_catch_normal _ _ _ _ _
               (processReceipt_try_existing rt name w found Hfind)).
    intros [= <- <-]. discriminate.
  - rewrite processReceipt_unfold, (processReceipt_try_fresh _ _ _ Hfind).
    cbv zeta.
    destruct (fs w !! join rt (RECEIPTS_DIR rt) name) as [[c|]|];
      try (intros [= <- <-]; discriminate).
    destruct (extractReceiptDataWithVision_run rt (toBase64 rt c) (Some EmptyString) w)
      as (c0 & -> & _).
    destruct c0 as [data|e]; [|intros [= <- <-]; discriminate].
    set (w1 := log_request _ w).
    pose proof (insert_transaction_run rt name data (validateReceiptData rt data)
                  (db w1) (find_none_existsb _ _ Hfind)) as Htx.
    cbv zeta in Htx.
    destruct (has_nan_price (items data)).
    + destruct Htx as (e & ->). intros [= <- <-]. discriminate.
    + destruct Htx as (rows & d' & -> & Hr & Hi & Hall).
      intros [= <- <-] _. split; [reflexivity|].
      exists data, rows. cbv zeta. now repeat split.
Qed.

Lemma wf_insert_body rt name data v d c d' :
  db_wf d ->
  existsb (same_filename name) (receipts d) = false ->
  insert_body rt name data v d = (c, d') -> db_wf d'.
Proof.
  intros Hwf Hnew. rewrite (insert_body_run _ _ _ _ _ Hnew). cbv zeta.
  pose proof (wf_insert_receipt rt (header_of name data v) d Hwf) as Hwf1.
  rewrite insertReceipt_run in Hwf1. simpl r_filename in Hwf1.
  rewrite Hnew in Hwf1. cbv zeta in Hwf1. simpl snd in Hwf1.
  destruct (0 <? length (items data))%nat; [|now intros [= _ <-]].
  unfold insertReceiptItems, transaction.
  destruct (insert_items_loop _ _ _ _) as [[out|e] d2] eqn:E.
  - intros [= _ <-]. exact (wf_insert_items_loop _ _ _ _ _ _ Hwf1 E).
  - now intros [= _ <-].
Qed.

(** [processReceipt] keeps the database well formed. *)
Lemma wf_processReceipt rt name w :
  db_wf (db w) -> db_wf (db (snd (processReceipt rt name w))).
Proof.
  intros Hwf.
  destruct (List.find (same_filename name) (receipts (db w))) as [found|] eqn:Hfind.
  - unfold processReceipt.
    now rewrite (try_catch_normal _ _ _ _ _
                   (processReceipt_try_existing rt name w found Hfind)).
  - rewrite processReceipt_unfold, (processReceipt_try_fresh _ _ _ Hfind).
    cbv zeta.
    destruct (fs w !! join rt (RECEIPTS_DIR rt) name) as [[c|]|]; try exact Hwf.
    destruct (extractReceiptDataWithVision_run rt (toBase64 rt c) (Some EmptyString) w)
      as (c0 & -> & _).
    destruct c0 as [data|e]; [|exact Hwf].
    unfold transaction.
    destruct (insert_body _ _ _ _ _) as [[rid|e] d'] eqn:E; simpl; [|exact Hwf].
    eapply wf_insert_body; [exact Hwf| |exact E].
    now apply find_none_existsb.
Qed.

Lemma smaller_ids_absent id (l : list Receipt) :
  Forall (fun r => (default 0%N (r_id r) < id)%N) l ->
  existsb (receipt_has_id id) l = false.
Proof.
  induction 1 as [|r l Hr _ IH]; simpl; [reflexivity|].
  rewrite IH, orb_false_r. unfold receipt_has_id.
  apply bool_decide_eq_false. intros E. rewrite E in Hr. simpl in Hr. lia.
Qed.

Lemma fresh_id_absent seq l :
  existsb (receipt_has_id (next_id seq (List.map r_id l))) l = false.
Proof. apply smaller_ids_absent, (next_id_fresh r_id seq l). Qed.

(** X7. End to end: in a well-formed database, after [processReceipt]
    reports success with a receipt id, [getReceiptWithItems] on that id
    reads back the stored header (that filename, status complete or
    needs_review) with exactly one item row per extracted item, in order,
    each carrying the item's name and total price; and
    [getReceiptByFilename] finds the same header. *)
Theorem processed_receipt_reads_back (rt : Runtime) (name : string) (w : World)
  (r : ProcessingResult) (w' : World) :
  db_wf (db w) ->
  processReceipt rt name w = (Normal r, w') ->
  success r = true ->
  exists rid data header rows,
    receiptId r = Some rid
    /\ extractedData r = Some data
    /\ fst (getReceiptWithItems rid (db w')) =
         Normal (Some {| rw_receipt := header; rw_items := rows |})
    /\ fst (getReceiptByFilename name (db w')) = Normal (Some header)
    /\ r_id header = Some rid
    /\ r_filename header = name
    /\ (r_processing_status header = Some "complete"
        \/ r_processing_status header = Some "needs_review")
    /\ Forall2 (fun x row =>
                  i_receipt_id row = Some rid
                  /\ i_item_name row = x_item_name x
                  /\ i_total_price row = x_total_price x)
               (items data) rows.
Proof.
  intros Hwf Hrun Hok.
  destruct (processReceipt_stored _ _ _ _ _ Hrun Hok)
    as (Hnew & data & rows & Hres).
  cbv zeta in Hres. destruct Hres as (-> & Hr & Hi & Hall & _).
  set (rid := next_id (seq_receipts (db w)) (List.map r_id (receipts (db w)))) in *.
  set (header := receipt_row rt rid _) in *.
  exists rid, data, header, rows.
  split; [reflexivity|]. split; [reflexivity|].
  assert (Hsel : select_items rid (db w') = rows).
  { unfold select_items. rewrite Hi, List.filter_app.
    rewrite filter_nothing, filter_all; [reflexivity| |].
    - clear -Hall. induction Hall; constructor; eauto using stored_as_owner.
    - eapply Forall_impl; [exact (wf_foreign_keys _ Hwf)|]. simpl.
      intros i (n & Hn & He). unfold item_of_receipt.
      apply bool_decide_eq_false. intros Hi'.
      assert (n = rid) by congruence. subst n.
      unfold receipt_exists in He.
      pose proof (fresh_id_absent (seq_receipts (db w)) (receipts (db w))) as Hf.
      fold rid in Hf. unfold receipt_has_id in Hf. congruence. }
  split; [|split; [|split; [|split; [|split]]]].
  - unfold getReceiptWithItems. rewrite Hsel, Hr.
    rewrite find_app_last; [reflexivity| |].
    + apply fresh_id_absent.
    + unfold receipt_has_id. now apply bool_decide_eq_true.
  - unfold getReceiptByFilename, select_receipt_by_filename. simpl. rewrite Hr.
    rewrite find_app_last; [reflexivity| |].
    + now apply find_none_existsb.
    + unfold same_filename. simpl. apply String.eqb_refl.
  - reflexivity.
  - reflexivity.
  - simpl. unfold status_of.
    destruct (valid (validateReceiptData rt data)); [now left | now right].
  - clear -Hall. revert rows Hall.
    induction (items data) as [|x its IH]; intros rows Hall;
      inversion Hall; subst; constructor.
    + now apply stored_as_extracted.
    + now apply IH.
Qed.

Lemma filter_unprocessed_run names d :
  filter_unprocessed names d = (Normal (List.filter (listed_unprocessed d) names), d).
Proof.
  induction names as [|name rest IH]; simpl; [reflexivity|].
  unfold mbind, Eff_bind, is_unprocessed, mbind, Eff_bind,
    getReceiptByFilename, select_receipt_by_filename. simpl.
  rewrite IH. unfold listed_unprocessed, mret, Eff_ret.
  now destruct (List.find _ _) as [found|]; [destruct (bool_decide _)|].
Qed.

Lemma getUnprocessedReceipts_run scan rt w :
  getUnprocessedReceipts scan rt w =
    (match scan (fs w) (getReceiptsDir rt) with
     | Normal allPdfs => Normal (List.filter (listed_unprocessed (db w)) allPdfs)
     | Throw e => Throw e
     end, w).
Proof.
  unfold getUnprocessedReceipts, mbind, Eff_bind, on_db, zoom.
  destruct (scan (fs w) (getReceiptsDir rt)) as [allPdfs|e]; [|reflexivity].
  rewrite filter_unprocessed_run. now rewrite set_db_same.
Qed.

(** What one call of [processReceipt] does to the world, by outcome. *)
Lemma processReceipt_step rt name w r w1 :
  processReceipt rt name w = (Normal r, w1) ->
  fs w1 = fs w
  /\ filename r = name
  /\ (length (llm_requests w1) <= S (length (llm_requests w)))%nat
  /\ if success r
     then exists header,
            receipts (db w1) = receipts (db w) ++ [header]
            /\ List.find (same_filename name) (receipts (db w)) = None
            /\ r_filename header = name
            /\ r_id header = receiptId r
            /\ settled header
     else db w1 = db w.
Proof.
  intros Hrun.
  destruct (processReceipt_total rt name w) as (r0 & w0 & H0 & Hn & Hfs & Hdb & Hreq & _).
  rewrite Hrun in H0. injection H0 as <- <-.
  split; [exact Hfs|]. split; [exact Hn|]. split.
  - destruct Hreq as [->|(b & ->)]; [lia|]. rewrite length_app. simpl. lia.
  - destruct (success r) eqn:Hok; [|now apply Hdb].
    destruct (processReceipt_stored _ _ _ _ _ Hrun Hok)
      as (Hnew & data & rows & Hres).
    cbv zeta in Hres. destruct Hres as (-> & Hr & _).
    eexists. split; [exact Hr|]. split; [exact Hnew|].
    split; [reflexivity|]. split; [reflexivity|].
    unfold settled. simpl. unfold status_of.
    destruct (valid _); [now left | now right].
Qed.

(** X8. Processing a filename again after it succeeded: whatever the
    runtime does the second time, the call returns success=false with
    the receipt id the first call returned and the already-processed
    message, and leaves the world as the first call left it. *)
Theorem processing_twice (rt rt2 : Runtime) (name : string) (w : World)
  (r : ProcessingResult) (w' : World) :
  processReceipt rt name w = (Normal r, w') ->
  success r = true ->
  processReceipt rt2 name w' =
    (Normal {| success := false; filename := name;
               receiptId := receiptId r;
               message := "Receipt already processed";
               usedVision := false; textQuality := None;
               extractedData := None; validationIssues := None |}, w').
Proof.
  intros Hrun Hok.
  destruct (processReceipt_step _ _ _ _ _ Hrun) as (_ & _ & _ & Hdb).
  rewrite Hok in Hdb. destruct Hdb as (header & Hr & Hnew & Hname & Hid & _).
  assert (Hfind : List.find (same_filename name) (receipts (db w')) = Some header).
  { rewrite Hr. apply find_app_last; [now apply find_none_existsb|].
    unfold same_filename. rewrite Hname. apply String.eqb_refl. }
  unfold processReceipt.
  rewrite (try_catch_normal _ _ _ _ _
             (processReceipt_try_existing rt2 name w' header Hfind)).
  unfold already_processed. now rewrite Hid.
Qed.

(** X9. [getUnprocessedReceipts] against [processReceipt]. The list
    changes nothing. When the scan of the store throws (no [try] is
    around it), the call throws the same, before and after the
    processing. When the scan returns, the call returns: after a
    successful [processReceipt] the list is the one before without that
    filename; after a failed one it is the same list, so a failed
    document stays listed for a retry. *)
Theorem unprocessed_after_processing
  (scan : FileSystem -> string -> Completion (list string)) (rt : Runtime)
  (name : string) (w : World) (r : ProcessingResult) (w' : World) :
  processReceipt rt name w = (Normal r, w') ->
  match scan (fs w) (getReceiptsDir rt) with
  | Throw e =>
      getUnprocessedReceipts scan rt w = (Throw e, w)
      /\ getUnprocessedReceipts scan rt w' = (Throw e, w')
  | Normal allPdfs =>
      exists before after,
        getUnprocessedReceipts scan rt w = (Normal before, w)
        /\ getUnprocessedReceipts scan rt w' = (Normal after, w')
        /\ (forall n, n ∈ before -> n ∈ allPdfs)
        /\ (success r = true ->
            after = List.filter (fun n => negb (String.eqb n name)) before
            /\ name ∉ after)
        /\ (success r = false -> after = before)
  end.
Proof.
  intros Hrun. rewrite !getUnprocessedReceipts_run.
  destruct (processReceipt_step _ _ _ _ _ Hrun) as (Hfs & _ & _ & Hdb).
  rewrite Hfs.
  destruct (scan (fs w) (getReceiptsDir rt)) as [allPdfs|e]; [|now split].
  eexists _, _. split; [reflexivity|]. split; [reflexivity|]. split.
  { intros n Hin. apply list_elem_of_In, filter_In in Hin as [Hin _].
    now apply list_elem_of_In. }
  split; intros Hok; rewrite Hok in Hdb.
  - destruct Hdb as (header & Hr & Hnew & Hname & _ & Hst).
    assert (Heq : forall n, listed_unprocessed (db w') n =
                            listed_unprocessed (db w) n && negb (String.eqb n name)).
    { intros n. unfold listed_unprocessed. rewrite Hr.
      destruct (String.eqb n name) eqn:E.
      - apply String.eqb_eq in E. subst n. rewrite Hnew.
        rewrite find_app_last;
          [|now apply find_none_existsb
           |unfold same_filename; rewrite Hname; apply String.eqb_refl].
        apply bool_decide_eq_false.
        destruct Hst as [-> | ->]; discriminate.
      - rewrite find_app_miss, andb_true_r; [reflexivity|].
        unfold same_filename. rewrite Hname, String.eqb_sym. exact E. }
    assert (Hlist : List.filter (listed_unprocessed (db w')) allPdfs =
                    List.filter (fun n => negb (String.eqb n name))
                      (List.filter (listed_unprocessed (db w)) allPdfs)).
    { induction allPdfs as [|n l IH]; [reflexivity|].
      simpl. rewrite Heq.
      destruct (listed_unprocessed (db w) n); simpl; [|exact IH].
      destruct (negb (String.eqb n name)); [now rewrite IH | exact IH]. }
    split; [exact Hlist|]. rewrite Hlist.
    intros Hin. apply list_elem_of_In, filter_In in Hin as [_ Hne].
    now rewrite String.eqb_refl in Hne.
  - now rewrite Hdb.
Qed.

(** X10. A receipt whose status is "error" is caught between the two
    functions: [getUnprocessedReceipts] lists its file as unprocessed
    (when the scan finds the file), while [processReceipt] refuses it as
    already processed, with the id of the failed row, and changes
    nothing; so it stays listed. *)
Theorem error_receipt_is_stuck
  (scan : FileSystem -> string -> Completion (list string)) (rt : Runtime)
  (name : string) (w : World) (found : Receipt) (allPdfs : list string) :
  List.find (same_filename name) (receipts (db w)) = Some found ->
  r_processing_status found = Some "error" ->
  scan (fs w) (getReceiptsDir rt) = Normal allPdfs ->
  name ∈ allPdfs ->
  exists listed r,
    getUnprocessedReceipts scan rt w = (Normal listed, w)
    /\ name ∈ listed
    /\ processReceipt rt name w = (Normal r, w)
    /\ success r = false
    /\ message r = "Receipt already processed"
    /\ receiptId r = r_id found.
Proof.
  intros Hfind Hst Hscan Hin. rewrite getUnprocessedReceipts_run, Hscan.
  eexists _, (already_processed name found).
  split; [reflexivity|]. split.
  - apply list_elem_of_In, filter_In. split; [now apply list_elem_of_In|].
    unfold listed_unprocessed. rewrite Hfind. now apply bool_decide_eq_true.
  - split; [|now repeat split].
    unfold processReceipt. apply try_catch_normal.
    now apply processReceipt_try_existing.
Qed.

(** A run of the batch adds to the table one settled row per successful
    outcome, in order, and nothing else. *)
Lemma batch_run_rows rt filenames w results w' :
  batch_run rt filenames w results w' ->
  fs w' = fs w
  /\ (length (llm_requests w') <= length (llm_requests w) + length filenames)%nat
  /\ exists added,
       receipts (db w') = receipts (db w) ++ added
       /\ List.map r_filename added = List.map filename (successes results)
       /\ List.map r_id added = List.map receiptId (successes results)
       /\ Forall settled added.
Proof.
  induction 1 as [w|name rest w r w1 results w2 Hstep Hrun IH].
  - split; [reflexivity|]. split; [simpl; lia|].
    exists []. rewrite app_nil_r. repeat split. constructor.
  - destruct (processReceipt_step _ _ _ _ _ Hstep) as (Hfs & Hn & Hreq & Hdb).
    destruct IH as (Hfs' & Hreq' & added & Hr & Hnames & Hids & Hst).
    split; [congruence|]. split; [simpl; lia|].
    unfold successes in *. simpl.
    destruct (success r).
    + destruct Hdb as (header & Hr1 & _ & Hname & Hid & Hs).
      exists (header :: added). rewrite Hr, Hr1, <- app_assoc. simpl.
      rewrite Hname, Hn, Hid, Hnames, Hids.
      repeat split. now constructor.
    + exists added. rewrite Hr, Hdb. now repeat split.
Qed.

(** X11. The accounts of a batch. After [processMultipleReceipts] the
    receipts table is the table before followed by one row per
    successful outcome, in the order of the outcomes, each with the
    outcome's filename and receipt id and with status complete or
    needs_review (never error); no file is touched; at most one request
    per filename is sent; and in a well-formed database the result is
    well formed and no filename succeeds twice in the batch. *)
Theorem batch_accounts (rt : Runtime) (filenames : list string) (w : World)
  (results : list ProcessingResult) (w' : World) :
  processMultipleReceipts rt filenames w = (Normal results, w') ->
  fs w' = fs w
  /\ (length (llm_requests w') <= length (llm_requests w) + length filenames)%nat
  /\ (exists added,
        receipts (db w') = receipts (db w) ++ added
        /\ List.map r_filename added = List.map filename (successes results)
        /\ List.map r_id added = List.map receiptId (successes results)
        /\ Forall settled added)
  /\ (db_wf (db w) ->
      db_wf (db w') /\ NoDup (List.map filename (successes results))).
Proof.
  intros Hrun.
  destruct (process_loop_run rt filenames [] w) as (results0 & w0 & H0 & Hbatch & _).
  unfold processMultipleReceipts in Hrun. rewrite H0 in Hrun.
  injection Hrun as <- <-.
  destruct (batch_run_rows _ _ _ _ _ Hbatch) as (Hfs & Hreq & added & Hr & Hn & Hi & Hs).
  split; [exact Hfs|]. split; [exact Hreq|].
  split; [exists added; now repeat split|].
  intros Hwf.
  assert (Hwf' : db_wf (db w0)).
  { clear -Hbatch Hwf. induction Hbatch as [|name rest w r w1 results w2 Hstep _ IH];
      [exact Hwf|].
    apply IH. pose proof (wf_processReceipt rt name w Hwf) as H.
    now rewrite Hstep in H. }
  split; [exact Hwf'|].
  pose proof (wf_filenames _ Hwf') as Hnd.
  rewrite Hr, map_app, Hn in Hnd. now apply NoDup_app in Hnd as (_ & _ & Hnd).
Qed.

(* ================================================================== *)
(** * More of the extraction and of the validator *)
(* ================================================================== *)

Lemma complete_fields p data :
  complete p = Some data ->
  p_merchant_name p = Some (merchant_name data)
  /\ p_receipt_date p = Some (receipt_date data)
  /\ p_total_amount p = Some (total_amount data)
  /\ p_items p = items data.
Proof.
  unfold complete.
  destruct (p_merchant_name p) as [m|], (p_receipt_date p) as [d|],
    (p_total_amount p) as [t|]; try discriminate.
  destruct (negb (Js.truthy_string m) || negb (Js.truthy_string d));
    [discriminate|].
  intros [= <-]. now repeat split.
Qed.

(** What [read_response] returns or throws. *)
Lemma read_response_outcome rt none incomplete content w :
  exists c,
    read_response rt none incomplete content w = (c, w)
    /\ match c with
       | Normal data =>
           exists text parsed,
             content = Some text
             /\ Js.truthy_string text = true
             /\ JSON_parse rt text = Normal parsed
             /\ complete parsed = Some data
       | Throw e =>
           e = JsError none \/ e = JsError incomplete
           \/ exists text, content = Some text /\ JSON_parse rt text = Throw e
       end.
Proof.
  unfold read_response.
  destruct content as [text|]; [|eexists; split; [reflexivity|now left]].
  destruct (Js.truthy_string text) eqn:Et;
    [|eexists; split; [reflexivity|now left]].
  unfold mbind, Eff_bind, parse_json.
  destruct (JSON_parse rt text) as [parsed|e] eqn:Ep.
  - destruct (complete parsed) as [data|] eqn:Ec.
    + eexists; split; [reflexivity|]. now exists text, parsed.
    + eexists; split; [reflexivity|]. right. now left.
  - eexists; split; [reflexivity|]. right. right. now exists text.
Qed.

(** X12. The text extraction path. [extractReceiptData] sends exactly
    one request, a text request quoting the text, whether it succeeds or
    not, and touches nothing else. What it throws is always an [Error]
    whose message starts with its own prefix (its own two errors
    included). What it returns was parsed from a non-empty reply and has
    a non-empty merchant name and date; the total is whatever number the
    reply held, 0 included. *)
Theorem extractReceiptData_contract (rt : Runtime) (text : string) (w : World) :
  let q := TextCompletion ("Extract receipt data from:" +:+ nl +:+ nl +:+ text) in
  exists c,
    extractReceiptData rt text w = (c, log_request q w)
    /\ fs (log_request q w) = fs w
    /\ db (log_request q w) = db w
    /\ llm_requests (log_request q w) = llm_requests w ++ [q]
    /\ match c with
       | Throw e =>
           exists cause, e = JsError ("Failed to extract receipt data: " +:+ cause)
       | Normal data =>
           Js.truthy_string (merchant_name data) = true
           /\ Js.truthy_string (receipt_date data) = true
           /\ exists content parsed,
                chat_completion rt (length (llm_requests w)) q = Normal (Some content)
                /\ Js.truthy_string content = true
                /\ JSON_parse rt content = Normal parsed
                /\ p_total_amount parsed = Some (total_amount data)
                /\ p_items parsed = items data
       end.
Proof.
  intros q. unfold extractReceiptData, try_catch, mbind, Eff_bind, chat.
  fold q.
  destruct (chat_completion rt (length (llm_requests w)) q) as [content|e] eqn:Ec.
  - destruct (read_response_outcome rt "No response from OpenAI"
                "Incomplete receipt data extracted" content (log_request q w))
      as (c & -> & Hc).
    destruct c as [data|e].
    + exists (Normal data). split; [reflexivity|]. repeat split.
      * destruct Hc as (t & parsed & _ & _ & _ & Hcomp).
        now apply complete_truthy in Hcomp.
      * destruct Hc as (t & parsed & _ & _ & _ & Hcomp).
        now apply complete_truthy in Hcomp.
      * destruct Hc as (t & parsed & -> & Ht & Hp & Hcomp).
        exists t, parsed. apply complete_fields in Hcomp as (_ & _ & ? & ?).
        now repeat split.
    + eexists. split; [reflexivity|]. repeat split. now eexists.
  - eexists. split; [reflexivity|]. repeat split. now eexists.
Qed.

(** X13. The two extraction paths share one contract: when the service
    gives the text request and the vision request the same answer, both
    return the same data or both throw. *)
Theorem extraction_paths_agree (rt : Runtime) (text pdfBase64 : string)
  (fallbackText : option string) (w : World) :
  chat_completion rt (length (llm_requests w))
    (TextCompletion ("Extract receipt data from:" +:+ nl +:+ nl +:+ text))
  = chat_completion rt (length (llm_requests w))
      (VisionCompletion (vision_prompt fallbackText)
                        ("data:application/pdf;base64," +:+ pdfBase64)) ->
  match fst (extractReceiptData rt text w),
        fst (extractReceiptDataWithVision rt pdfBase64 fallbackText w) with
  | Normal a, Normal b => a = b
  | Throw _, Throw _ => True
  | _, _ => False
  end.
Proof.
  intros Hsame.
  unfold extractReceiptData, extractReceiptDataWithVision, try_catch, mbind,
    Eff_bind, chat.
  rewrite <- Hsame.
  destruct (chat_completion rt _ _) as [content|e]; [|exact I].
  unfold read_response.
  destruct content as [c|]; [|exact I].
  destruct (Js.truthy_string c); [|exact I].
  unfold mbind, Eff_bind, parse_json.
  destruct (JSON_parse rt c) as [parsed|e]; [|exact I].
  now destruct (complete parsed).
Qed.

Lemma itemsSum_prices a b :
  List.map x_total_price a = List.map x_total_price b -> itemsSum a = itemsSum b.
Proof.
  unfold itemsSum. generalize 0%float.
  revert b. induction a as [|x a IH]; intros [|y b] s H; try discriminate.
  - reflexivity.
  - simpl in *. injection H as Hp Hrest. rewrite Hp. now apply IH.
Qed.

(** X14. What the validator reads. Its verdict depends only on the item
    prices, the stated total and the date: two extraction results that
    agree on these get the same verdict and the same issues, whatever
    their merchants, currencies, confidences, item names, quantities,
    unit prices and categories (so quantity times unit price is never
    compared with the item total). *)
Theorem validation_reads_only (rt : Runtime) (a b : ExtractedReceiptData) :
  List.map x_total_price (items a) = List.map x_total_price (items b) ->
  total_amount a = total_amount b ->
  receipt_date a = receipt_date b ->
  validateReceiptData rt a = validateReceiptData rt b.
Proof.
  intros Hp Ht Hd. unfold validateReceiptData, difference_of.
  rewrite (itemsSum_prices _ _ Hp), Ht, Hd.
  assert (Hlen : length (items a) = length (items b))
    by (rewrite <- (length_map x_total_price (items a)), Hp; apply length_map).
  now rewrite Hlen.
Qed.

(* ================================================================== *)
(** * More of the path resolver *)
(* ================================================================== *)

Section Strings.

Lemma append_nil_r s : s +:+ EmptyString = s.
Proof.
  induction s as [|c s IH]; [reflexivity|].
  change (String c (s +:+ EmptyString) = String c s). now rewrite IH.
Qed.

Lemma append_cons c a b : String c a +:+ b = String c (a +:+ b).
Proof. reflexivity. Qed.

Lemma append_assoc a b c : (a +:+ b) +:+ c = a +:+ (b +:+ c).
Proof.
  induction a as [|x a IH]; [reflexivity|].
  change (String x ((a +:+ b) +:+ c) = String x (a +:+ (b +:+ c))).
  now rewrite IH.
Qed.

Lemma string_rev_app a b :
  Js.string_rev (a +:+ b) = Js.string_rev b +:+ Js.string_rev a.
Proof.
  induction a as [|x a IH].
  - change (Js.string_rev b = Js.string_rev b +:+ EmptyString).
    now rewrite append_nil_r.
  - change (Js.string_rev (a +:+ b) +:+ String x EmptyString
            = Js.string_rev b +:+ (Js.string_rev a +:+ String x EmptyString)).
    now rewrite IH, append_assoc.
Qed.

Lemma string_rev_involutive s : Js.string_rev (Js.string_rev s) = s.
Proof.
  induction s as [|c s IH]; [reflexivity|].
  change (Js.string_rev (Js.string_rev s +:+ String c EmptyString) = String c s).
  now rewrite string_rev_app, IH.
Qed.

Lemma string_rev_cons c s :
  Js.string_rev (String c s) = Js.string_rev s +:+ String c EmptyString.
Proof. reflexivity. Qed.

(** A text is empty or has a last byte. *)
Lemma string_last s :
  s = EmptyString \/ exists a c, s = a +:+ String c EmptyString.
Proof.
  destruct (Js.string_rev s) as [|c t] eqn:E.
  - left. rewrite <- (string_rev_involutive s), E. reflexivity.
  - right. exists (Js.string_rev t), c.
    rewrite <- (string_rev_involutive s), E. reflexivity.
Qed.

Lemma includes_nl_cons c s :
  Js.includes (String c s) nl = Ascii.eqb c (ascii_of_nat 10) || Js.includes s nl.
Proof.
  change (Js.includes (String c s) nl)
    with (String.prefix nl (String c s) || Js.includes s nl).
  f_equal. unfold nl. cbn [String.prefix].
  destruct (ascii_dec (ascii_of_nat 10) c) as [<-|Hne].
  - rewrite Ascii.eqb_refl. now destruct s.
  - symmetry. apply Ascii.eqb_neq. congruence.
Qed.

Lemma includes_nl_app a b :
  Js.includes (a +:+ b) nl = Js.includes a nl || Js.includes b nl.
Proof.
  induction a as [|c a IH].
  - simpl. now destruct b.
  - change (String c a +:+ b) with (String c (a +:+ b)).
    rewrite !includes_nl_cons, IH. now rewrite orb_assoc.
Qed.

(** A line without a newline is one piece. *)
Lemma split_line s :
  Js.includes s nl = false -> Js.split (ascii_of_nat 10) s = [s].
Proof.
  induction s as [|c s IH]; [reflexivity|].
  rewrite includes_nl_cons. intros H. apply orb_false_iff in H as [Hc Hs].
  simpl. rewrite Hc, (IH Hs). reflexivity.
Qed.

Lemma split_first s rest :
  Js.includes s nl = false ->
  Js.split (ascii_of_nat 10) (s +:+ nl +:+ rest)
  = s :: Js.split (ascii_of_nat 10) rest.
Proof.
  induction s as [|c s IH].
  - intros _.
    change (EmptyString +:+ nl +:+ rest) with (String (ascii_of_nat 10) rest).
    cbn [Js.split]. now rewrite Ascii.eqb_refl.
  - rewrite includes_nl_cons. intros H. apply orb_false_iff in H as [Hc Hs].
    change (String c s +:+ nl +:+ rest) with (String c (s +:+ nl +:+ rest)).
    simpl Js.split. rewrite Hc. now rewrite (IH Hs).
Qed.

End Strings.

(** Every byte of a white-space code point of two or three bytes is
    outside ASCII. *)
Lemma white_space_2_high a b :
  Js.white_space_2 a b = true ->
  (128 <= nat_of_ascii a)%nat /\ (128 <= nat_of_ascii b)%nat.
Proof.
  unfold Js.white_space_2. intros H. apply andb_prop in H as [Ha Hb].
  apply Ascii.eqb_eq in Ha, Hb. subst. split; apply Nat.leb_le; reflexivity.
Qed.

Lemma white_space_3_high a b c :
  Js.white_space_3 a b c = true ->
  (128 <= nat_of_ascii a)%nat /\ (128 <= nat_of_ascii b)%nat
  /\ (128 <= nat_of_ascii c)%nat.
Proof.
  unfold Js.white_space_3. cbv zeta. intros H.
  repeat match goal with
         | H : (_ || _) = true |- _ => apply orb_prop in H as [H|H]
         | H : (_ && _) = true |- _ => apply andb_prop in H as [? H]
         end;
    repeat match goal with
           | H : Ascii.eqb _ _ = true |- _ => apply Ascii.eqb_eq in H; subst
           | H : (_ <=? _)%nat = true |- _ => apply Nat.leb_le in H
           | H : (_ =? _)%nat = true |- _ => apply Nat.eqb_eq in H
           end;
    repeat split; try (apply Nat.leb_le; reflexivity); lia.
Qed.

(** Removing white space at the start, for any way of recognising it. *)
Section Strip.
Variable w1 : ascii -> bool.
Variable w2 : ascii -> ascii -> bool.
Variable w3 : ascii -> ascii -> ascii -> bool.


Lemma peel_none_strip s :
  Js.peel w1 w2 w3 s = None -> Js.strip w1 w2 w3 s = s.
Proof. intros H. now rewrite strip_peel, H. Qed.


(** A byte [c] that is part of no white-space code point. *)
Variable c : ascii.
Hypothesis c_1 : w1 c = false.
Hypothesis c_2 : forall x, w2 c x = false /\ w2 x c = false.
Hypothesis c_3 :
  forall x y, w3 c x y = false /\ w3 x c y = false /\ w3 x y c = false.

Lemma peel_head u : Js.peel w1 w2 w3 (String c u) = None.
Proof using c_1 c_2 c_3.
  destruct u as [|b [|d u]]; cbn [Js.peel];
    rewrite c_1; try reflexivity; rewrite (proj1 (c_2 b)); try reflexivity.
  now rewrite (proj1 (c_3 b d)).
Qed.

Lemma strip_head u : Js.strip w1 w2 w3 (String c u) = String c u.
Proof using c_1 c_2 c_3. apply peel_none_strip, peel_head. Qed.

(** White space before [c] is recognised without looking beyond [c]. *)
Lemma peel_inert t :
  (forall u, Js.peel w1 w2 w3 (t +:+ String c u) = None)
  \/ exists t',
       (String.length t' < String.length t)%nat
       /\ forall u,
            Js.peel w1 w2 w3 (t +:+ String c u) = Some (t' +:+ String c u).
Proof using c_1 c_2 c_3.
  destruct t as [|a [|b [|d t]]].
  - left. exact peel_head.
  - destruct (w1 a) eqn:Ea.
    + right. exists EmptyString. split; [simpl; lia|]. intros u.
      rewrite append_cons. cbn [Js.peel]. now rewrite Ea.
    + left. intros u. rewrite append_cons.
      change (EmptyString +:+ String c u) with (String c u).
      cbn [Js.peel]. rewrite Ea, (proj2 (c_2 a)).
      destruct u as [|e u]; [reflexivity|].
      now rewrite (proj1 (proj2 (c_3 a e))).
  - destruct (w1 a) eqn:Ea.
    + right. exists (String b EmptyString). split; [simpl; lia|]. intros u.
      rewrite append_cons. cbn [Js.peel]. now rewrite Ea.
    + destruct (w2 a b) eqn:Eab.
      * right. exists EmptyString. split; [simpl; lia|]. intros u.
        rewrite !append_cons. cbn [Js.peel]. now rewrite Ea, Eab.
      * left. intros u. rewrite !append_cons.
        change (EmptyString +:+ String c u) with (String c u).
        cbn [Js.peel]. now rewrite Ea, Eab, (proj2 (proj2 (c_3 a b))).
  - destruct (w1 a) eqn:Ea.
    + right. exists (String b (String d t)). split; [simpl; lia|]. intros u.
      rewrite append_cons. cbn [Js.peel]. now rewrite Ea.
    + destruct (w2 a b) eqn:Eab.
      * right. exists (String d t). split; [simpl; lia|]. intros u.
        rewrite !append_cons. cbn [Js.peel]. now rewrite Ea, Eab.
      * destruct (w3 a b d) eqn:Eabd.
        -- right. exists t. split; [simpl; lia|]. intros u.
           rewrite !append_cons. cbn [Js.peel]. now rewrite Ea, Eab, Eabd.
        -- left. intros u. rewrite !append_cons. cbn [Js.peel].
           now rewrite Ea, Eab, Eabd.
Qed.

(** Nothing is removed beyond [c]. *)
Lemma strip_through t u :
  Js.strip w1 w2 w3 (t +:+ String c u)
  = Js.strip w1 w2 w3 (t +:+ String c EmptyString) +:+ u.
Proof using c_1 c_2 c_3.
  assert (H : forall n t, (String.length t <= n)%nat ->
                Js.strip w1 w2 w3 (t +:+ String c u)
                = Js.strip w1 w2 w3 (t +:+ String c EmptyString) +:+ u).
  { clear t. induction n as [|n IH]; intros t Hlen;
      rewrite (strip_peel _ _ _ (t +:+ String c u)),
              (strip_peel _ _ _ (t +:+ String c EmptyString));
      destruct (peel_inert t) as [Hnone|(t' & Hlt & Hsome)].
    - rewrite !Hnone. now rewrite append_assoc.
    - lia.
    - rewrite !Hnone. now rewrite append_assoc.
    - rewrite !Hsome. apply IH. lia. }
  now apply (H (String.length t)).
Qed.

End Strip.

(** An ASCII character other than the six white ones is part of no
    white-space code point, read from either end. *)
Lemma visible_forward c :
  visible_ascii c = true ->
  Js.white_space_1 c = false
  /\ (forall x, Js.white_space_2 c x = false /\ Js.white_space_2 x c = false)
  /\ (forall x y, Js.white_space_3 c x y = false
                  /\ Js.white_space_3 x c y = false
                  /\ Js.white_space_3 x y c = false).
Proof.
  unfold visible_ascii. intros H. apply andb_prop in H as [Hlow Hw].
  apply Nat.ltb_lt in Hlow. apply negb_true_iff in Hw.
  split; [exact Hw|]. split.
  - intros x. split.
    + destruct (Js.white_space_2 c x) eqn:E; [|reflexivity].
      apply white_space_2_high in E. lia.
    + destruct (Js.white_space_2 x c) eqn:E; [|reflexivity].
      apply white_space_2_high in E. lia.
  - intros x y. repeat split.
    + destruct (Js.white_space_3 c x y) eqn:E; [|reflexivity].
      apply white_space_3_high in E. lia.
    + destruct (Js.white_space_3 x c y) eqn:E; [|reflexivity].
      apply white_space_3_high in E. lia.
    + destruct (Js.white_space_3 x y c) eqn:E; [|reflexivity].
      apply white_space_3_high in E. lia.
Qed.

Lemma visible_backward c :
  visible_ascii c = true ->
  Js.white_space_1 c = false
  /\ (forall x, Js.white_space_2_rev c x = false
                /\ Js.white_space_2_rev x c = false)
  /\ (forall x y, Js.white_space_3_rev c x y = false
                  /\ Js.white_space_3_rev x c y = false
                  /\ Js.white_space_3_rev x y c = false).
Proof.
  intros H. destruct (visible_forward c H) as (H1 & H2 & H3).
  unfold Js.white_space_2_rev, Js.white_space_3_rev.
  split; [exact H1|]. split.
  - intros x. split; apply H2.
  - intros x y. repeat split; apply H3.
Qed.

(** A text that starts with a visible ASCII character is kept by
    [trimStart]. *)
Lemma trimStart_visible c s :
  visible_ascii c = true -> Js.trimStart (String c s) = String c s.
Proof.
  intros H. destruct (visible_forward c H) as (H1 & H2 & H3).
  unfold Js.trimStart. now apply strip_head.
Qed.

(** What [trimEnd] removes lies after the last visible ASCII character. *)
Lemma trimEnd_app a c r :
  visible_ascii c = true ->
  Js.trimEnd (a +:+ String c r) = a +:+ Js.trimEnd (String c r).
Proof.
  intros H. destruct (visible_backward c H) as (H1 & H2 & H3).
  unfold Js.trimEnd. rewrite string_rev_app, string_rev_cons, append_assoc.
  change (String c EmptyString +:+ Js.string_rev a)
    with (String c (Js.string_rev a)).
  rewrite (strip_through _ _ _ c H1 H2 H3).
  now rewrite string_rev_app, string_rev_involutive.
Qed.

Lemma trimEnd_last a c :
  visible_ascii c = true ->
  Js.trimEnd (a +:+ String c EmptyString) = a +:+ String c EmptyString.
Proof.
  intros H. rewrite (trimEnd_app _ _ _ H). f_equal.
  destruct (visible_backward c H) as (H1 & H2 & H3).
  unfold Js.trimEnd.
  change (Js.string_rev (String c EmptyString)) with (String c EmptyString).
  now rewrite (strip_head _ _ _ c H1 H2 H3).
Qed.

(** A text kept by [trim] that starts with a visible ASCII character. *)
Lemma trim_fixed_parts c s :
  visible_ascii c = true ->
  Js.trim (String c s) = String c s -> Js.trimEnd (String c s) = String c s.
Proof. unfold Js.trim. intros Hc. now rewrite (trimStart_visible _ _ Hc). Qed.

Lemma trim_app c a d b :
  visible_ascii c = true -> visible_ascii d = true ->
  Js.trimEnd (String d b) = String d b ->
  Js.trim (String c a +:+ String d b) = String c a +:+ String d b.
Proof.
  intros Hc Hd Hb. unfold Js.trim. rewrite append_cons.
  rewrite (trimStart_visible _ _ Hc). rewrite <- append_cons.
  now rewrite (trimEnd_app _ _ _ Hd), Hb.
Qed.

Lemma starts_with_slash p :
  Js.startsWith p "/" = true -> exists r, p = String "/" r.
Proof.
  destruct p as [|c r]; [discriminate|].
  unfold Js.startsWith. cbn [String.prefix].
  destruct (ascii_dec "/" c) as [<-|]; [now exists r | discriminate].
Qed.

Lemma plain_path_parts p :
  plain_path p = true ->
  (exists r, p = String "/" r)
  /\ Js.includes p nl = false
  /\ Js.trim p = p
  /\ Js.includes p "\ " = false.
Proof.
  unfold plain_path, one_line. intros H.
  apply andb_prop in H as [H Hesc]. apply andb_prop in H as [Hs H].
  apply andb_prop in H as [Hnl Ht].
  split; [now apply starts_with_slash|].
  split; [now apply negb_true_iff in Hnl|].
  split; [now apply String.eqb_eq|]. now apply negb_true_iff in Hesc.
Qed.

Lemma cons_app_nonempty c r s : String c r +:+ s <> EmptyString.
Proof. change (String c (r +:+ s) <> EmptyString). discriminate. Qed.

Lemma slash_visible : visible_ascii "/" = true.
Proof. reflexivity. Qed.

Lemma plain_path_trimEnd p :
  plain_path p = true -> Js.trimEnd p = p /\ exists r, p = String "/" r.
Proof.
  intros H. apply plain_path_parts in H as ((r & ->) & _ & Ht & _).
  split; [|now exists r]. now apply (trim_fixed_parts _ _ slash_visible).
Qed.

Lemma candidate_plain rt p : plain_path p = true -> candidate rt p = p.
Proof.
  intros H. apply plain_path_parts in H as ((r & ->) & _ & _ & Hesc).
  unfold candidate. rewrite Hesc.
  change (Js.startsWith (String "/" r) "file://") with false.
  change (Js.startsWith (String "/" r) double_quote) with false.
  change (Js.startsWith (String "/" r) "'") with false.
  cbn [andb orb]. now destruct (_ && _).
Qed.

Lemma join_lines_cons p q rest :
  join_lines (p :: q :: rest) = p +:+ nl +:+ join_lines (q :: rest).
Proof. reflexivity. Qed.

(** Plain paths joined by newlines start with a slash and end as the
    last of them ends. *)
Lemma join_lines_trimEnd paths :
  paths <> [] -> forallb plain_path paths = true ->
  Js.trimEnd (join_lines paths) = join_lines paths
  /\ exists t, join_lines paths = String "/" t.
Proof.
  induction paths as [|p rest IH]; [congruence|]. intros _ H.
  simpl in H. apply andb_prop in H as [Hp Hrest].
  destruct rest as [|q rest].
  - now apply plain_path_trimEnd.
  - rewrite join_lines_cons.
    destruct (IH ltac:(discriminate) Hrest) as [Ht [t Heq]].
    destruct (plain_path_parts _ Hp) as ((r & ->) & _).
    split; [|rewrite append_cons; now eexists].
    rewrite <- append_assoc, Heq.
    rewrite (trimEnd_app _ _ _ slash_visible). now rewrite <- Heq, Ht.
Qed.

Lemma join_lines_trim paths :
  forallb plain_path paths = true -> Js.trim (join_lines paths) = join_lines paths.
Proof.
  destruct paths as [|p rest]; [reflexivity|]. intros H.
  destruct (join_lines_trimEnd (p :: rest) ltac:(discriminate) H) as [Ht [t Heq]].
  unfold Js.trim. rewrite Heq in *.
  now rewrite (trimStart_visible _ _ slash_visible).
Qed.

Lemma join_lines_split paths :
  paths <> [] -> forallb plain_path paths = true ->
  Js.split (ascii_of_nat 10) (join_lines paths) = paths.
Proof.
  induction paths as [|p rest IH]; [congruence|]. intros _ H.
  simpl in H. apply andb_prop in H as [Hp Hrest].
  destruct (plain_path_parts _ Hp) as (_ & Hnl & _).
  destruct rest as [|q rest].
  - now apply split_line.
  - rewrite join_lines_cons, (split_first _ _ Hnl).
    now rewrite (IH ltac:(discriminate) Hrest).
Qed.

Lemma trimmed_lines_plain l :
  forallb plain_path l = true ->
  List.filter (fun line => (0 <? String.length line)%nat) (List.map Js.trim l) = l.
Proof.
  induction l as [|x l IH]; [reflexivity|]. intros H.
  simpl in H. apply andb_prop in H as [Hx Hl].
  destruct (plain_path_parts _ Hx) as ((r & ->) & _ & Ht & _).
  cbn [List.map List.filter]. rewrite Ht, (IH Hl). reflexivity.
Qed.

Lemma lines_of_plain paths :
  forallb plain_path paths = true -> lines_of (join_lines paths) = paths.
Proof.
  intros H. destruct paths as [|p rest]; [reflexivity|].
  unfold lines_of. rewrite (join_lines_split (p :: rest) ltac:(discriminate) H).
  now apply trimmed_lines_plain.
Qed.

(** X15. Plain absolute paths come through unchanged. For every list of
    absolute paths that each fit on one line, have no white space at
    either end and no escaped space, pasting them one per line makes the
    resolver return exactly those of them at which a regular file exists
    (a path that names nothing or a directory is dropped), in the order
    they were pasted and as often as they were pasted; unless one of them
    holds a NUL byte: then the call throws what Bun throws at the first
    such path. The world is not changed. *)
Theorem plain_paths_resolved (rt : Runtime) (paths : list string) (w : World) :
  forallb plain_path paths = true ->
  parseFilePaths rt (join_lines paths) w
  = (match first_invalid paths with
     | Some path => Throw (io_error rt path)
     | None => Normal (List.filter (path_exists w) paths)
     end, w).
Proof.
  intros H. rewrite parseFilePaths_run. cbv zeta.
  rewrite (join_lines_trim _ H), (lines_of_plain _ H).
  assert (Hcand : List.map (candidate rt) paths = paths).
  { clear -H. induction paths as [|p l IH]; [reflexivity|].
    simpl in H. apply andb_prop in H as [Hp Hl].
    simpl. now rewrite (candidate_plain _ _ Hp), (IH Hl). }
  now rewrite Hcand.
Qed.

Lemma escape_spaces_app a b :
  escape_spaces (a +:+ b) = escape_spaces a +:+ escape_spaces b.
Proof.
  induction a as [|c a IH]; [reflexivity|].
  change (String c a +:+ b) with (String c (a +:+ b)).
  cbn [escape_spaces]. rewrite IH. now destruct (Ascii.eqb c " ").
Qed.











Lemma substring_whole_prefix p s :
  String.substring 0 (String.length p) (p +:+ s) = p.
Proof.
  induction p as [|c p IH].
  - now destruct s.
  - change (String c p +:+ s) with (String c (p +:+ s)).
    cbn [String.length String.substring]. now rewrite IH.
Qed.

Lemma length_append a b :
  String.length (a +:+ b) = (String.length a + String.length b)%nat.
Proof.
  induction a as [|c a IH]; [reflexivity|].
  change (String c a +:+ b) with (String c (a +:+ b)).
  cbn [String.length]. now rewrite IH.
Qed.

Lemma slice_quoted q p : Js.slice_1_m1 (quoted q p) = p.
Proof.
  unfold Js.slice_1_m1, quoted. cbn [String.length].
  rewrite length_append. cbn [String.length].
  replace (S (String.length p + 1) - 2)%nat with (String.length p) by lia.
  cbn [String.substring]. apply substring_whole_prefix.
Qed.

Lemma is_quote_cases q :
  is_quote q = true -> q = "'"%char \/ q = ascii_of_nat 34.
Proof.
  unfold is_quote. intros H. apply orb_prop in H as [H|H];
    apply Ascii.eqb_eq in H; [now left | now right].
Qed.

Lemma quote_visible q : is_quote q = true -> visible_ascii q = true.
Proof. intros H. destruct (is_quote_cases _ H) as [-> | ->]; reflexivity. Qed.

Lemma quoted_rev q p :
  Js.string_rev (quoted q p) = String q (Js.string_rev p +:+ String q EmptyString).
Proof.
  unfold quoted. cbn [Js.string_rev]. now rewrite string_rev_app.
Qed.

Lemma quoted_trim q p : is_quote q = true -> Js.trim (quoted q p) = quoted q p.
Proof.
  intros Hq. pose proof (quote_visible _ Hq) as Hvis.
  unfold Js.trim, quoted. rewrite (trimStart_visible _ _ Hvis).
  change (String q (p +:+ String q EmptyString))
    with (String q p +:+ String q EmptyString).
  now apply trimEnd_last.
Qed.

Lemma quoted_candidate rt q p : is_quote q = true -> candidate rt (quoted q p) = p.
Proof.
  intros Hq. unfold candidate.
  assert (Hfile : Js.startsWith (quoted q p) "file://" = false)
    by (destruct (is_quote_cases _ Hq) as [-> | ->]; reflexivity).
  rewrite Hfile.
  assert (Hwrap : (Js.startsWith (quoted q p) double_quote
                   && Js.endsWith (quoted q p) double_quote)
                  || (Js.startsWith (quoted q p) "'"
                      && Js.endsWith (quoted q p) "'") = true).
  { unfold Js.endsWith. rewrite quoted_rev.
    destruct (is_quote_cases _ Hq) as [-> | ->].
    - apply orb_true_iff. right. unfold Js.startsWith, quoted.
      cbn [Js.string_rev String.prefix]. simpl.
      now destruct (Js.string_rev p +:+ _), (p +:+ _).
    - apply orb_true_iff. left. unfold Js.startsWith, quoted, double_quote.
      cbn [Js.string_rev String.prefix]. simpl.
      now destruct (Js.string_rev p +:+ _), (p +:+ _). }
  rewrite Hwrap. apply slice_quoted.
Qed.

(** X17. Quoted paths. For every text [p] on one line and either kind
    of quote, pasting [p] between two quotes makes the resolver return
    [p] itself (spaces and all, untouched) when a regular file is there,
    and nothing when it names a directory or nothing at all; white space
    inside the quotes is kept; a [p] with a NUL byte makes the call throw
    what Bun throws at it. The syntactic predicate [looksLikeFilePath],
    however, answers false on every such quoted line. *)
Theorem quoted_path_resolved (rt : Runtime) (q : ascii) (p : string) (w : World) :
  is_quote q = true ->
  Js.includes p nl = false ->
  parseFilePaths rt (quoted q p) w
  = (if valid_path p
     then Normal (if path_exists w p then [p] else [])
     else Throw (io_error rt p), w)
  /\ looksLikeFilePath (quoted q p) = false.
Proof.
  intros Hq Hnl. split.
  - rewrite parseFilePaths_run. cbv zeta. rewrite (quoted_trim _ _ Hq).
    unfold lines_of.
    assert (Hline : Js.includes (quoted q p) nl = false).
    { unfold quoted. rewrite includes_nl_cons, includes_nl_app, Hnl.
      rewrite includes_nl_cons.
      destruct (is_quote_cases _ Hq) as [-> | ->]; reflexivity. }
    rewrite (split_line _ Hline). cbn [List.map List.filter].
    rewrite (quoted_trim _ _ Hq).
    change (0 <? String.length (quoted q p))%nat with true. cbn iota.
    cbn [List.map]. rewrite (quoted_candidate _ _ _ Hq).
    unfold first_invalid. cbn [List.find List.filter].
    destruct (valid_path p); [|reflexivity]. cbn [negb].
    now destruct (path_exists w p).
  - unfold looksLikeFilePath. rewrite (quoted_trim _ _ Hq).
    destruct (is_quote_cases _ Hq) as [-> | ->]; reflexivity.
Qed.

(* ================================================================== *)
(** * More of the receipt store *)
(* ================================================================== *)



(** What a move that returned has left at the destination. *)
Lemma moved_file_facts rt src w name w' :
  moveFileToReceipts rt src w = (Normal name, w') ->
  valid_path src = true
  /\ name = basename rt src
  /\ exists c, fs w' !! destination rt src = Some (RegularFile c).
Proof.
  rewrite moveFileToReceipts_run.
  destruct (valid_path src); cbn [negb]; [|discriminate].
  destruct (fs w !! src) as [[c|]|] eqn:Esrc; try discriminate.
  cbv zeta. set (dest := destination rt src).
  destruct (valid_path dest); cbn [negb]; [|discriminate].
  assert (Hbody : fs w !! dest <> Some (RegularFile c) ->
    match Bun_write rt dest c w with
    | (Throw e, w1) => rethrow_move e w1
    | (Normal _, w1) =>
        match Bun_write rt src EmptyString w1 with
        | (Throw e, w2) => rethrow_move e w2
        | (Normal _, w2) =>
            (Normal (basename rt src),
             if rm_succeeds rt src then set_fs (delete src (fs w2)) w2 else w2)
        end
    end = (Normal name, w') ->
    true = true /\ name = basename rt src
    /\ exists c0, fs w' !! dest = Some (RegularFile c0)).
  { intros Hne.
    destruct (Bun_write rt dest c w) as [[[]|e] w1] eqn:Ew1;
      [|destruct e; discriminate].
    pose proof (Bun_write_written _ _ _ _ _ Ew1) as (Hd1 & _ & _ & Hkeep1 & _).
    assert (Hds : dest <> src).
    { intros Heq. apply Bun_write_returns in Ew1 as (_ & _ & _ & _ & _).
      rewrite Heq in Hne. congruence. }
    destruct (Bun_write rt src EmptyString w1) as [[[]|e] w2] eqn:Ew2;
      [|destruct e; discriminate].
    pose proof (Bun_write_written _ _ _ _ _ Ew2) as (_ & _ & _ & Hkeep2 & _).
    assert (Hd2 : fs w2 !! dest = Some (RegularFile c))
      by (apply Hkeep2; [exact Hds | exact Hd1]).
    destruct (rm_succeeds rt src); intros [= <- <-];
      (split; [reflexivity|]; split; [reflexivity|]; exists c);
      [cbn [fs set_fs]; now rewrite fs_lookup_delete_ne by congruence | exact Hd2]. }
  destruct (fs w !! dest) as [[older|]|] eqn:Edest;
    [discriminate | apply Hbody; discriminate | apply Hbody; discriminate].
Qed.

(** X19. Moving again. After a move that returned, the store holds a
    file of that name, so: repeating the call when the source is gone
    fails with the not-found error; moving any regular file with the same
    base name (the emptied source itself, if [rm] had failed) fails with
    the conflict error naming that file; and both failures leave
    everything as it is. *)
Theorem move_again (rt : Runtime) (src : string) (w : World) (name : string)
  (w' : World) :
  moveFileToReceipts rt src w = (Normal name, w') ->
  (fs w' !! src = None ->
   moveFileToReceipts rt src w' =
     (Throw (JsError ("Source file does not exist: " +:+ src)), w'))
  /\ (forall other content,
        basename rt other = basename rt src ->
        fs w' !! other = Some (RegularFile content) ->
        moveFileToReceipts rt other w' =
          (Throw (JsError ("File already exists in receipts: " +:+ name)), w')).
Proof.
  intros Hrun.
  pose proof (moved_file_facts rt src w name w' Hrun)
    as (Hvs & -> & c & Hd).
  split.
  - intros Hgone. rewrite moveFileToReceipts_run, Hvs, Hgone. reflexivity.
  - intros other content Hbase Hother. rewrite moveFileToReceipts_run.
    rewrite (fs_lookup_valid _ _ _ Hother), Hother.
    cbv zeta. unfold destination in *. rewrite Hbase.
    now rewrite (fs_lookup_valid _ _ _ Hd), Hd.
Qed.

(** [ensureReceiptsDir], stage by stage. *)
Lemma ensureReceiptsDir_run rt w :
  ensureReceiptsDir rt w =
    if negb (valid_path (RECEIPTS_DIR rt))
    then @rethrow_ensure unit rt (io_error rt (RECEIPTS_DIR rt)) w
    else if path_exists w (RECEIPTS_DIR rt) then (Normal tt, w)
    else match Bun_write rt (keep_file rt) EmptyString w with
         | (Throw e, w1) => @rethrow_ensure unit rt e w1
         | (Normal _, w1) => (Normal tt, w1)
         end.
Proof.
  unfold ensureReceiptsDir, try_catch, mbind, Eff_bind, Bun_file_exists.
  destruct (valid_path (RECEIPTS_DIR rt)); [|reflexivity]. cbn [negb].
  destruct (path_exists w (RECEIPTS_DIR rt)); cbn [negb]; [reflexivity|].
  now destruct (Bun_write rt (keep_file rt) EmptyString w) as [[[]|e] w1].
Qed.

Lemma rethrow_ensure_outcome rt e w :
  exists e',
    @rethrow_ensure unit rt e w = (Throw e', w)
    /\ (e' = JsNonError
        \/ exists cause,
             e' = JsError ("Failed to create " +:+ RECEIPTS_DIR rt
                             +:+ ": " +:+ cause)).
Proof.
  destruct e as [m|]; eexists; (split; [reflexivity|]);
    [right; now eexists | now left].
Qed.

(** X20. [ensureReceiptsDir]. The test it makes, [exists()], is false
    of a directory: it holds only when a regular file stands in the place
    of the store, and then the call returns having done nothing. In
    every other case the marker file is written, on every call: after a
    call that returned, the marker is an empty regular file whatever it
    held before, the directories above it exist (the missing ones were
    made), and everything else that was there is as it was. The call is
    idempotent: after a call that returned, another call returns and
    leaves the world as it is. What it throws is the cause wrapped in a
    message naming the store (or a non-Error as it is), and then nothing
    was changed. The database and the log of requests are never
    touched. *)
Theorem ensureReceiptsDir_contract (rt : Runtime) (w : World) :
  let w' := snd (ensureReceiptsDir rt w) in
  db w' = db w
  /\ llm_requests w' = llm_requests w
  /\ (forall content,
        fs w !! RECEIPTS_DIR rt = Some (RegularFile content) ->
        ensureReceiptsDir rt w = (Normal tt, w))
  /\ (fst (ensureReceiptsDir rt w) = Normal tt ->
      path_exists w (RECEIPTS_DIR rt) = false ->
      fs w' !! keep_file rt = Some (RegularFile EmptyString)
      /\ (forall dir,
            dir ∈ ancestors rt (keep_file rt) -> fs w' !! dir = Some Directory)
      /\ (forall p node,
            p <> keep_file rt -> fs w !! p = Some node -> fs w' !! p = Some node))
  /\ (fst (ensureReceiptsDir rt w) = Normal tt ->
      ensureReceiptsDir rt w' = (Normal tt, w'))
  /\ (forall e,
        fst (ensureReceiptsDir rt w) = Throw e ->
        w' = w
        /\ (e = JsNonError
            \/ exists cause,
                 e = JsError ("Failed to create " +:+ RECEIPTS_DIR rt
                                +:+ ": " +:+ cause))).
Proof.
  intros w'. subst w'.
  assert (Hthrow : forall e out,
    out = @rethrow_ensure unit rt e w ->
    db (snd out) = db w
    /\ llm_requests (snd out) = llm_requests w
    /\ (fst out = Normal tt ->
        path_exists w (RECEIPTS_DIR rt) = false ->
        fs (snd out) !! keep_file rt = Some (RegularFile EmptyString)
        /\ (forall dir,
              dir ∈ ancestors rt (keep_file rt) ->
              fs (snd out) !! dir = Some Directory)
        /\ (forall p node,
              p <> keep_file rt -> fs w !! p = Some node ->
              fs (snd out) !! p = Some node))
    /\ (fst out = Normal tt ->
        ensureReceiptsDir rt (snd out) = (Normal tt, snd out))
    /\ (forall err,
          fst out = Throw err ->
          snd out = w
          /\ (err = JsNonError
              \/ exists cause,
                   err = JsError ("Failed to create " +:+ RECEIPTS_DIR rt
                                    +:+ ": " +:+ cause)))).
  { intros e out ->.
    destruct (rethrow_ensure_outcome rt e w) as (e' & -> & He'). cbn [fst snd].
    split; [reflexivity|]. split; [reflexivity|]. split; [discriminate|].
    split; [discriminate|]. intros err [= <-]. now split. }
  split; [|split; [|split]].
  - rewrite ensureReceiptsDir_run.
    destruct (valid_path (RECEIPTS_DIR rt)); cbn [negb];
      [|now apply (Hthrow _ _ eq_refl)].
    destruct (path_exists w (RECEIPTS_DIR rt)); [reflexivity|].
    destruct (Bun_write rt (keep_file rt) EmptyString w) as [[[]|e] w1] eqn:Ew.
    + now apply Bun_write_written in Ew.
    + apply Bun_write_throws in Ew. subst w1. now apply (Hthrow _ _ eq_refl).
  - rewrite ensureReceiptsDir_run.
    destruct (valid_path (RECEIPTS_DIR rt)); cbn [negb];
      [|now apply (Hthrow _ _ eq_refl)].
    destruct (path_exists w (RECEIPTS_DIR rt)); [reflexivity|].
    destruct (Bun_write rt (keep_file rt) EmptyString w) as [[[]|e] w1] eqn:Ew.
    + now apply Bun_write_written in Ew.
    + apply Bun_write_throws in Ew. subst w1. now apply (Hthrow _ _ eq_refl).
  - intros content Hfile. rewrite ensureReceiptsDir_run.
    rewrite (fs_lookup_valid _ _ _ Hfile). cbn [negb].
    unfold path_exists. now rewrite Hfile.
  - rewrite ensureReceiptsDir_run.
    destruct (valid_path (RECEIPTS_DIR rt)) eqn:Hv; cbn [negb];
      [|now apply (Hthrow _ _ eq_refl)].
    destruct (path_exists w (RECEIPTS_DIR rt)) eqn:Edir.
    { cbn [fst snd]. split; [discriminate|]. split; [|discriminate].
      intros _. now rewrite ensureReceiptsDir_run, Hv, Edir. }
    destruct (Bun_write rt (keep_file rt) EmptyString w) as [[[]|e] w1] eqn:Ew;
      [|apply Bun_write_throws in Ew; subst w1; now apply (Hthrow _ _ eq_refl)].
    cbn [fst snd].
    pose proof (Bun_write_written _ _ _ _ _ Ew) as (Hk & _ & _ & Hkeep & _ & Hdirs).
    split; [now intros|]. split; [|discriminate].
    intros _. rewrite ensureReceiptsDir_run, Hv. cbn [negb].
    destruct (path_exists w1 (RECEIPTS_DIR rt)); [reflexivity|].
    now rewrite (Bun_write_again _ _ _ _ _ Ew).
Qed.

(* ================================================================== *)
(** * The properties above, on the sample ledger *)
(* ================================================================== *)

Ltac wf_rows tac := repeat (constructor; [tac|]); constructor.

Ltac wf_concrete :=
  constructor; simpl;
  [ wf_rows ltac:(let Hin := fresh in
                  intros Hin; apply list_elem_of_In in Hin; simpl in Hin;
                  intuition discriminate)
  | repeat constructor; lia
  | wf_rows ltac:(eexists; split; [reflexivity | lia])
  | repeat constructor; lia
  | wf_rows ltac:(eexists; split; [reflexivity | lia])
  | wf_rows ltac:(eexists; split; reflexivity) ].

Lemma empty_db_wf : db_wf Sample.empty_db.
Proof. wf_concrete. Qed.

Lemma processed_db_wf : db_wf (db Sample.processed).
Proof. wf_concrete. Qed.

Lemma books_wf : db_wf Ledger.books.
Proof. wf_concrete. Qed.

(** Inserting [free.pdf] into the ledger, and deleting the first receipt
    from it, leave it well formed. *)
Lemma persistence_keeps_wf_witness :
  db_wf Ledger.books
  /\ db_wf (run_write Sample.offline (WInsertReceipt Sample.free_receipt) Ledger.books)
  /\ db_wf (run_write Sample.offline (WDeleteReceipt 1) Ledger.books).
Proof.
  split; [exact books_wf|]. split.
  - exact (persistence_keeps_wf Sample.offline (WInsertReceipt Sample.free_receipt)
             Ledger.books books_wf).
  - exact (persistence_keeps_wf Sample.offline (WDeleteReceipt 1)
             Ledger.books books_wf).
Defined.

(** [free.pdf] inserted into the ledger gets id 3 and is found again. *)
Lemma insert_then_lookup_witness :
  exists row d',
    insertReceipt Sample.offline Sample.free_receipt Ledger.books = (Normal row, d')
    /\ r_id row = Some 3%N
    /\ getReceiptByFilename "free.pdf" d' = (Normal (Some row), d')
    /\ exists e, insertReceipt Sample.offline Sample.free_receipt d' = (Throw e, d').
Proof.
  eexists _, _. split; [reflexivity|]. split; [reflexivity|].
  destruct (insert_then_lookup Sample.offline Sample.free_receipt Ledger.books
              _ _ eq_refl) as (Hget & _ & _ & Hagain).
  split; [exact Hget|]. exact (Hagain Sample.free_receipt eq_refl).
Defined.

(** A gift added to the first receipt of the ledger comes after its
    coffee. *)
Lemma items_after_insert_witness :
  db_wf Ledger.books
  /\ exists rows d',
       insertReceiptItems 1 [Sample.gift] Ledger.books = (Normal rows, d')
       /\ length rows = 1%nat
       /\ getReceiptItems 1 d' = (Normal (Ledger.coffee_a :: rows), d').
Proof.
  split; [exact books_wf|].
  eexists _, _. split; [reflexivity|].
  destruct (items_after_insert 1 [Sample.gift] Ledger.books _ _ books_wf eq_refl)
    as ((before & Hb & Ha) & Hlen & _).
  split; [exact Hlen|].
  injection Hb as <-. exact Ha.
Defined.

(** Deleting the first receipt of the ledger takes its coffee along and
    leaves the second receipt with its tea. *)
Lemma delete_receipt_cascades_witness :
  db_wf Ledger.books
  /\ fst (getReceiptItems 1 (snd (deleteReceipt 1 Ledger.books))) = Normal []
  /\ fst (deleteReceipt 1 Ledger.books) = Normal {| changes := 1 |}
  /\ fst (getReceiptItems 2 (snd (deleteReceipt 1 Ledger.books)))
     = Normal [Ledger.tea_b].
Proof.
  split; [exact books_wf|].
  destruct (delete_receipt_cascades 1 Ledger.books books_wf)
    as (_ & Hitems & Hchanges & _ & Hother).
  split; [exact Hitems|]. split; [exact Hchanges|].
  exact (proj2 (Hother 2%N ltac:(discriminate))).
Defined.

(** [a.pdf], read as one coffee of 10.00, is stored and read back. *)
Lemma processed_receipt_reads_back_witness :
  db_wf (db Sample.fresh)
  /\ exists r w',
       processReceipt (Sample.reading None 10%float) "a.pdf" Sample.fresh
         = (Normal r, w')
       /\ success r = true
       /\ exists header rows,
            fst (getReceiptWithItems 1 (db w')) =
              Normal (Some {| rw_receipt := header; rw_items := rows |})
            /\ r_filename header = "a.pdf"
            /\ length rows = 1%nat.
Proof.
  split; [exact empty_db_wf|].
  eexists _, _. split; [reflexivity|]. split; [reflexivity|].
  destruct (processed_receipt_reads_back (Sample.reading None 10%float) "a.pdf"
              Sample.fresh _ _ empty_db_wf eq_refl eq_refl)
    as (rid & data & header & rows & Hid & Hdata & Hget & _ & _ & Hname & _ & Hrows).
  injection Hid as <-. injection Hdata as <-.
  exists header, rows. split; [exact Hget|]. split; [exact Hname|].
  symmetry. exact (Forall2_length _ _ _ Hrows).
Defined.

(** [a.pdf] processed, then processed again with the service offline. *)
Lemma processing_twice_witness :
  exists r w',
    processReceipt (Sample.reading None 10%float) "a.pdf" Sample.fresh
      = (Normal r, w')
    /\ success r = true
    /\ processReceipt Sample.offline "a.pdf" w' =
         (Normal {| success := false; filename := "a.pdf";
                    receiptId := Some 1%N;
                    message := "Receipt already processed";
                    usedVision := false; textQuality := None;
                    extractedData := None; validationIssues := None |}, w').
Proof.
  eexists _, _. split; [reflexivity|]. split; [reflexivity|].
  exact (processing_twice (Sample.reading None 10%float) Sample.offline "a.pdf"
           Sample.fresh _ _ eq_refl eq_refl).
Defined.

(** With [a.pdf] and [b.pdf] in the store and the second marked as
    failed: both are listed; processing [a.pdf] takes it off the list.
    On a machine without the store the list throws. *)
Lemma unprocessed_after_processing_witness :
  exists r w',
    processReceipt (Sample.reading None 10%float) "a.pdf" Ledger.pending
      = (Normal r, w')
    /\ getUnprocessedReceipts Ledger.scan (Sample.reading None 10%float)
         Ledger.pending
       = (Normal ["a.pdf"; "b.pdf"], Ledger.pending)
    /\ getUnprocessedReceipts Ledger.scan (Sample.reading None 10%float) w'
       = (Normal ["b.pdf"], w')
    /\ getUnprocessedReceipts Ledger.scan (Sample.reading None 10%float)
         Ledger.bare
       = (Throw (JsError "ENOENT: no such file or directory, scandir /home/u/receipts"),
          Ledger.bare).
Proof.
  eexists _, _. split; [reflexivity|].
  pose proof (unprocessed_after_processing Ledger.scan (Sample.reading None 10%float)
                "a.pdf" Ledger.pending _ _ eq_refl) as H.
  change (Ledger.scan (fs Ledger.pending)
            (getReceiptsDir (Sample.reading None 10%float)))
    with (@Normal (list string) ["a.pdf"; "b.pdf"]) in H.
  cbv iota in H. destruct H as (before & after & Hb & Ha & _ & Hok & _).
  split; [reflexivity|]. split.
  - destruct (Hok eq_refl) as [-> _]. injection Hb as <-. exact Ha.
  - pose proof (unprocessed_after_processing Ledger.scan
                  (Sample.reading None 10%float) "a.pdf" Ledger.bare _ _ eq_refl)
      as Hbare.
    exact (proj1 Hbare).
Defined.

(** [b.pdf] of the ledger: listed, and refused. *)
Lemma error_receipt_is_stuck_witness :
  List.find (same_filename "b.pdf") (receipts (db Ledger.shelf)) = Some Ledger.row_b
  /\ Ledger.scan (fs Ledger.shelf) (getReceiptsDir Sample.offline)
     = Normal ["a.pdf"; "b.pdf"]
  /\ exists r,
       getUnprocessedReceipts Ledger.scan Sample.offline Ledger.shelf
         = (Normal ["b.pdf"], Ledger.shelf)
       /\ processReceipt Sample.offline "b.pdf" Ledger.shelf = (Normal r, Ledger.shelf)
       /\ success r = false
       /\ receiptId r = Some 2%N.
Proof.
  split; [reflexivity|]. split; [reflexivity|].
  destruct (error_receipt_is_stuck Ledger.scan Sample.offline "b.pdf" Ledger.shelf
              Ledger.row_b ["a.pdf"; "b.pdf"] eq_refl eq_refl eq_refl)
    as (listed & r & Hl & _ & Hp & Hs & _ & Hid).
  { right; left. }
  exists r. split; [reflexivity|]. split; [exact Hp|]. split; [exact Hs|exact Hid].
Defined.

(** [a.pdf] sent twice in one batch is stored once. *)
Lemma batch_accounts_witness :
  exists results w',
    processMultipleReceipts (Sample.reading None 10%float) ["a.pdf"; "a.pdf"]
      Sample.fresh = (Normal results, w')
    /\ List.map success results = [true; false]
    /\ length (receipts (db w')) = 1%nat
    /\ db_wf (db w').
Proof.
  eexists _, _. split; [reflexivity|]. split; [reflexivity|].
  destruct (batch_accounts (Sample.reading None 10%float) ["a.pdf"; "a.pdf"]
              Sample.fresh _ _ eq_refl) as (_ & _ & (added & Hr & Hn & _) & Hwf).
  split; [reflexivity|]. exact (proj1 (Hwf empty_db_wf)).
Defined.

(** A service that answers every request alike. *)
Lemma extraction_paths_agree_witness :
  match fst (extractReceiptData (Sample.reading None 10%float) "Cafe X 10.00"
               Sample.fresh),
        fst (extractReceiptDataWithVision (Sample.reading None 10%float) "JVBERi0="
               None Sample.fresh) with
  | Normal a, Normal b => a = b
  | Throw _, Throw _ => True
  | _, _ => False
  end
  /\ fst (extractReceiptData (Sample.reading None 10%float) "Cafe X 10.00"
            Sample.fresh) = Normal (Sample.cafe_data 10%float).
Proof.
  split; [|reflexivity].
  exact (extraction_paths_agree (Sample.reading None 10%float) "Cafe X 10.00"
           "JVBERi0=" None Sample.fresh eq_refl).
Defined.

(** Two readings of one receipt, by different hands. *)
Lemma validation_reads_only_witness :
  validateReceiptData (Sample.reading None 2%float) (Sample.cafe_data 2%float)
  = validateReceiptData (Sample.reading None 2%float) Ledger.other_hand.
Proof.
  exact (validation_reads_only (Sample.reading None 2%float)
           (Sample.cafe_data 2%float) Ledger.other_hand eq_refl eq_refl eq_refl).
Defined.

(** Four lines, of which the second names a directory and the third
    nothing. *)
Lemma plain_paths_resolved_witness :
  forallb plain_path ["/tmp/my file.pdf"; "/tmp"; "/nope"; "/tmp/a.pdf"] = true
  /\ fs Ledger.desk !! "/tmp" = Some Directory
  /\ parseFilePaths Sample.offline
       (join_lines ["/tmp/my file.pdf"; "/tmp"; "/nope"; "/tmp/a.pdf"]) Ledger.desk
     = (Normal ["/tmp/my file.pdf"; "/tmp/a.pdf"], Ledger.desk).
Proof.
  split; [reflexivity|]. split; [reflexivity|].
  exact (plain_paths_resolved Sample.offline
           ["/tmp/my file.pdf"; "/tmp"; "/nope"; "/tmp/a.pdf"] Ledger.desk eq_refl).
Defined.


(** ['/tmp/my file.pdf']. *)
Lemma quoted_path_resolved_witness :
  parseFilePaths Sample.offline "'/tmp/my file.pdf'" Ledger.desk
  = (Normal ["/tmp/my file.pdf"], Ledger.desk)
  /\ looksLikeFilePath "'/tmp/my file.pdf'" = false.
Proof.
  exact (quoted_path_resolved Sample.offline "'" "/tmp/my file.pdf" Ledger.desk
           eq_refl eq_refl).
Defined.

(** [/tmp/a.pdf] moved; the same call again; and another file of the
    same name. *)
Lemma move_again_witness :
  exists w',
    moveFileToReceipts Sample.offline "/tmp/a.pdf" Sample.downloads
      = (Normal "a.pdf", w')
    /\ moveFileToReceipts Sample.offline "/tmp/a.pdf" w' =
         (Throw (JsError "Source file does not exist: /tmp/a.pdf"), w').
Proof.
  exists (snd (moveFileToReceipts Sample.offline "/tmp/a.pdf" Sample.downloads)).
  split; [vm_compute; reflexivity|].
  refine (proj1 (move_again Sample.offline "/tmp/a.pdf" Sample.downloads "a.pdf"
                   (snd (moveFileToReceipts Sample.offline "/tmp/a.pdf"
                           Sample.downloads)) _) _);
    vm_compute; reflexivity.
Defined.

(** On a machine without the store, the first call makes the directory
    and the marker; where the marker held something, it is emptied. *)
Lemma ensureReceiptsDir_contract_witness :
  fs Ledger.bare !! "/home/u/receipts" = None
  /\ (exists w',
        ensureReceiptsDir Sample.offline Ledger.bare = (Normal tt, w')
        /\ fs w' !! "/home/u/receipts" = Some Directory
        /\ fs w' !! "/home/u/receipts/.keep" = Some (RegularFile EmptyString)
        /\ ensureReceiptsDir Sample.offline w' = (Normal tt, w'))
  /\ fs Ledger.kept !! "/home/u/receipts/.keep" = Some (RegularFile "data")
  /\ fs (snd (ensureReceiptsDir Sample.offline Ledger.kept))
       !! "/home/u/receipts/.keep" = Some (RegularFile EmptyString).
Proof.
  split; [reflexivity|].
  destruct (ensureReceiptsDir_contract Sample.offline Ledger.bare)
    as (_ & _ & _ & Hmade & Hagain & _).
  destruct (ensureReceiptsDir_contract Sample.offline Ledger.kept)
    as (_ & _ & _ & Hkept & _).
  split; [|split; [reflexivity|exact (proj1 (Hkept eq_refl eq_refl))]].
  exists (snd (ensureReceiptsDir Sample.offline Ledger.bare)).
  split; [reflexivity|].
  destruct (Hmade eq_refl eq_refl) as (Hkeep & Hdirs & _).
  split; [|split; [exact Hkeep | exact (Hagain eq_refl)]].
  apply Hdirs. left.
Defined.

